(** * Call-audit pipeline: a shallow embedding of [audit_processing.py] and
      of the batch endpoint of [main.py]

    The pipeline is glue code: a fixed sequence of calls to external
    capabilities (ffmpeg, torchaudio, the denoise/enhance models, the
    Whisper model, the Ollama service) wrapped in [try]/[except]/[finally].
    What there is to verify is its control flow: which handler an exception
    reaches, which files are left on disk, which capability is called.

    The embedding therefore keeps
    - Python exceptions with their class hierarchy ([except] clauses match
      by [isinstance], in source order);
    - a world made of the set of existing paths, a log of observable
      events and a counter for the random-name generators;
    - every external capability as an oracle of the record [capabilities],
      free to return or to raise.

    What the embedding assumes of the environment:
    - exceptions are instances of [Exception]; [KeyboardInterrupt] and
      [SystemExit], which no [except Exception] clause catches, are not
      stage failures and are left out;
    - the file system is well behaved: [mkdtemp] and [makedirs] succeed,
      and removing an existing file succeeds.  The set of existing paths
      does not tell files from directories, and [os.remove] is modelled
      for the files the code has written itself (its conversion, enhanced
      and upload files): the only [OSError] of the model is the one for an
      absent path, and the [OSError] of [os.remove] on a directory is not
      modelled.  A statement about a removal therefore says where the path
      comes from;
    - a capability that writes a file writes the path it is given and
      nothing else; whether the file is there afterwards is up to the
      capability, also when it raises. *)

From stdpp Require Import base numbers list strings gmap.
From Stdlib Require Import NArith ZArith Lia.

Local Open Scope N_scope.

(* ===================================================================== *)
(** ** Python values                                                      *)
(* ===================================================================== *)

Module Py.

(** A Python [str] is a sequence of code points; [bytes] is a sequence of
    octets.  Slices such as [text[:100]] count code points, which is why a
    [str] is not modelled by Rocq's byte strings. *)
Definition char := N.
Definition str := list N.
Definition bytes := list N.

Definition continuation (b : N) : bool := (128 <=? b) && (b <=? 191).

(** [bytes.decode()] with the default codec: strict UTF-8.  [None] stands
    for [UnicodeDecodeError] (overlong forms, surrogates, stray
    continuation bytes and values above U+10FFFF are rejected). *)
Fixpoint utf8_decode (bs : bytes) : option str :=
  match bs with
  | [] => Some []
  | b0 :: r0 =>
    if b0 <? 128 then cons b0 <$> utf8_decode r0
    else if (194 <=? b0) && (b0 <=? 223) then
      match r0 with
      | b1 :: r1 =>
        if continuation b1
        then cons ((b0 - 192) * 64 + (b1 - 128)) <$> utf8_decode r1
        else None
      | _ => None
      end
    else if (224 <=? b0) && (b0 <=? 239) then
      match r0 with
      | b1 :: b2 :: r2 =>
        let cp := (b0 - 224) * 4096 + (b1 - 128) * 64 + (b2 - 128) in
        if continuation b1 && continuation b2
           && (2048 <=? cp) && negb ((55296 <=? cp) && (cp <=? 57343))
        then cons cp <$> utf8_decode r2
        else None
      | _ => None
      end
    else if (240 <=? b0) && (b0 <=? 244) then
      match r0 with
      | b1 :: b2 :: b3 :: r3 =>
        let cp := (b0 - 240) * 262144 + (b1 - 128) * 4096
                  + (b2 - 128) * 64 + (b3 - 128) in
        if continuation b1 && continuation b2 && continuation b3
           && (65536 <=? cp) && (cp <=? 1114111)
        then cons cp <$> utf8_decode r3
        else None
      | _ => None
      end
    else None
  end.

Definition octets (s : string) : bytes :=
  map Ascii.N_of_ascii (String.list_ascii_of_string s).

(** String literals of the source, written in UTF-8 and read as code
    points. *)
Definition u (s : string) : str := default [] (utf8_decode (octets s)).
Arguments u : simpl never.

(** The double-quote character, for the literals that contain one. *)
Definition dq : str := [34].

(** *** Exceptions *)

(** The classes the code names or can meet, all below [Exception].
    [OtherError n] is any further direct subclass of [Exception]. *)
Inductive exn_class :=
| Exception
| OSError
| FileNotFoundError
| ValueError
| JSONDecodeError
| UnicodeDecodeError
| ImportError
| ModuleNotFoundError
| TypeError
| NameError
| UnboundLocalError
| SubprocessError
| CalledProcessErrorClass
| OtherError (name : str).

(** The direct superclass, as in the interpreter's hierarchy. *)
Definition superclass (c : exn_class) : option exn_class :=
  match c with
  | Exception => None
  | FileNotFoundError => Some OSError
  | JSONDecodeError | UnicodeDecodeError => Some ValueError
  | ModuleNotFoundError => Some ImportError
  | UnboundLocalError => Some NameError
  | CalledProcessErrorClass => Some SubprocessError
  | _ => Some Exception
  end.

Definition class_eqb (c d : exn_class) : bool :=
  match c, d with
  | Exception, Exception | OSError, OSError
  | FileNotFoundError, FileNotFoundError | ValueError, ValueError
  | JSONDecodeError, JSONDecodeError
  | UnicodeDecodeError, UnicodeDecodeError
  | ImportError, ImportError | ModuleNotFoundError, ModuleNotFoundError
  | TypeError, TypeError | NameError, NameError
  | UnboundLocalError, UnboundLocalError
  | SubprocessError, SubprocessError
  | CalledProcessErrorClass, CalledProcessErrorClass => true
  | OtherError n, OtherError m => bool_decide (n = m)
  | _, _ => false
  end.

(** [issubclass c d]; the hierarchy has depth three. *)
Fixpoint subclass_upto (fuel : nat) (c d : exn_class) : bool :=
  class_eqb c d ||
  match fuel with
  | O => false
  | S k => match superclass c with
           | Some p => subclass_upto k p d
           | None => false
           end
  end.

Definition issubclass : exn_class -> exn_class -> bool := subclass_upto 3.

(** An exception object.  [subprocess.CalledProcessError] is the one
    exception whose attributes the code reads ([stderr]); every other
    exception is used through its class and [str(e)] only. *)
Inductive exn :=
| Exn (c : exn_class) (msg : str)
| CalledProcessError (stderr : option bytes) (msg : str).

Definition class_of (e : exn) : exn_class :=
  match e with
  | Exn c _ => c
  | CalledProcessError _ _ => CalledProcessErrorClass
  end.

(** [str(e)] *)
Definition str_of_exn (e : exn) : str :=
  match e with
  | Exn _ msg => msg
  | CalledProcessError _ msg => msg
  end.

Definition isinstance (e : exn) (c : exn_class) : bool :=
  issubclass (class_of e) c.

(** *** Data values *)

(** The values [json.loads] can produce, which are also the values the
    result dicts hold.  A dict keeps its insertion order. *)
#[warnings="-register-all"]
Inductive pyval :=
| PNone
| PBool (b : bool)
| PInt (z : Z)
| PFloat (literal : str)
| PStr (s : str)
| PList (l : list pyval)
| PDict (d : list (str * pyval)).

Definition dict := list (str * pyval).

Fixpoint dict_get (d : dict) (k : str) : option pyval :=
  match d with
  | [] => None
  | (k', v) :: r => if bool_decide (k' = k) then Some v else dict_get r k
  end.

(** [d[k] = v]: an existing key keeps its position. *)
Fixpoint dict_set (d : dict) (k : str) (v : pyval) : dict :=
  match d with
  | [] => [(k, v)]
  | (k', v') :: r =>
    if bool_decide (k' = k) then (k, v) :: r else (k', v') :: dict_set r k v
  end.


(** *** [os.path] (posixpath) and [str] methods *)

Definition slash : char := 47.
Definition dot : char := 46.

(** [p[p.rfind('/') + 1:]]: what follows the last slash. *)
Fixpoint basename (p : str) : str :=
  match p with
  | [] => []
  | c :: r =>
    if bool_decide (slash ∈ r) then basename r
    else if bool_decide (c = slash) then r
    else c :: r
  end.

(** [genericpath._splitext] on a name without separator: the extension
    starts at the last dot, unless only dots precede it. *)
Fixpoint split_at_last_dot (p : str) : option (str * str) :=
  match p with
  | [] => None
  | c :: r =>
    match split_at_last_dot r with
    | Some (root, ext) => Some (c :: root, ext)
    | None => if bool_decide (c = dot) then Some ([], c :: r) else None
    end
  end.

Definition all_dots (s : str) : bool := forallb (fun c => bool_decide (c = dot)) s.

Definition splitext_name (name : str) : str * str :=
  match split_at_last_dot name with
  | Some (root, ext) => if all_dots root then (name, []) else (root, ext)
  | None => (name, [])
  end.

(** [os.path.splitext]: only the last component can carry the
    extension. *)
Definition splitext (p : str) : str * str :=
  let name := basename p in
  let dir := take (length p - length name) p in
  let '(root, ext) := splitext_name name in
  (dir ++ root, ext).

(** [os.path.join(a, b)] *)
Definition ends_with_slash (a : str) : bool :=
  match last a with Some c => bool_decide (c = slash) | None => false end.

Definition join (a b : str) : str :=
  match b with
  | c :: _ => if bool_decide (c = slash) then b
              else if bool_decide (a = []) || ends_with_slash a then a ++ b
              else a ++ slash :: b
  | [] => if bool_decide (a = []) || ends_with_slash a then a
          else a ++ [slash]
  end.

(** [str.lower], on the letters A-Z.  Outside ASCII a lowered character
    stays outside ASCII except U+212A (to [k]) and U+0130 (to [i] plus a
    combining dot); neither letter occurs in a supported extension. *)
Definition lower_char (c : char) : char :=
  if (65 <=? c) && (c <=? 90) then c + 32 else c.
Definition lower (s : str) : str := map lower_char s.

(** [str.isspace] for one character: the characters [str.strip()]
    removes. *)
Definition is_space (c : char) : bool :=
  ((9 <=? c) && (c <=? 13)) || ((28 <=? c) && (c <=? 32))
  || (c =? 133) || (c =? 160) || (c =? 5760)
  || ((8192 <=? c) && (c <=? 8202))
  || (c =? 8232) || (c =? 8233) || (c =? 8239) || (c =? 8287)
  || (c =? 12288).

Fixpoint lstrip (s : str) : str :=
  match s with
  | c :: r => if is_space c then lstrip r else s
  | [] => []
  end.

Definition strip (s : str) : str := rev (lstrip (rev (lstrip s))).

(** [s.endswith(suffix)] *)
Definition endswith (s suffix : str) : bool :=
  bool_decide (drop (length s - length suffix) s = suffix).

(** Truth value of a [str]. *)
Definition nonempty (s : str) : bool :=
  match s with [] => false | _ => true end.

(** [needle in s] for two [str]: [needle] occurs at some position. *)
Fixpoint contains (needle s : str) : bool :=
  bool_decide (needle `prefix_of` s)
  || match s with
     | [] => false
     | _ :: r => contains needle r
     end.

End Py.

(* ===================================================================== *)
(** ** The world the pipeline runs in                                     *)
(* ===================================================================== *)

Module Runtime.
Import Py.

(** What a call does: it returns a value or raises. *)
Inductive outcome (A : Type) :=
| Return (a : A)
| Raise (e : exn).
Arguments Return {A} a.
Arguments Raise {A} e.

(** What an in-process library call does.  Such a call raises exceptions
    that carry a message only; captured process output exists only on the
    exception [subprocess.run] raises. *)
Inductive cap_result (A : Type) :=
| Ok (a : A)
| Fails (c : exn_class) (msg : str).
Arguments Ok {A} a.
Arguments Fails {A} c msg.

Inductive fs_op := Mkdtemp | Exists | Makedirs | Remove | Rmtree.

Inductive capability :=
| Uuid4 | Ffmpeg | TorchaudioLoad | TensorMean | Denoise | Enhance
| PeakAmplitude | TorchaudioSave | WhisperTranscribe | OllamaGenerate
| JsonLoads.

Inductive function :=
| PreprocessAudio | TranscribeAudio | AnalyzeText | PerformFullAudioAudit.

(** Observable events, in the order they happen. *)
Inductive event :=
| Syscall (op : fs_op) (p : str)
| Invoke (c : capability)
| Enter (f : function).

#[global] Instance fs_op_eq_dec : EqDecision fs_op.
Proof. solve_decision. Defined.
#[global] Instance capability_eq_dec : EqDecision capability.
Proof. solve_decision. Defined.
#[global] Instance function_eq_dec : EqDecision function.
Proof. solve_decision. Defined.
#[global] Instance event_eq_dec : EqDecision event.
Proof. solve_decision. Defined.

(** The set of existing paths (files and directories alike), the events
    so far, and how many random names were drawn. *)
Record world := World {
  fs : gset str;
  log : list event;
  rand : nat
}.

Definition M (A : Type) : Type := world -> outcome A * world.

Definition ret {A} (a : A) : M A := fun w => (Return a, w).

Definition raise {A} (e : exn) : M A := fun w => (Raise e, w).

Definition bind {A B} (c : M A) (k : A -> M B) : M B :=
  fun w => match c w with
           | (Return a, w') => k a w'
           | (Raise e, w') => (Raise e, w')
           end.

Declare Scope py_scope.
Delimit Scope py_scope with py.
Notation "x <- c ;; k" := (bind c (fun x => k))
  (at level 100, c at next level, right associativity) : py_scope.
Notation "c ;; k" := (bind c (fun _ => k))
  (at level 100, right associativity) : py_scope.
Local Open Scope py_scope.

(** The first [except] clause whose class the exception is an instance
    of. *)
Fixpoint select_clause {A} (clauses : list (exn_class * (exn -> M A)))
    (e : exn) : option (M A) :=
  match clauses with
  | [] => None
  | (c, h) :: r => if isinstance e c then Some (h e) else select_clause r e
  end.

(** [try: c  except C1 as e: h1 e  except C2 as e: h2 e ...].  An
    exception raised by a handler is not offered to the later clauses. *)
Definition try_except {A} (c : M A)
    (clauses : list (exn_class * (exn -> M A))) : M A :=
  fun w => match c w with
           | (Return a, w') => (Return a, w')
           | (Raise e, w') =>
             match select_clause clauses e with
             | Some h => h w'
             | None => (Raise e, w')
             end
           end.

(** [try: c  finally: f].  The outcome of [c] stands unless [f] raises. *)
Definition finally {A} (c : M A) (f : M unit) : M A :=
  fun w => match c w with
           | (r, w') => match f w' with
                        | (Return _, w'') => (r, w'')
                        | (Raise e, w'') => (Raise e, w'')
                        end
           end.

(** Runs [c] and hands its outcome over as a value.  It serves for a local
    that is assigned by the first statement of a [try] block and read in
    the [except] or [finally] part: the local is bound exactly when that
    statement returned. *)
Definition attempt {A} (c : M A) : M (outcome A) :=
  fun w => match c w with (r, w') => (Return r, w') end.

Definition resume {A} (r : outcome A) : M A :=
  match r with Return a => ret a | Raise e => raise e end.

Definition bound {A} (r : outcome A) : option A :=
  match r with Return a => Some a | Raise _ => None end.

Definition emit (ev : event) : M unit :=
  fun w => (Return tt, World (fs w) (log w ++ [ev]) (rand w)).

Definition lift {A} (r : cap_result A) : M A :=
  match r with Ok a => ret a | Fails c msg => raise (Exn c msg) end.

(** A capability call: logged, then whatever the oracle answers. *)
Definition call {A} (c : capability) (r : cap_result A) : M A :=
  emit (Invoke c) ;; lift r.

(** *** The file system *)

(** [p] is the directory [d] or lies below it. *)
Definition dir_prefix (d : str) : str :=
  if ends_with_slash d then d else d ++ [slash].

Definition under (d p : str) : Prop := p = d ∨ dir_prefix d `prefix_of` p.

#[global] Instance under_dec d p : Decision (under d p).
Proof. unfold under. apply _. Defined.

(** The directories above [p]: every non-empty prefix that ends just
    before a slash. *)
Fixpoint ancestors_from (before rest : str) : list str :=
  match rest with
  | [] => []
  | c :: r =>
    (if bool_decide (c = slash) && nonempty before then [before] else [])
    ++ ancestors_from (before ++ [c]) r
  end.
Definition ancestors (p : str) : list str := ancestors_from [] p.

(** [os.path.exists(p)] *)
Definition exists_ (p : str) : M bool :=
  emit (Syscall Exists p) ;;
  fun w => (Return (bool_decide (p ∈ fs w)), w).

(** [os.makedirs(p, exist_ok=True)]: nothing to do for an existing leaf,
    otherwise the leaf and the missing directories above it appear. *)
Definition makedirs (p : str) : M unit :=
  emit (Syscall Makedirs p) ;;
  fun w => if bool_decide (p ∈ fs w) then (Return tt, w)
           else (Return tt,
                 World (fs w ∪ {[p]} ∪ list_to_set (ancestors p))
                       (log w) (rand w)).

(** [os.remove(p)] for a path that, when it exists, is a file: an absent
    path is an [OSError].  ([os.remove] of a directory also raises
    [OSError] and leaves the directory; the world does not record which
    paths are directories, see the assumptions at the top.) *)
Definition remove (p : str) : M unit :=
  emit (Syscall Remove p) ;;
  fun w => if bool_decide (p ∈ fs w)
           then (Return tt, World (fs w ∖ {[p]}) (log w) (rand w))
           else (Raise (Exn FileNotFoundError
                            (u "[Errno 2] No such file or directory")), w).

(** [shutil.rmtree(d)]: the directory goes with all it contains. *)
Definition rmtree (d : str) : M unit :=
  emit (Syscall Rmtree d) ;;
  fun w => (Return tt,
            World (filter (λ p, ¬ under d p) (fs w)) (log w) (rand w)).

(** A file left on disk by an external tool. *)
Definition leave_file (written : bool) (p : str) : M unit :=
  fun w => (Return tt,
            if written then World (fs w ∪ {[p]}) (log w) (rand w) else w).

End Runtime.

(* ===================================================================== *)
(** ** audit_processing.py                                                *)
(* ===================================================================== *)

Module AuditProcessing.
Import Py Runtime.
Local Open Scope py_scope.

(** The module globals the guards read.  For the handles ([torch],
    [WhisperModel], ...) the field tells whether the global is bound to
    something other than [None]. *)
Record globals := Globals {
  _heavy_libs_successfully_imported : bool;
  torch : bool;
  torchaudio : bool;
  WhisperModel : bool;
  denoise_func : bool;
  enhance_func : bool;
  WHISPER_MODEL_INSTANCE : bool;
  ollama : bool
}.

(** What [subprocess.run(..., check=True, capture_output=True)] does: the
    tool exits with status zero, or with another status
    ([CalledProcessError] carrying the captured stderr), or cannot be
    started at all. *)
Inductive run_result :=
| Completed
| NonZeroExit (stderr : bytes) (msg : str)
| SpawnFailure (c : exn_class) (msg : str).

(** What [WHISPER_MODEL_INSTANCE.transcribe] hands back: a lazy sequence of
    segments, here by what draining it yields (the texts, or an exception
    on the way), and the info object, here by what formatting its language
    line yields. *)
Record whisper_output := WhisperOutput {
  segment_texts : cap_result (list str);
  language_line : cap_result str
}.

(** What [ollama.generate] hands back, by the operations the code applies
    to it: a plain [dict], or any other object, for which the membership
    test, the subscript and [str()] are left to the object. *)
Inductive response :=
| RespDict (d : dict)
| RespObject (contains : cap_result bool) (getitem : cap_result pyval)
             (repr : str).

(** The external capabilities.  Each is an oracle: a function of its
    arguments with an arbitrary answer.  The file-writing ones also tell
    whether their output file is on disk afterwards. *)
Record capabilities (tensor : Type) := Capabilities {
  tmp_root : str;                              (* tempfile.gettempdir() *)
  mkdtemp_name : nat -> str;                   (* random part of mkdtemp *)
  uuid4_hex : nat -> str;                      (* uuid.uuid4().hex *)
  ffmpeg : str -> str -> run_result * bool;
  torchaudio_load : str -> cap_result (tensor * Z);
  tensor_mean : tensor -> cap_result tensor;
  denoise : tensor -> Z -> cap_result (tensor * Z);
  enhance : tensor -> Z -> cap_result (tensor * Z);
  (* torch.max(torch.abs(w)) < 1e-5 *)
  almost_silent : tensor -> cap_result bool;
  torchaudio_save : str -> tensor -> Z -> cap_result unit * bool;
  whisper_transcribe : str -> cap_result whisper_output;
  ollama_generate : str -> str -> cap_result response;
  json_loads : str -> cap_result pyval;
  (* str() of a value that is not a str *)
  repr_of : pyval -> str
}.
Arguments tmp_root {tensor} _.
Arguments mkdtemp_name {tensor} _ _.
Arguments uuid4_hex {tensor} _ _.
Arguments ffmpeg {tensor} _ _ _.
Arguments torchaudio_load {tensor} _ _.
Arguments tensor_mean {tensor} _ _.
Arguments denoise {tensor} _ _ _.
Arguments enhance {tensor} _ _ _.
Arguments almost_silent {tensor} _ _.
Arguments torchaudio_save {tensor} _ _ _ _.
Arguments whisper_transcribe {tensor} _ _.
Arguments ollama_generate {tensor} _ _ _.
Arguments json_loads {tensor} _ _.
Arguments repr_of {tensor} _ _.

Definition OLLAMA_MODEL_NAME : str := u "deepseek-r1:14b".

Section Pipeline.
Context {tensor : Type}.
Variable caps : capabilities tensor.
Variable g : globals.

(** [uuid.uuid4().hex[:8]] *)
Definition uuid8 : M str :=
  emit (Invoke Uuid4) ;;
  fun w => (Return (take 8 (uuid4_hex caps (rand w))),
            World (fs w) (log w) (S (rand w))).

(** [tempfile.mkdtemp(prefix=...)]: a directory with a random name under
    the temporary root. *)
Definition mkdtemp (prefix : str) : M str :=
  fun w =>
    let d := join (tmp_root caps) (prefix ++ mkdtemp_name caps (rand w)) in
    (Return d,
     World (fs w ∪ {[d]}) (log w ++ [Syscall Mkdtemp d]) (S (rand w))).

(** [with tempfile.TemporaryDirectory(prefix=...) as d: body]: the
    directory is removed when the block is left, however it is left. *)
Definition with_TemporaryDirectory {A} (prefix : str) (body : str -> M A)
    : M A :=
  d <- mkdtemp prefix ;;
  finally (body d) (rmtree d).

(** [e.stderr.decode() if e.stderr else str(e)] *)
Definition stderr_of (e : exn) : option bytes :=
  match e with
  | CalledProcessError s _ => s
  | Exn _ _ => None
  end.

Definition decode (b : bytes) : M str :=
  match utf8_decode b with
  | Some s => ret s
  | None => raise (Exn UnicodeDecodeError
                       (u "'utf-8' codec can't decode byte: invalid data"))
  end.

Definition stderr_text (e : exn) : M str :=
  match stderr_of e with
  | Some (b :: bs) => decode (b :: bs)
  | _ => ret (str_of_exn e)
  end.

Definition run_ffmpeg (input output : str) : M unit :=
  emit (Invoke Ffmpeg) ;;
  let '(r, written) := ffmpeg caps input output in
  leave_file written output ;;
  match r with
  | Completed => ret tt
  | NonZeroExit stderr msg => raise (CalledProcessError (Some stderr) msg)
  | SpawnFailure c msg => raise (Exn c msg)
  end.

Definition save (path : str) (w : tensor) (sr : Z) : M unit :=
  emit (Invoke TorchaudioSave) ;;
  let '(r, written) := torchaudio_save caps path w sr in
  leave_file written path ;;
  lift r.

(** The [finally] parts of [preprocess_audio] and [transcribe_audio]:
    [if f and os.path.exists(f): try: os.remove(f) except OSError: print] *)
Definition remove_if_present (f : option str) : M unit :=
  match f with
  | Some p =>
    if nonempty p then
      there <- exists_ p ;;
      if there then try_except (remove p) [(OSError, fun _ => ret tt)]
      else ret tt
    else ret tt
  | None => ret tt
  end.

Definition preprocess_audio (input_audio_path output_dir : str) : M str :=
  emit (Enter PreprocessAudio) ;;
  if negb (_heavy_libs_successfully_imported g) || negb (torch g)
     || negb (torchaudio g) || negb (denoise_func g)
     || negb (enhance_func g)
  then raise (Exn ImportError (u "Core audio processing libraries (torch, torchaudio, resemble_enhance) are not available for preprocess_audio."))
  else
  there <- exists_ input_audio_path ;;
  if negb there
  then raise (Exn FileNotFoundError
                (u "Input file " ++ input_audio_path ++ u " does not exist."))
  else
  makedirs output_dir ;;
  let '(base, ext) := splitext (basename input_audio_path) in
  h <- uuid8 ;;
  let enhanced_filename := base ++ u "_enhanced_" ++ h ++ u ".wav" in
  let output_enhanced_path := join output_dir enhanced_filename in
  (* [temp_wav_file] is assigned in the [try] block before anything in it
     can raise, so its value in the [finally] part is known here *)
  temp_wav_file <-
    (if bool_decide (lower ext ≠ u ".wav")
     then h' <- uuid8 ;;
          ret (Some (join output_dir
                       (base ++ u "_temp_conversion_" ++ h' ++ u ".wav")))
     else ret None) ;;
  finally
    (try_except
       (current_audio_path <-
          match temp_wav_file with
          | Some temp_wav_path =>
            run_ffmpeg input_audio_path temp_wav_path ;; ret temp_wav_path
          | None => ret input_audio_path
          end ;;
        loaded <- call TorchaudioLoad (torchaudio_load caps current_audio_path) ;;
        let '(dwav, sr) := loaded in
        dwav <- call TensorMean (tensor_mean caps dwav) ;;
        denoised <- call Denoise (denoise caps dwav sr) ;;
        let '(wav_denoised, sr_denoised) := denoised in
        enhanced <- call Enhance (enhance caps wav_denoised sr_denoised) ;;
        let '(wav_enhanced, sr_enhanced) := enhanced in
        silent <- call PeakAmplitude (almost_silent caps wav_enhanced) ;;
        if silent : bool
        then raise (Exn ValueError (u "Enhanced audio is almost silent, processing likely failed."))
        else
          save output_enhanced_path wav_enhanced sr_enhanced ;;
          ret output_enhanced_path)
       [(CalledProcessErrorClass,
         fun e => stderr_text e ;; raise e)])
    (remove_if_present temp_wav_file).

Definition transcribe_audio (audio_file_path temp_processing_dir : str)
    : M str :=
  emit (Enter TranscribeAudio) ;;
  if negb (_heavy_libs_successfully_imported g) || negb (WhisperModel g)
  then raise (Exn ImportError (u "faster_whisper.WhisperModel class not imported. Cannot transcribe."))
  else if negb (WHISPER_MODEL_INSTANCE g)
  then raise (Exn ImportError (u "WHISPER_MODEL_INSTANCE is not initialized. Cannot transcribe."))
  else
  (* [enhanced_file_path] is bound when [preprocess_audio] returned *)
  preprocessed <- attempt (preprocess_audio audio_file_path temp_processing_dir) ;;
  finally
    (try_except
       (enhanced_file_path <- resume preprocessed ;;
        out <- call WhisperTranscribe (whisper_transcribe caps enhanced_file_path) ;;
        lift (language_line out) ;;
        texts <- lift (segment_texts out) ;;
        ret (concat texts))
       [(Exception, fun e => raise e)])
    (remove_if_present (bound preprocessed)).

(** The prompt: a fixed template around the transcript. *)
Definition nl : str := [10].

Definition prompt_head : str :=
  nl ++ u "你是一个客服录音审核助手。分析以下中文客服对话文本，可能包含转录错误或不完整内容。完成以下任务：" ++ nl
  ++ u "1. 情感分析：判断对话的情感倾向（正面、负面或中性）。若文本不完整，基于上下文推断。" ++ nl
  ++ u "2. 合规性检查：检测是否存在不当用语（如“辱骂”“威胁”）或违规行为（如“违反政策”）。" ++ nl
  ++ u "3. 提供简短的分析摘要，说明情感和合规性结论。" ++ nl
  ++ nl
  ++ u "对话文本：" ++ nl.

Definition prompt_tail : str :=
  nl ++ nl
  ++ u "输出格式（JSON）：" ++ nl
  ++ u "{" ++ nl
  ++ u "    " ++ dq ++ u "sentiment" ++ dq ++ u ": " ++ dq ++ u "正面/负面/中性" ++ dq ++ u "," ++ nl
  ++ u "    " ++ dq ++ u "compliance_issues" ++ dq ++ u ": [" ++ dq ++ u "问题1" ++ dq ++ u ", " ++ dq ++ u "问题2" ++ dq ++ u ", ...] 或 []," ++ nl
  ++ u "    " ++ dq ++ u "summary" ++ dq ++ u ": " ++ dq ++ u "分析摘要" ++ dq ++ nl
  ++ u "}" ++ nl.

(** The three-key dict of the fallback paths. *)
Definition analysis (sentiment : str) (issues : list str) (summary : str)
    : pyval :=
  PDict [(u "sentiment", PStr sentiment);
         (u "compliance_issues", PList (map PStr issues));
         (u "summary", PStr summary)].

(** ["response" in response] and [response["response"]] *)
Definition contains_response (r : response) : M bool :=
  match r with
  | RespDict d => ret (bool_decide (is_Some (dict_get d (u "response"))))
  | RespObject contains _ _ => lift contains
  end.

Definition getitem_response (r : response) : M pyval :=
  match r with
  | RespDict d =>
    match dict_get d (u "response") with
    | Some v => ret v
    | None => raise (Exn (OtherError (u "KeyError")) (u "'response'"))
    end
  | RespObject _ getitem _ => lift getitem
  end.

(** [v[:100]] and the text an f-string shows for the result *)
Definition slice100 (v : pyval) : M pyval :=
  match v with
  | PStr s => ret (PStr (take 100 s))
  | PList l => ret (PList (take 100 l))
  | _ => raise (Exn TypeError (u "object is not subscriptable"))
  end.

Definition format (v : pyval) : str :=
  match v with
  | PStr s => s
  | _ => repr_of caps v
  end.

(** [response.get('response', '')[:100] if isinstance(response, dict)
     else str(response)[:100]], where the local [response] may not have
    been bound. *)
Definition raw_resp (response : option response) : M str :=
  match response with
  | None =>
    raise (Exn UnboundLocalError (u "cannot access local variable 'response' where it is not associated with a value"))
  | Some (RespDict d) =>
    v <- slice100 (default (PStr []) (dict_get d (u "response"))) ;;
    ret (format v)
  | Some (RespObject _ _ repr) => ret (take 100 repr)
  end.

Definition analyze_text (text ollama_model : str) : M pyval :=
  emit (Enter AnalyzeText) ;;
  if negb (ollama g)
  then raise (Exn ImportError (u "Ollama library is not available."))
  else
  let prompt := prompt_head ++ text ++ prompt_tail in
  (* [response] is bound when [ollama.generate] returned *)
  generated <- attempt (call OllamaGenerate
                          (ollama_generate caps ollama_model prompt)) ;;
  try_except
    (response <- resume generated ;;
     present <- contains_response response ;;
     (* [not in ... or not isinstance(..., str)], left to right *)
     item <- (if present : bool
              then v <- getitem_response response ;; ret (Some v)
              else ret None) ;;
     match item with
     | Some (PStr s) =>
       analysis_result <- call JsonLoads (json_loads caps s) ;;
       ret analysis_result
     | _ =>
       ret (analysis (u "未知") [u "LLM response format error"]
              (u "Ollama returned an unexpected response structure: "
               ++ take 100 text ++ u "..."))
     end)
    [(JSONDecodeError,
      fun e =>
        raw <- raw_resp (bound generated) ;;
        ret (analysis (u "未知")
               [u "JSON parsing error: " ++ str_of_exn e]
               (u "无法解析LLM输出。Raw: " ++ raw ++ u "...")));
     (Exception,
      fun e =>
        ret (analysis (u "未知")
               [u "Ollama request failed: " ++ str_of_exn e]
               (u "LLM分析请求失败。")))].

(** [obj[key] = value] *)
Definition setitem (obj : pyval) (key : str) (value : pyval) : M pyval :=
  match obj with
  | PDict d => ret (PDict (dict_set d key value))
  | PList _ =>
    raise (Exn TypeError (u "list indices must be integers or slices, not str"))
  | _ =>
    raise (Exn TypeError (u "object does not support item assignment"))
  end.

Definition failed (audio_file_path error : str) : pyval :=
  PDict [(u "audio_file", PStr (basename audio_file_path));
         (u "error", PStr error);
         (u "status", PStr (u "FAILED"))].

(** The [try] block of [perform_full_audio_audit]. *)
Definition audit_steps (audio_file_path temp_dir : str) : M pyval :=
  if negb (_heavy_libs_successfully_imported g)
     || negb (WHISPER_MODEL_INSTANCE g)
  then raise (Exn ImportError (u "Core audio processing components are not available for a full audit."))
  else
    transcription <- transcribe_audio audio_file_path temp_dir ;;
    if negb (nonempty (strip transcription))
    then ret (PDict [(u "audio_file", PStr (basename audio_file_path));
                     (u "transcription", PStr []);
                     (u "sentiment", PStr (u "未知"));
                     (u "compliance_issues",
                      PList [PStr (u "Empty transcription")]);
                     (u "summary",
                      PStr (u "音频转录结果为空，无法进行分析。"))])
    else
      analysis <- analyze_text transcription OLLAMA_MODEL_NAME ;;
      analysis <- setitem analysis (u "audio_file")
                    (PStr (basename audio_file_path)) ;;
      analysis <- setitem analysis (u "transcription")
                    (PStr transcription) ;;
      ret analysis.

(** Its [except] clauses, in source order. *)
Definition audit_handlers (audio_file_path : str)
    : list (exn_class * (exn -> M pyval)) :=
  [(FileNotFoundError,
    fun _ => ret (failed audio_file_path (u "Input audio file not found.")));
   (ValueError,
    fun ve => ret (failed audio_file_path
                     (u "Processing error: " ++ str_of_exn ve)));
   (CalledProcessErrorClass,
    fun cpe =>
      err_msg <- stderr_text cpe ;;
      ret (failed audio_file_path
             (u "Audio conversion failed: " ++ err_msg)));
   (ImportError,
    fun ie => ret (failed audio_file_path
                     (u "Import error during processing: "
                      ++ str_of_exn ie)));
   (Exception,
    fun e => ret (failed audio_file_path
                    (u "An unexpected error occurred: "
                     ++ str_of_exn e)))].

Definition perform_full_audio_audit (audio_file_path : str) : M pyval :=
  emit (Enter PerformFullAudioAudit) ;;
  with_TemporaryDirectory (u "audio_audit_") (fun temp_dir =>
    try_except (audit_steps audio_file_path temp_dir)
               (audit_handlers audio_file_path)).

End Pipeline.

(** *** Module initialisation (lines 4 to 62) *)

(** What the import statements and the two calls of the initialisation
    do.  [import ollama] is unconditional; the others sit in the [try]
    block. *)
Record loader := Loader {
  import_ollama : cap_result unit;
  import_torch : cap_result unit;
  import_torchaudio : cap_result unit;
  import_faster_whisper : cap_result unit;
  import_resemble_enhance : cap_result unit;
  (* torch.cuda.is_available() *)
  cuda_is_available : cap_result bool;
  (* WhisperModel(size, device=..., compute_type=...) *)
  WhisperModel_init : str -> str -> str -> cap_result unit
}.

(** The globals once the module body has run. *)
Record module_state := ModuleState {
  handles : globals;
  DEVICE : str
}.

(** The placeholders of lines 9 to 18, with [ollama] imported. *)
Definition placeholders : module_state :=
  ModuleState (Globals false false false false false false false true)
              (u "cpu").

Definition bind_torch (b : bool) (s : module_state) : module_state :=
  let g := handles s in
  ModuleState
    (Globals (_heavy_libs_successfully_imported g) b (torchaudio g)
       (WhisperModel g) (denoise_func g) (enhance_func g)
       (WHISPER_MODEL_INSTANCE g) (ollama g))
    (DEVICE s).

Definition bind_torchaudio (b : bool) (s : module_state) : module_state :=
  let g := handles s in
  ModuleState
    (Globals (_heavy_libs_successfully_imported g) (torch g) b
       (WhisperModel g) (denoise_func g) (enhance_func g)
       (WHISPER_MODEL_INSTANCE g) (ollama g))
    (DEVICE s).

(** [WhisperModel], [denoise_func] and [enhance_func], assigned together
    on lines 28 to 30 and on lines 59 to 61. *)
Definition bind_classes (b : bool) (s : module_state) : module_state :=
  let g := handles s in
  ModuleState
    (Globals (_heavy_libs_successfully_imported g) (torch g) (torchaudio g)
       b b b (WHISPER_MODEL_INSTANCE g) (ollama g))
    (DEVICE s).

Definition set_imported (b : bool) (s : module_state) : module_state :=
  let g := handles s in
  ModuleState
    (Globals b (torch g) (torchaudio g) (WhisperModel g) (denoise_func g)
       (enhance_func g) (WHISPER_MODEL_INSTANCE g) (ollama g))
    (DEVICE s).

Definition bind_instance (b : bool) (s : module_state) : module_state :=
  let g := handles s in
  ModuleState
    (Globals (_heavy_libs_successfully_imported g) (torch g) (torchaudio g)
       (WhisperModel g) (denoise_func g) (enhance_func g) b (ollama g))
    (DEVICE s).

Definition set_device (d : str) (s : module_state) : module_state :=
  ModuleState (handles s) d.

(** The [try] block of lines 20 to 50: how it ends, and the globals at
    that point. *)
Definition heavy_imports (ld : loader) (s : module_state)
    : outcome unit * module_state :=
  match import_torch ld with
  | Fails c msg => (Raise (Exn c msg), s)
  | Ok _ =>
  let s := bind_torch true s in
  match import_torchaudio ld with
  | Fails c msg => (Raise (Exn c msg), s)
  | Ok _ =>
  let s := bind_torchaudio true s in
  match import_faster_whisper ld with
  | Fails c msg => (Raise (Exn c msg), s)
  | Ok _ =>
  match import_resemble_enhance ld with
  | Fails c msg => (Raise (Exn c msg), s)
  | Ok _ =>
  let s := set_imported true (bind_classes true s) in
  match cuda_is_available ld with
  | Fails c msg => (Raise (Exn c msg), s)
  | Ok cuda =>
  let s := set_device (if cuda then u "cuda" else u "cpu") s in
  (* the inner [try]: any failure leaves the instance unbound *)
  if WhisperModel (handles s)
  then
    match WhisperModel_init ld (u "medium") (DEVICE s)
            (if bool_decide (DEVICE s = u "cpu")
             then u "int8" else u "float16") with
    | Ok _ => (Return tt, bind_instance true s)
    | Fails _ _ => (Return tt, bind_instance false s)
    end
  else (Return tt, bind_instance false s)
  end end end end end.

(** The module body: the state it leaves, or the exception the import of
    the module ends with. *)
Definition load_module (ld : loader) : outcome module_state :=
  match import_ollama ld with
  | Fails c msg => Raise (Exn c msg)
  | Ok _ =>
    match heavy_imports ld placeholders with
    | (Return _, s) => Return s
    | (Raise e, s) =>
      if isinstance e ImportError
      then Return (bind_instance false
                     (bind_classes false
                        (bind_torchaudio false (bind_torch false s))))
      else Raise e
    end
  end.

End AuditProcessing.

(* ===================================================================== *)
(** ** main.py: the batch endpoint                                        *)
(* ===================================================================== *)

Module Main.
Import Py Runtime AuditProcessing.
Local Open Scope py_scope.

Definition TEMP_UPLOADS_DIR : str := u "temp_uploads".

(** The pydantic response models. *)
Record AudioAuditResponse := {
  audio_file : str;
  transcription : option str;
  sentiment : option str;
  compliance_issues : option (list str);
  summary : option str;
  error : option str;
  status : option str
}.

Record ZipUploadResponse := {
  message : str;
  processed_files : list AudioAuditResponse;
  errors : list str
}.

Definition BadZipFile : exn_class := OtherError (u "BadZipFile").
Definition HTTPException : exn_class := OtherError (u "HTTPException").

(** What [ZipFile(path).extractall(dest)] does: it extracts, after which
    [os.walk(dest)] yields the given directories with the files in each;
    or the upload is not an archive; or something else goes wrong. *)
Inductive unzip_result :=
| Extracted (walk : list (str * list str))
| NotAZip
| UnzipFails (c : exn_class) (msg : str).

(** The web layer's own collaborators. *)
Record web := Web {
  (* open(path, "wb") and shutil.copyfileobj; is the file there after? *)
  store_upload : str -> cap_result unit * bool;
  unzip : str -> str -> unzip_result;
  (* AudioAuditResponse( **d ): pydantic validation of a result dict *)
  validate : pyval -> cap_result AudioAuditResponse
}.

Definition SUPPORTED_AUDIO_EXTENSIONS : list str :=
  [u ".wav"; u ".mp3"; u ".m4a"; u ".flac"; u ".ogg"; u ".aac"].

Section Endpoint.
Context {tensor : Type}.
Variable caps : capabilities tensor.
Variable g : globals.
Variable srv : web.

(** [uuid.uuid4().hex] *)
Definition uuid32 : M str :=
  emit (Invoke Uuid4) ;;
  fun w => (Return (uuid4_hex caps (rand w)),
            World (fs w) (log w) (S (rand w))).

Definition extractall (zip_path dest : str) : M (list (str * list str)) :=
  match unzip srv zip_path dest with
  | Extracted walk =>
    fun w =>
      (Return walk,
       World (fs w ∪ list_to_set
                       (flat_map (fun '(root, files) =>
                                    root :: map (join root) files) walk))
             (log w) (rand w))
  | NotAZip => raise (Exn BadZipFile (u "File is not a zip file"))
  | UnzipFails c msg => raise (Exn c msg)
  end.

(** The body of the inner loop for one directory entry. *)
Definition audit_item (root item_name : str)
    (results : list AudioAuditResponse) : M (list AudioAuditResponse) :=
  let item_path := join root item_name in
  let item_ext := lower (snd (splitext item_name)) in
  if bool_decide (item_ext ∈ SUPPORTED_AUDIO_EXTENSIONS)
  then
    try_except
      (analysis_result_dict <- perform_full_audio_audit caps g item_path ;;
       r <- lift (validate srv analysis_result_dict) ;;
       ret (results ++ [r]))
      [(Exception,
        fun e =>
          ret (results ++
                 [{| audio_file := item_name;
                     transcription := None; sentiment := None;
                     compliance_issues := None; summary := None;
                     error := Some (u "Failed to process audio file: "
                                    ++ str_of_exn e);
                     status := Some (u "FAILED") |}]))]
  else ret results.

Fixpoint audit_files (root : str) (files_in_dir : list str)
    (results : list AudioAuditResponse) : M (list AudioAuditResponse) :=
  match files_in_dir with
  | [] => ret results
  | item_name :: rest =>
    results' <- audit_item root item_name results ;;
    audit_files root rest results'
  end.

Fixpoint audit_walk (walk : list (str * list str))
    (results : list AudioAuditResponse) : M (list AudioAuditResponse) :=
  match walk with
  | [] => ret results
  | (root, files_in_dir) :: rest =>
    results' <- audit_files root files_in_dir results ;;
    audit_walk rest results'
  end.

(** The [finally] part: the saved archive and the extraction directory
    go, each if it exists. *)
Definition cleanup (temp_zip_path extraction_path : str) : M unit :=
  zip_there <- exists_ temp_zip_path ;;
  (if zip_there : bool
   then try_except (remove temp_zip_path) [(OSError, fun _ => ret tt)]
   else ret tt) ;;
  dir_there <- exists_ extraction_path ;;
  if dir_there : bool
  then try_except (rmtree extraction_path) [(OSError, fun _ => ret tt)]
  else ret tt.

(** The outer [try] block of [upload_zip]. *)
Definition process_archive (filename temp_zip_path extraction_path : str)
    : M ZipUploadResponse :=
  let '(stored, written) := store_upload srv temp_zip_path in
  leave_file written temp_zip_path ;;
  lift stored ;;
  makedirs extraction_path ;;
  (* the inner [try]: a bad archive ends the request here *)
  extraction <- try_except
                  (walk <- extractall temp_zip_path extraction_path ;;
                   ret (inl walk))
                  [(BadZipFile,
                    fun _ =>
                      ret (inr {| message := u "Error processing ZIP file.";
                                  processed_files := [];
                                  errors := [u "Uploaded file '" ++ filename ++ u "' is not a valid ZIP file or is corrupted."] |}))] ;;
  match extraction with
  | inr early => ret early
  | inl walk =>
    results <- audit_walk walk [] ;;
    (* [general_errors] is still empty here *)
    let general_errors :=
      if bool_decide (results = [])
      then [u "No supported audio files found in the ZIP archive."]
      else [] in
    ret {| message := if bool_decide (general_errors = [])
                      then u "ZIP file processed."
                      else u "ZIP file processed with errors.";
           processed_files := results;
           errors := general_errors |}
  end.

Definition upload_zip (filename : option str) : M ZipUploadResponse :=
  match filename with
  | None | Some [] =>
    raise (Exn HTTPException (u "400: No filename provided for the ZIP file."))
  | Some filename =>
    if negb (endswith filename (u ".zip"))
    then raise (Exn HTTPException (u "400: Invalid file type. Only .zip files are accepted."))
    else
    h <- uuid32 ;;
    let unique_zip_filename := h ++ u "_" ++ filename in
    let temp_zip_path := join TEMP_UPLOADS_DIR unique_zip_filename in
    h' <- uuid32 ;;
    let extraction_subdir_name := u "zip_extraction_" ++ h' in
    let extraction_path := join TEMP_UPLOADS_DIR extraction_subdir_name in
    finally
      (try_except
         (process_archive filename temp_zip_path extraction_path)
         [(HTTPException, fun e => raise e);
          (Exception,
           fun e =>
             (* nothing before the loop fills [results], and nothing in
                the loop escapes it *)
             ret {| message := u "Unexpected server error during ZIP processing.";
                    processed_files := [];
                    errors := [u "An unexpected server error occurred: "
                               ++ str_of_exn e] |})])
      (cleanup temp_zip_path extraction_path)
  end.

(** [analysis_result.get("status") == "FAILED" or "error" in
    analysis_result] *)
Definition reports_failure (analysis_result : pyval) : M bool :=
  match analysis_result with
  | PDict d =>
    ret (match dict_get d (u "status") with
         | Some (PStr s) => bool_decide (s = u "FAILED")
         | _ => false
         end
         || bool_decide (is_Some (dict_get d (u "error"))))
  | _ =>
    raise (Exn (OtherError (u "AttributeError"))
               (u "object has no attribute 'get'"))
  end.

(** The [finally] part of [upload_audio]. *)
Definition remove_saved (temp_file_path : str) : M unit :=
  there <- exists_ temp_file_path ;;
  if there : bool
  then try_except (remove temp_file_path) [(OSError, fun _ => ret tt)]
  else ret tt.

Definition upload_audio (filename : option str) : M AudioAuditResponse :=
  match filename with
  | None | Some [] =>
    raise (Exn HTTPException (u "400: No filename provided."))
  | Some filename =>
    if contains (u "..") filename || contains (u "/") filename
    then raise (Exn HTTPException (u "400: Invalid filename characters."))
    else
    let temp_file_path := join TEMP_UPLOADS_DIR filename in
    finally
      (try_except
         (let '(stored, written) := store_upload srv temp_file_path in
          leave_file written temp_file_path ;;
          lift stored ;;
          analysis_result <- perform_full_audio_audit caps g temp_file_path ;;
          reported <- reports_failure analysis_result ;;
          if reported : bool
          then lift (validate srv analysis_result)
          else lift (validate srv analysis_result))
         [(FileNotFoundError,
           fun _ =>
             raise (Exn HTTPException
                      (u "404: File not found during processing: "
                       ++ filename)));
          (ValueError,
           fun e =>
             raise (Exn HTTPException
                      (u "400: Invalid data or processing error: "
                       ++ str_of_exn e)));
          (Exception,
           fun e =>
             raise (Exn HTTPException
                      (u "500: An unexpected error occurred: "
                       ++ str_of_exn e)))])
      (remove_saved temp_file_path)
  end.

End Endpoint.
End Main.

(* ===================================================================== *)
(** ** A JSON decoder to run the pipeline on concrete responses           *)
(* ===================================================================== *)

(** The statements below hold for every [json_loads] oracle.  To run the
    pipeline on a concrete response an actual decoder is needed; this one
    follows the grammar of the standard decoder (white space, literals,
    numbers, strings with their escapes, arrays, objects, [NaN] and the
    infinities).  Two things are not reproduced: the text of the decoder's
    error message, and the value of a float, which is kept as its
    literal. *)
Module Json.
Import Py Runtime.

Definition is_ws (c : char) : bool :=
  (c =? 32) || (c =? 9) || (c =? 10) || (c =? 13).

Fixpoint skip_ws (s : str) : str :=
  match s with
  | c :: r => if is_ws c then skip_ws r else s
  | [] => []
  end.

Definition is_digit (c : char) : bool := (48 <=? c) && (c <=? 57).

Definition hex_value (c : char) : option N :=
  if is_digit c then Some (c - 48)
  else if (97 <=? c) && (c <=? 102) then Some (c - 87)
  else if (65 <=? c) && (c <=? 70) then Some (c - 55)
  else None.

(** The four hex digits after a backslash-u. *)
Definition hex4 (s : str) : option (N * str) :=
  match s with
  | a :: b :: c :: d :: r =>
    a ← hex_value a; b ← hex_value b; c ← hex_value c; d ← hex_value d;
    Some (a * 4096 + b * 256 + c * 16 + d, r)
  | _ => None
  end.

Definition simple_escape (c : char) : option char :=
  if c =? 34 then Some 34          (* quote *)
  else if c =? 92 then Some 92     (* backslash *)
  else if c =? 47 then Some 47     (* slash *)
  else if c =? 98 then Some 8      (* b *)
  else if c =? 102 then Some 12    (* f *)
  else if c =? 110 then Some 10    (* n *)
  else if c =? 114 then Some 13    (* r *)
  else if c =? 116 then Some 9     (* t *)
  else None.

(** The rest of a string after its opening quote: its characters and
    what follows the closing quote.  Each step drops at least one
    character, which the fuel counts. *)
Fixpoint scan_string (fuel : nat) (s : str) : option (str * str) :=
  match fuel with
  | O => None
  | S k =>
    match s with
    | [] => None
    | c :: r =>
      if c =? 34 then Some ([], r)
      else if c =? 92 then
        match r with
        | e :: r' =>
          if e =? 117 then
            '(hi, r1) ← hex4 r';
            match r1 with
            | b :: u' :: r2 =>
              if (55296 <=? hi) && (hi <=? 56319) && (b =? 92) && (u' =? 117)
              then
                match hex4 r2 with
                | Some (lo, r3) =>
                  if (56320 <=? lo) && (lo <=? 57343)
                  then '(t, rest) ← scan_string k r3;
                       Some (65536 + (hi - 55296) * 1024 + (lo - 56320) :: t,
                             rest)
                  else '(t, rest) ← scan_string k r1; Some (hi :: t, rest)
                | None => None
                end
              else '(t, rest) ← scan_string k r1; Some (hi :: t, rest)
            | _ => '(t, rest) ← scan_string k r1; Some (hi :: t, rest)
            end
          else
            x ← simple_escape e;
            '(t, rest) ← scan_string k r';
            Some (x :: t, rest)
        | [] => None
        end
      else if c <? 32 then None
      else '(t, rest) ← scan_string k r; Some (c :: t, rest)
    end
  end.

Fixpoint span_digits (s : str) : str * str :=
  match s with
  | c :: r => if is_digit c
              then let '(ds, rest) := span_digits r in (c :: ds, rest)
              else ([], s)
  | [] => ([], [])
  end.

Definition digits_value (ds : str) : Z :=
  fold_left (fun acc c => (acc * 10 + Z.of_N (c - 48))%Z) ds 0%Z.

(** An optional minus sign; a zero or a run of digits that does not start
    with zero; optionally a point and digits; optionally an exponent. *)
Definition scan_number (s : str) : option (pyval * str) :=
  let '(sign, s1) := match s with
                     | c :: r => if c =? 45 then ([c], r) else ([], s)
                     | [] => ([], s)
                     end in
  match s1 with
  | c :: r =>
    if is_digit c then
      let '(int, s2) := if c =? 48 then ([c], r) else span_digits s1 in
      let '(frac, s3) :=
        match s2 with
        | p :: r2 => if p =? 46
                     then match span_digits r2 with
                          | ([], _) => ([], s2)
                          | (ds, rest) => (p :: ds, rest)
                          end
                     else ([], s2)
        | [] => ([], s2)
        end in
      let '(exp, s4) :=
        match s3 with
        | e :: r3 =>
          if (e =? 101) || (e =? 69) then
            let '(sg, r4) := match r3 with
                             | x :: r' => if (x =? 43) || (x =? 45)
                                          then ([x], r') else ([], r3)
                             | [] => ([], r3)
                             end in
            match span_digits r4 with
            | ([], _) => ([], s3)
            | (ds, rest) => (e :: sg ++ ds, rest)
            end
          else ([], s3)
        | [] => ([], s3)
        end in
      match frac, exp with
      | [], [] => Some (PInt (if sign is [] then digits_value int
                              else - digits_value int)%Z, s4)
      | _, _ => Some (PFloat (sign ++ int ++ frac ++ exp), s4)
      end
    else None
  | [] => None
  end.

Definition literal (word : string) (v : pyval) (s : str)
    : option (pyval * str) :=
  let w := u word in
  if bool_decide (take (length w) s = w)
  then Some (v, drop (length w) s) else None.

Inductive mode :=
| Value
| Elements (acc : list pyval)
| Members (acc : dict).

Fixpoint parse (fuel : nat) (m : mode) (s : str) : option (pyval * str) :=
  match fuel with
  | O => None
  | S k =>
    match m with
    | Value =>
      match s with
      | [] => None
      | c :: r =>
        if c =? 34 then
          '(t, rest) ← scan_string (S (length r)) r; Some (PStr t, rest)
        else if c =? 123 then
          match skip_ws r with
          | c' :: r' => if c' =? 125 then Some (PDict [], r')
                        else parse k (Members []) (c' :: r')
          | [] => None
          end
        else if c =? 91 then
          match skip_ws r with
          | c' :: r' => if c' =? 93 then Some (PList [], r')
                        else parse k (Elements []) (c' :: r')
          | [] => None
          end
        else if c =? 110 then literal "null" PNone s
        else if c =? 116 then literal "true" (PBool true) s
        else if c =? 102 then literal "false" (PBool false) s
        else if c =? 78 then literal "NaN" (PFloat (u "NaN")) s
        else if c =? 73 then literal "Infinity" (PFloat (u "Infinity")) s
        else
          match scan_number s with
          | Some r => Some r
          | None => literal "-Infinity" (PFloat (u "-Infinity")) s
          end
      end
    | Elements acc =>
      '(v, r1) ← parse k Value s;
      match skip_ws r1 with
      | c :: r2 =>
        if c =? 93 then Some (PList (acc ++ [v]), r2)
        else if c =? 44 then parse k (Elements (acc ++ [v])) (skip_ws r2)
        else None
      | [] => None
      end
    | Members acc =>
      match s with
      | q :: r =>
        if q =? 34 then
          '(key, r1) ← scan_string (S (length r)) r;
          match skip_ws r1 with
          | c :: r2 =>
            if c =? 58 then
              '(v, r3) ← parse k Value (skip_ws r2);
              match skip_ws r3 with
              | c' :: r4 =>
                if c' =? 125 then Some (PDict (dict_set acc key v), r4)
                else if c' =? 44
                     then parse k (Members (dict_set acc key v)) (skip_ws r4)
                else None
              | [] => None
              end
            else None
          | [] => None
          end
        else None
      | [] => None
      end
    end
  end.

(** [json.loads(s)]: one value, white space around it, nothing else. *)
Definition loads (s : str) : cap_result pyval :=
  match parse (S (2 * length s)) Value (skip_ws s) with
  | Some (v, rest) =>
    match skip_ws rest with
    | [] => Ok v
    | _ => Fails JSONDecodeError (u "Extra data")
    end
  | None => Fails JSONDecodeError (u "Expecting value")
  end.

End Json.

(* ===================================================================== *)
(** ** Vocabulary of the statements                                       *)
(* ===================================================================== *)

Module Spec.
Import Py Runtime AuditProcessing Main.

Section Vocabulary.
Context {tensor : Type}.
Variable caps : capabilities tensor.

(** The directory an invocation started in world [w] works in. *)
Definition temp_dir_of (w : world) : str :=
  join (tmp_root caps) (u "audio_audit_" ++ mkdtemp_name caps (rand w)).

(** The world in which the [try] block of that invocation starts. *)
Definition inside (w : world) : world :=
  World (fs w ∪ {[temp_dir_of w]})
        ((log w ++ [Enter PerformFullAudioAudit])
         ++ [Syscall Mkdtemp (temp_dir_of w)])
        (S (rand w)).

(** The world once [ev] is logged. *)
Definition after (ev : event) (w : world) : world :=
  World (fs w) (log w ++ [ev]) (rand w).

(** [mkdtemp] creates a directory that was not there. *)
Definition fresh (d : str) (w : world) : Prop := ∀ p, under d p → p ∉ fs w.

(** The name [preprocess_audio], entered in world [w], gives its
    conversion file. *)
Definition conversion_path (input output_dir : str) (w : world) : str :=
  join output_dir
    (fst (splitext (basename input)) ++ u "_temp_conversion_"
     ++ take 8 (uuid4_hex caps (S (rand w))) ++ u ".wav").

Definition needs_conversion (input : str) : Prop :=
  lower (snd (splitext (basename input))) ≠ u ".wav".

(** Where [upload_zip], entered in world [w], saves the archive and
    extracts it. *)
Definition zip_path (filename : str) (w : world) : str :=
  join TEMP_UPLOADS_DIR (uuid4_hex caps (rand w) ++ u "_" ++ filename).

Definition extraction_path (w : world) : str :=
  join TEMP_UPLOADS_DIR (u "zip_extraction_" ++ uuid4_hex caps (S (rand w))).

End Vocabulary.

(** The capability guard of [perform_full_audio_audit]. *)
Definition available (g : globals) : bool :=
  _heavy_libs_successfully_imported g && WHISPER_MODEL_INSTANCE g.

(** The guards of [transcribe_audio] and of [preprocess_audio]. *)
Definition can_transcribe (g : globals) : bool :=
  _heavy_libs_successfully_imported g && WhisperModel g
  && WHISPER_MODEL_INSTANCE g.

Definition can_preprocess (g : globals) : bool :=
  _heavy_libs_successfully_imported g && torch g && torchaudio g
  && denoise_func g && enhance_func g.

(** The failure categories of the audit record. *)
Inductive category :=
| MissingInput | InvalidValue | ToolFailure | CapabilityUnavailable
| Unexpected.

Definition category_of (e : exn) : category :=
  if isinstance e FileNotFoundError then MissingInput
  else if isinstance e ValueError then InvalidValue
  else if isinstance e CalledProcessErrorClass then ToolFailure
  else if isinstance e ImportError then CapabilityUnavailable
  else Unexpected.

(** The text each category is reported with; all but the first are
    followed by a detail. *)
Definition label (c : category) : str :=
  match c with
  | MissingInput => u "Input audio file not found."
  | InvalidValue => u "Processing error: "
  | ToolFailure => u "Audio conversion failed: "
  | CapabilityUnavailable => u "Import error during processing: "
  | Unexpected => u "An unexpected error occurred: "
  end.

(** An exception whose captured output, if any, is valid UTF-8. *)
Definition decodable (e : exn) : Prop :=
  match stderr_of e with
  | Some (b :: bs) => is_Some (utf8_decode (b :: bs))
  | _ => True
  end.

(** The text of the [response] entry when the shape test of
    [analyze_text] lets the response through. *)
Definition response_text (r : response) : option str :=
  match r with
  | RespDict d =>
    match dict_get d (u "response") with
    | Some (PStr s) => Some s
    | _ => None
    end
  | RespObject (Ok true) (Ok (PStr s)) _ => Some s
  | RespObject _ _ _ => None
  end.


(** The fallback results: exactly the keys [sentiment],
    [compliance_issues] and [summary], the unknown marker, one issue. *)
Definition is_fallback (v : pyval) : Prop :=
  ∃ issue summary, v = analysis (u "未知") [issue] summary.

(** A transcript that is empty or consists of white space. *)
Definition blank (t : str) : bool := forallb is_space t.

(** A directory entry the batch endpoint does not audit. *)
Definition unsupported (item_name : str) : Prop :=
  lower (snd (splitext item_name)) ∉ SUPPORTED_AUDIO_EXTENSIONS.

(** The exception a read of the unbound local [response] raises. *)
Definition unbound_response : exn :=
  Exn UnboundLocalError (u "cannot access local variable 'response' where it is not associated with a value").

(** The record of an audit whose transcript is blank. *)
Definition empty_record (audio_file_path : str) : pyval :=
  PDict [(u "audio_file", PStr (basename audio_file_path));
         (u "transcription", PStr []);
         (u "sentiment", PStr (u "未知"));
         (u "compliance_issues", PList [PStr (u "Empty transcription")]);
         (u "summary", PStr (u "音频转录结果为空，无法进行分析。"))].

(** The answer of the batch endpoint to an archive without audio. *)
Definition no_audio_response : ZipUploadResponse :=
  {| message := u "ZIP file processed with errors.";
     processed_files := [];
     errors := [u "No supported audio files found in the ZIP archive."] |}.

(** How often function [f] was entered. *)
Definition invocations (f : function) (l : list event) : nat :=
  length (filter (λ ev, ev = Enter f) l).

(** What follows the label in the error text of a failure. *)
Definition detail (e : exn) : str :=
  match category_of e with
  | MissingInput => []
  | ToolFailure =>
    match stderr_of e with
    | Some (b :: bs) => default [] (utf8_decode (b :: bs))
    | _ => str_of_exn e
    end
  | _ => str_of_exn e
  end.

(** The audit record of a failure. *)
Definition report (audio_file_path : str) (e : exn) : pyval :=
  failed audio_file_path (label (category_of e) ++ detail e).

(** *** Invariants of a computation *)

(** [c] relates the world it starts in to the world it leaves by [I],
    raises only exceptions in [E] and returns only values in [Q]. *)
Definition keeps {A} (I : world → world → Prop) (E : exn → Prop)
    (Q : A → Prop) (c : M A) : Prop :=
  ∀ w, I w (snd (c w))
       ∧ (∀ e, fst (c w) = Raise e → E e)
       ∧ (∀ a, fst (c w) = Return a → Q a).

(** A file name that [os.path.join] appends to the directory. *)
Definition plain (b : str) : Prop := b ≠ [] ∧ head b ≠ Some slash.

(** The events of the stages before the analysis. *)
Definition preparatory (ev : event) : Prop :=
  ev ≠ Enter AnalyzeText ∧ ev ≠ Invoke OllamaGenerate
  ∧ ev ≠ Invoke JsonLoads ∧ ev ≠ Enter PerformFullAudioAudit.

(** With [d] in place, only paths below [d] come and go. *)
Definition confined (d : str) (w w' : world) : Prop :=
  d ∈ fs w → d ∈ fs w' ∧ ∀ p, ¬ under d p → (p ∈ fs w' ↔ p ∈ fs w).

(** The log grows by events in [P]. *)
Definition logs (P : event → Prop) (w w' : world) : Prop :=
  ∃ evs, log w' = log w ++ evs ∧ Forall P evs.

Definition stage (d : str) (w w' : world) : Prop :=
  confined d w w' ∧ logs preparatory w w'.

(** How often capability [c] was called. *)
Definition calls (c : capability) (l : list event) : nat :=
  length (filter (λ ev, ev = Invoke c) l).

(** A directory entry the batch endpoint audits, and how many of them a
    walk holds. *)
Definition supported (item_name : str) : bool :=
  bool_decide (lower (snd (splitext item_name)) ∈ SUPPORTED_AUDIO_EXTENSIONS).

Definition audited (walk : list (str * list str)) : nat :=
  length (filter (λ item_name, supported item_name = true)
            (flat_map snd walk)).

(** The entry the batch endpoint makes for a file whose audit raised. *)
Definition failure_entry (item_name : str) (e : exn) : AudioAuditResponse :=
  {| audio_file := item_name;
     transcription := None; sentiment := None;
     compliance_issues := None; summary := None;
     error := Some (u "Failed to process audio file: " ++ str_of_exn e);
     status := Some (u "FAILED") |}.

(** Where [upload_audio] saves the upload, and the world once the upload
    is written there. *)
Definition upload_path (filename : str) : str :=
  join TEMP_UPLOADS_DIR filename.

Definition saved (written : bool) (p : str) (w : world) : world :=
  if written then World (fs w ∪ {[p]}) (log w) (rand w) else w.

(** The HTTP errors of [upload_audio]; [str(e)] of an [HTTPException] is
    the status code, a colon and the detail. *)
Definition http_error (e : exn) : Prop :=
  class_of e = HTTPException
  ∧ (u "400: " `prefix_of` str_of_exn e
     ∨ u "404: " `prefix_of` str_of_exn e
     ∨ u "500: " `prefix_of` str_of_exn e).

(** The HTTP error [upload_audio] makes of an exception of its [try]
    block. *)
Definition http_error_of (filename : str) (e : exn) : exn :=
  Exn HTTPException
    (if isinstance e FileNotFoundError
     then u "404: File not found during processing: " ++ filename
     else if isinstance e ValueError
     then u "400: Invalid data or processing error: " ++ str_of_exn e
     else u "500: An unexpected error occurred: " ++ str_of_exn e).

(** The world in which [upload_zip], entered in world [w], starts to walk
    the extracted archive: two names are drawn, the archive is saved, the
    extraction directory is made and the entries of [walk] are on disk. *)
Definition unpacked {tensor} (caps : capabilities tensor) (srv : web)
    (filename : str) (walk : list (str * list str)) (w : world) : world :=
  let zip := zip_path caps filename w in
  let drawn := World (fs w) ((log w ++ [Invoke Uuid4]) ++ [Invoke Uuid4])
                     (S (S (rand w))) in
  let made := snd (makedirs (extraction_path caps w)
                     (saved (snd (store_upload srv zip)) zip drawn)) in
  World (fs made ∪ list_to_set
                     (flat_map (fun '(root, files) =>
                                  root :: map (join root) files) walk))
        (log made) (rand made).

End Spec.

(* ===================================================================== *)
(** ** Concrete runs                                                      *)
(* ===================================================================== *)

Module Scenario.
Import Py Runtime AuditProcessing Main.

Definition all_loaded : globals :=
  Globals true true true true true true true true.

(** The heavy imports failed at load time. *)
Definition nothing_loaded : globals :=
  Globals false false false false false false false true.

(** Every tool succeeds, the recogniser yields [segments], and the
    language model service answers [reply]. *)
Definition studio (segments : list str) (reply : cap_result response)
    : capabilities unit :=
  {| tmp_root := u "/tmp";
     mkdtemp_name := fun _ => u "k8s0w2ab";
     uuid4_hex := fun n => N.of_nat (48 + n mod 10) :: u "f1c2e3a4b5d6f708192a3b4c5d6e7f8";
     ffmpeg := fun _ _ => (Completed, true);
     torchaudio_load := fun _ => Ok (tt, 16000%Z);
     tensor_mean := fun t => Ok t;
     denoise := fun t sr => Ok (t, sr);
     enhance := fun t _ => Ok (t, 44100%Z);
     almost_silent := fun _ => Ok false;
     torchaudio_save := fun _ _ _ => (Ok tt, true);
     whisper_transcribe := fun _ =>
       Ok {| segment_texts := Ok segments;
             language_line := Ok (u "Detected language: zh, probability: 0.98") |};
     ollama_generate := fun _ _ => reply;
     json_loads := Json.loads;
     repr_of := fun _ => u "<value>" |}.

(** The service answers with a dict whose [response] entry is [text]. *)
Definition answers (text : str) : cap_result response :=
  Ok (RespDict [(u "model", PStr OLLAMA_MODEL_NAME);
                (u "response", PStr text);
                (u "done", PBool true)]).

Definition call_mp3 : str := u "/data/call.mp3".

(** A disk that holds the recording and nothing else. *)
Definition disk : world := World {[ call_mp3 ]} [] 0.

Definition greeting : list str := [u "您好，"; u "请问有什么可以帮您？"].

(** An upload service that stores the archive and finds the files
    [names] at its top level. *)
Definition archive (names : list str) : web :=
  {| store_upload := fun _ => (Ok tt, true);
     unzip := fun _ dest => Extracted [(dest, names)];
     validate := fun _ => Fails (OtherError (u "ValidationError")) (u "1 validation error for AudioAuditResponse") |}.

(** The studio with a converter that ends as [r] and writes nothing. *)
Definition converter (r : run_result) : capabilities unit :=
  let c := studio greeting (answers (u "{}")) in
  {| tmp_root := tmp_root c;
     mkdtemp_name := mkdtemp_name c;
     uuid4_hex := uuid4_hex c;
     ffmpeg := fun _ _ => (r, false);
     torchaudio_load := torchaudio_load c;
     tensor_mean := tensor_mean c;
     denoise := denoise c;
     enhance := enhance c;
     almost_silent := almost_silent c;
     torchaudio_save := torchaudio_save c;
     whisper_transcribe := whisper_transcribe c;
     ollama_generate := ollama_generate c;
     json_loads := json_loads c;
     repr_of := repr_of c |}.

(** A validation of audit records that accepts the well-typed ones:
    [audio_file] a string, every other field absent, [None] or of its
    declared type; further keys are ignored. *)
Definition optional_str (d : dict) (k : str) : option (option str) :=
  match dict_get d k with
  | None | Some PNone => Some None
  | Some (PStr s) => Some (Some s)
  | Some _ => None
  end.

Definition optional_strs (d : dict) (k : str) : option (option (list str)) :=
  match dict_get d k with
  | None | Some PNone => Some None
  | Some (PList l) =>
    Some <$> mapM (fun v => match v with PStr s => Some s | _ => None end) l
  | Some _ => None
  end.

Definition well_typed (v : pyval) : cap_result AudioAuditResponse :=
  match v with
  | PDict d =>
    match dict_get d (u "audio_file") with
    | Some (PStr name) =>
      match optional_str d (u "transcription"), optional_str d (u "sentiment"),
            optional_strs d (u "compliance_issues"),
            optional_str d (u "summary"), optional_str d (u "error"),
            optional_str d (u "status") with
      | Some t, Some s, Some c, Some m, Some e, Some st =>
        Ok {| audio_file := name; transcription := t; sentiment := s;
              compliance_issues := c; summary := m; error := e;
              status := st |}
      | _, _, _, _, _, _ =>
        Fails ValueError (u "1 validation error for AudioAuditResponse")
      end
    | _ => Fails ValueError (u "1 validation error for AudioAuditResponse")
    end
  | _ => Fails TypeError (u "argument after ** must be a mapping")
  end.

(** An upload service that stores what it is sent, finds in the archive
    what [content] says, and validates records as above. *)
Definition service (content : str -> unzip_result) : web :=
  {| store_upload := fun _ => (Ok tt, true);
     unzip := fun _ dest => content dest;
     validate := well_typed |}.

(** The same service on a disk it cannot write to. *)
Definition read_only : web :=
  {| store_upload := fun _ =>
       (Fails OSError (u "[Errno 30] Read-only file system"), false);
     unzip := fun _ _ => NotAZip;
     validate := well_typed |}.

(** A loader for which every import and both calls succeed, on a machine
    without CUDA. *)
Definition complete_install : loader :=
  {| import_ollama := Ok tt;
     import_torch := Ok tt;
     import_torchaudio := Ok tt;
     import_faster_whisper := Ok tt;
     import_resemble_enhance := Ok tt;
     cuda_is_available := Ok false;
     WhisperModel_init := fun _ _ _ => Ok tt |}.

(** The same without [resemble_enhance]. *)
Definition without_enhancer : loader :=
  {| import_ollama := Ok tt;
     import_torch := Ok tt;
     import_torchaudio := Ok tt;
     import_faster_whisper := Ok tt;
     import_resemble_enhance :=
       Fails ModuleNotFoundError (u "No module named 'resemble_enhance'");
     cuda_is_available := Ok false;
     WhisperModel_init := fun _ _ _ => Ok tt |}.

(** The studio with a [torchaudio.save] that writes its file and then
    raises, as when the disk fills up while the header is rewritten. *)
Definition interrupted_save : capabilities unit :=
  let c := studio greeting (answers (u "{}")) in
  {| tmp_root := tmp_root c;
     mkdtemp_name := mkdtemp_name c;
     uuid4_hex := uuid4_hex c;
     ffmpeg := ffmpeg c;
     torchaudio_load := torchaudio_load c;
     tensor_mean := tensor_mean c;
     denoise := denoise c;
     enhance := enhance c;
     almost_silent := almost_silent c;
     torchaudio_save := fun _ _ _ =>
       (Fails OSError (u "[Errno 28] No space left on device"), true);
     whisper_transcribe := whisper_transcribe c;
     ollama_generate := ollama_generate c;
     json_loads := json_loads c;
     repr_of := repr_of c |}.

End Scenario.

(* ===================================================================== *)
(** ** Proofs                                                             *)
(* ===================================================================== *)

Import Py Runtime AuditProcessing Main Spec.
Local Close Scope N_scope.
Local Open Scope py_scope.
#[local] Set Warnings "-clear-no-such-hyp".

(** *** Composition rules for [keeps] *)

Section Invariants.
Variable I : world -> world -> Prop.
Hypothesis I_refl : ∀ w, I w w.
Hypothesis I_trans : ∀ w1 w2 w3, I w1 w2 → I w2 w3 → I w1 w3.


Lemma keeps_ret {A} E (Q : A → Prop) (a : A) : Q a → keeps I E Q (ret a).
Proof.
  intros Ha w; split; [apply I_refl|]. split; [discriminate|].
  by intros ? [= <-].
Qed.

Lemma keeps_raise {A} (E : exn → Prop) (Q : A → Prop) e :
  E e → keeps I E Q (raise e).
Proof.
  intros He w; split; [apply I_refl|]. split; [|discriminate].
  by intros ? [= <-].
Qed.

Lemma keeps_bind {A B} E (Q' : A → Prop) (Q : B → Prop) (c : M A)
    (k : A → M B) :
  keeps I E Q' c → (∀ a, Q' a → keeps I E Q (k a)) → keeps I E Q (bind c k).
Proof.
  intros Hc Hk w. unfold bind.
  destruct (Hc w) as (Hw & He & Ha). destruct (c w) as [[a|e] w']; simpl in *.
  - destruct (Hk a (Ha a eq_refl) w') as (Hw' & He' & Ha').
    split; [by eapply I_trans | done].
  - split; [done|]. split; [intros ? [= <-]; auto | discriminate].
Qed.

Lemma keeps_try_except {A} (E' E : exn → Prop) (Q : A → Prop) (c : M A)
    clauses :
  keeps I E' Q c →
  (∀ e, E' e → match select_clause clauses e with
                | Some h => keeps I E Q h
                | None => E e
                end) →
  keeps I E Q (try_except c clauses).
Proof.
  intros Hc Hh w. unfold try_except.
  destruct (Hc w) as (Hw & He & Ha). destruct (c w) as [[a|e] w']; simpl in *.
  - split; [done|]. split; [discriminate | done].
  - specialize (Hh e (He e eq_refl)).
    destruct (select_clause clauses e) as [h|].
    + destruct (Hh w') as (Hw' & He' & Ha'). split; [by eapply I_trans | done].
    + split; [done|]. split; [by intros ? [= <-] | discriminate].
Qed.

Lemma keeps_finally {A} E (Q : A → Prop) (c : M A) (f : M unit) :
  keeps I E Q c → keeps I E (λ _, True) f → keeps I E Q (finally c f).
Proof.
  intros Hc Hf w. unfold finally.
  destruct (Hc w) as (Hw & He & Ha). destruct (c w) as [r w']; simpl in *.
  destruct (Hf w') as (Hw' & He' & _).
  destruct (f w') as [[[]|e] w'']; simpl in *.
  - split; [by eapply I_trans | done].
  - split; [by eapply I_trans|]. split; [|discriminate].
    intros ? [= <-]. auto.
Qed.

Lemma keeps_attempt {A B} (E' E : exn → Prop) (Q' : A → Prop)
    (Q : B → Prop) (c : M A) (k : outcome A → M B) :
  keeps I E' Q' c →
  (∀ r, (∀ e, r = Raise e → E' e) → (∀ a, r = Return a → Q' a) →
        keeps I E Q (k r)) →
  keeps I E Q (bind (attempt c) k).
Proof.
  intros Hc Hk w. unfold bind, attempt.
  destruct (Hc w) as (Hw & He & Ha). destruct (c w) as [r w']; simpl in *.
  destruct (Hk r He Ha w') as (Hw' & He'' & Ha'').
  split; [by eapply I_trans | done].
Qed.

Lemma keeps_resume {A} (E : exn → Prop) (Q : A → Prop) (r : outcome A) :
  (∀ e, r = Raise e → E e) → (∀ a, r = Return a → Q a) →
  keeps I E Q (resume r).
Proof.
  intros Hr Ha. destruct r; [apply keeps_ret | apply keeps_raise]; auto.
Qed.

Lemma keeps_lift {A} (E : exn → Prop) (r : cap_result A) :
  (∀ c msg, E (Exn c msg)) → keeps I E (λ _, True) (lift r).
Proof.
  intros HE. destruct r; [by apply keeps_ret | apply keeps_raise; auto].
Qed.

End Invariants.

(** *** Paths *)
Lemma basename_no_slash p : slash ∉ basename p.
Proof.
  induction p as [|c r IH]; simpl; [apply not_elem_of_nil|].
  destruct (bool_decide (slash ∈ r)) eqn:Hr; [done|].
  apply bool_decide_eq_false in Hr.
  destruct (bool_decide (c = slash)) eqn:Hc; [done|].
  apply bool_decide_eq_false in Hc. set_solver.
Qed.

Lemma basename_id p : slash ∉ p → basename p = p.
Proof.
  destruct p as [|c r]; simpl; [done|]. intros H.
  apply not_elem_of_cons in H as [Hc Hr].
  rewrite bool_decide_eq_false_2 by done.
  rewrite bool_decide_eq_false_2 by done. done.
Qed.

Lemma split_at_last_dot_app p root ext :
  split_at_last_dot p = Some (root, ext) → p = root ++ ext.
Proof.
  revert root ext. induction p as [|c r IH]; simpl; intros root ext H; [done|].
  destruct (split_at_last_dot r) as [[root' ext']|].
  - injection H as <- <-. simpl. f_equal. by apply IH.
  - case_bool_decide; [|done]. by injection H as <- <-.
Qed.

Lemma splitext_name_prefix n : fst (splitext_name n) `prefix_of` n.
Proof.
  unfold splitext_name.
  destruct (split_at_last_dot n) as [[root ext]|] eqn:H; [|done].
  destruct (all_dots root); [done|]. simpl.
  apply split_at_last_dot_app in H. subst. by apply prefix_app_r.
Qed.

Lemma splitext_basename_no_slash a : slash ∉ fst (splitext (basename a)).
Proof.
  unfold splitext.
  rewrite (basename_id (basename a)) by apply basename_no_slash.
  rewrite Nat.sub_diag. simpl.
  pose proof (splitext_name_prefix (basename a)) as [k Hk].
  pose proof (basename_no_slash a) as Hn.
  destruct (splitext_name (basename a)) as [root ext]. simpl in *.
  rewrite Hk in Hn. set_solver.
Qed.


Lemma plain_stem a tag rest :
  tag ≠ [] → head tag ≠ Some slash →
  plain (fst (splitext (basename a)) ++ tag ++ rest).
Proof.
  intros Ht Hh. pose proof (splitext_basename_no_slash a) as Hs.
  destruct (fst (splitext (basename a))) as [|c r]; simpl.
  - destruct tag; [done|]. split; [done|]. done.
  - split; [done|]. simpl. intros [= ->]. set_solver.
Qed.

Lemma join_plain d b :
  d ≠ [] → plain b → join d b = dir_prefix d ++ b.
Proof.
  intros Hd [Hb Hh]. destruct b as [|c r]; [done|]. simpl in *.
  unfold join, dir_prefix.
  rewrite bool_decide_eq_false_2 by (intros ->; done).
  rewrite (bool_decide_eq_false_2 (d = [])) by done. simpl.
  destruct (ends_with_slash d); [done|]. by rewrite <- app_assoc.
Qed.

Lemma under_join d b : d ≠ [] → plain b → under d (join d b) ∧ join d b ≠ d.
Proof.
  intros Hd Hb. rewrite join_plain by done. split.
  - right. by apply prefix_app_r.
  - unfold dir_prefix. destruct Hb as [Hb _]. intros H.
    apply (f_equal length) in H. destruct (ends_with_slash d);
      rewrite ?length_app in H; destruct b; simpl in *; try done; lia.
Qed.

#[local] Arguments isinstance : simpl never.
#[local] Arguments basename : simpl never.
#[local] Arguments splitext : simpl never.
#[local] Arguments join : simpl never.
#[local] Arguments strip : simpl never.
#[local] Arguments utf8_decode : simpl never.

(** *** The invariant of the stages before the analysis *)




Lemma stage_refl d w : stage d w w.
Proof.
  split; [by intros ? | exists []; by rewrite app_nil_r].
Qed.

Lemma stage_trans d w1 w2 w3 : stage d w1 w2 → stage d w2 w3 → stage d w1 w3.
Proof.
  intros [C1 [e1 [L1 F1]]] [C2 [e2 [L2 F2]]]. split.
  - intros H1. destruct (C1 H1) as [H2 K1]. destruct (C2 H2) as [H3 K2].
    split; [done|]. intros p Hp. rewrite K2, K1; done.
  - exists (e1 ++ e2). rewrite L2, L1, app_assoc. split; [done|].
    by apply Forall_app.
Qed.

Section Stage.
Context {tensor : Type}.
Variable caps : capabilities tensor.
Variable g : globals.
Variable d : str.
Hypothesis d_nonempty : d ≠ [].

Local Abbreviation keeps' := (keeps (stage d)).
Local Abbreviation any := (λ _, True).

Lemma keeps_emit E ev : preparatory ev → keeps' E any (emit ev).
Proof.
  intros P w. split; [|done]. simpl.
  split; [by intros ? | exists [ev]; split; [done | by constructor]].
Qed.

Lemma keeps_call {A} (E : exn → Prop) c (r : cap_result A) :
  preparatory (Invoke c) → (∀ c msg, E (Exn c msg)) → keeps' E any (call c r).
Proof.
  intros P HE.
  eapply keeps_bind; [apply stage_trans | by apply keeps_emit |].
  intros _ _. by apply keeps_lift; [apply stage_refl|].
Qed.

Lemma keeps_exists E p : keeps' E any (exists_ p).
Proof.
  eapply keeps_bind;
    [apply stage_trans | apply keeps_emit; by repeat split |].
  intros _ _ w. split; [apply stage_refl | done].
Qed.

Lemma keeps_uuid8 E : keeps' E any (uuid8 caps).
Proof.
  eapply keeps_bind;
    [apply stage_trans | apply keeps_emit; by repeat split |].
  intros _ _ w. split; [|done]. simpl.
  split; [by intros ? | exists []; by rewrite app_nil_r].
Qed.

Lemma keeps_makedirs E : keeps' E any (makedirs d).
Proof.
  eapply keeps_bind;
    [apply stage_trans | apply keeps_emit; by repeat split |].
  intros _ _ w. split; [|by case_bool_decide].
  case_bool_decide; simpl; [apply stage_refl|].
  split; [by intros ? | exists []; by rewrite app_nil_r].
Qed.

Lemma keeps_leave_file E written p :
  under d p → keeps' E any (leave_file written p).
Proof.
  intros Hp w. split; [|done]. simpl.
  destruct written; [|apply stage_refl]. split.
  - intros Hd. simpl. split; [set_solver|]. intros q Hq.
    assert (q ≠ p) by (intros ->; done). set_solver.
  - exists []; by rewrite app_nil_r.
Qed.

Lemma keeps_remove p :
  under d p → p ≠ d →
  keeps' (λ e, isinstance e OSError = true) any (remove p).
Proof.
  intros Hp Hne.
  eapply keeps_bind;
    [apply stage_trans | apply keeps_emit; by repeat split |].
  intros _ _ w. case_bool_decide; simpl.
  - split; [|done]. split.
    + intros Hd. simpl. split; [set_solver|]. intros q Hq.
      assert (q ≠ p) by (intros ->; done). set_solver.
    + exists []; by rewrite app_nil_r.
  - split; [apply stage_refl|]. split; [by intros ? [= <-] | done].
Qed.

Lemma keeps_remove_if_present E f :
  (∀ p, f = Some p → under d p ∧ p ≠ d) →
  keeps' E any (remove_if_present f).
Proof.
  intros Hf. destruct f as [p|]; simpl; [|by apply keeps_ret; [apply stage_refl|]].
  destruct (Hf p eq_refl) as [Hp Hne].
  destruct (nonempty p); [|by apply keeps_ret; [apply stage_refl|]].
  eapply keeps_bind; [apply stage_trans | apply keeps_exists |].
  intros [|] _; [|by apply keeps_ret; [apply stage_refl|]].
  eapply keeps_try_except; [apply stage_trans | by apply keeps_remove |].
  intros e He. simpl. rewrite He. by apply keeps_ret; [apply stage_refl|].
Qed.

Lemma decodable_Exn c msg : decodable (Exn c msg).
Proof. done. Qed.

Lemma stderr_text_cases e w :
  (∃ s, stderr_text e w = (Return s, w) ∧ decodable e)
  ∨ (∃ msg, stderr_text e w = (Raise (Exn UnicodeDecodeError msg), w)).
Proof.
  unfold stderr_text, decodable.
  destruct (stderr_of e) as [[|b bs]|]; try (left; by eauto).
  unfold decode. destruct (utf8_decode (b :: bs)) as [s|].
  - left. eauto.
  - right. eauto.
Qed.

Lemma keeps_report_and_reraise {A} (Q : A → Prop) e :
  keeps' decodable Q (bind (stderr_text e) (λ _, raise e)).
Proof.
  intros w. unfold bind.
  destruct (stderr_text_cases e w) as [(s & -> & D) | (msg & ->)]; simpl.
  - split; [apply stage_refl|]. split; [by intros ? [= <-] | done].
  - split; [apply stage_refl|]. split; [by intros ? [= <-] | done].
Qed.

Lemma decodable_other e :
  isinstance e CalledProcessErrorClass = false → decodable e.
Proof. by destruct e. Qed.

Ltac stage_step :=
  lazymatch goal with
  | |- keeps _ _ _ (bind (attempt _) _) => fail
  | |- keeps _ _ _ (bind (if _ then _ else _) _) => fail
  | |- keeps _ _ _ (bind _ _) =>
    eapply keeps_bind with (Q' := any); [apply stage_trans | | intros ? _]
  | |- keeps _ _ _ (ret _) => apply keeps_ret; [apply stage_refl | try done]
  | |- keeps _ _ _ (raise _) => apply keeps_raise; [apply stage_refl | done]
  | |- keeps _ _ _ (emit _) => apply keeps_emit; by repeat split
  | |- keeps _ _ _ (call _ _) => apply keeps_call; [by repeat split | done]
  | |- keeps _ _ _ (lift _) => apply keeps_lift; [apply stage_refl | done]
  | |- keeps _ _ _ (exists_ _) => apply keeps_exists
  | |- keeps _ _ _ (uuid8 _) => apply keeps_uuid8
  | |- keeps _ _ _ (makedirs _) => apply keeps_makedirs
  | |- keeps _ _ _ (if ?b then _ else _) => destruct b eqn:?
  | |- keeps _ _ _ (match ?x with _ => _ end) => destruct x eqn:?
  end.

Lemma keeps_run_ffmpeg a p :
  under d p → keeps' any any (run_ffmpeg caps a p).
Proof.
  intros Hp. unfold run_ffmpeg. repeat stage_step.
  all: try by apply keeps_leave_file.
Qed.

Lemma keeps_save p t sr :
  under d p → keeps' any any (save caps p t sr).
Proof.
  intros Hp. unfold save. repeat stage_step.
  all: try by apply keeps_leave_file.
Qed.

Lemma keeps_preprocess_audio a :
  keeps' decodable (λ p, under d p ∧ p ≠ d) (preprocess_audio caps g a d).
Proof.
  unfold preprocess_audio.
  destruct (splitext (basename a)) as [base ext] eqn:Hsplit.
  assert (Hbase : base = fst (splitext (basename a))) by by rewrite Hsplit.
  assert (Henh : ∀ h, under d (join d (base ++ u "_enhanced_" ++ h ++ u ".wav"))
                      ∧ join d (base ++ u "_enhanced_" ++ h ++ u ".wav") ≠ d).
  { intros h. subst base. by apply under_join, plain_stem. }
  assert (Htmp : ∀ h, under d (join d (base ++ u "_temp_conversion_" ++ h ++ u ".wav"))
                      ∧ join d (base ++ u "_temp_conversion_" ++ h ++ u ".wav") ≠ d).
  { intros h. subst base. by apply under_join, plain_stem. }
  clear Hsplit Hbase.
  repeat stage_step.
  eapply keeps_bind with
    (Q' := λ f, ∀ p, f = Some p → under d p ∧ p ≠ d); [apply stage_trans | |].
  { destruct (bool_decide (lower ext ≠ u ".wav")); repeat stage_step.
    intros p [= <-]. apply Htmp. }
  intros f Hf.
  apply keeps_finally; [apply stage_trans | | by apply keeps_remove_if_present].
  eapply keeps_try_except with (E' := any); [apply stage_trans | |].
  - repeat stage_step.
    all: try (apply keeps_run_ffmpeg || apply keeps_save).
    all: try done.
    all: try apply Henh.
    by apply Hf.
  - intros e _. simpl.
    destruct (isinstance e CalledProcessErrorClass) eqn:He.
    + apply keeps_report_and_reraise.
    + by apply decodable_other.
Qed.

Lemma isinstance_Exception e : isinstance e Exception = true.
Proof. by destruct e as [[]|]. Qed.

Lemma keeps_transcribe_audio a :
  keeps' decodable any (transcribe_audio caps g a d).
Proof.
  unfold transcribe_audio. repeat stage_step.
  eapply keeps_attempt; [apply stage_trans | apply keeps_preprocess_audio |].
  intros r Hr Ha.
  apply keeps_finally; [apply stage_trans | |].
  - eapply keeps_try_except with (E' := decodable); [apply stage_trans | |].
    + eapply keeps_bind; [apply stage_trans | by apply keeps_resume; [apply stage_refl | |] |].
      intros p _. repeat stage_step.
    + intros e He. simpl. rewrite isinstance_Exception.
      by apply keeps_raise; [apply stage_refl|].
  - apply keeps_remove_if_present. intros p Hp. apply Ha.
    by destruct r; simplify_eq/=.
Qed.

End Stage.


Section Orchestrator.
Context {tensor : Type}.
Variable caps : capabilities tensor.
Variable g : globals.

Lemma handlers_report path e w :
  decodable e →
  ∃ h, select_clause (audit_handlers path) e = Some h
       ∧ h w = (Return (report path e), w).
Proof.
  intros D. unfold report, detail, category_of. cbn.
  destruct (isinstance e FileNotFoundError); [eexists; split; [done|]; by rewrite app_nil_r|].
  destruct (isinstance e ValueError); [by eexists|].
  destruct (isinstance e CalledProcessErrorClass).
  { eexists; split; [done|]. unfold bind, stderr_text.
    unfold decodable in D.
    destruct (stderr_of e) as [[|b bs]|]; try done.
    destruct D as [s Hs]. unfold decode. by rewrite Hs. }
  destruct (isinstance e ImportError); [by eexists|].
  rewrite isinstance_Exception. by eexists.
Qed.

Ltac innermost x :=
  lazymatch x with
  | context [match _ with _ => _ end] => fail
  | _ => idtac
  end.

Ltac run_step :=
  first
  [ progress cbv beta iota zeta delta
      [bind attempt call emit try_except resume lift ret raise bound
       select_clause contains_response getitem_response raw_resp slice100
       negb default]
  | match goal with
    | |- context [bool_decide (is_Some (Some ?v))] =>
      rewrite (bool_decide_eq_true_2 (is_Some (Some v))) by eauto
    | |- context [bool_decide (is_Some (@None ?A))] =>
      rewrite (bool_decide_eq_false_2 (is_Some (@None A)))
        by (intros [? ?]; done)
    | |- context [dict_get ?d ?k] => is_var d; destruct (dict_get d k) eqn:?
    | |- context [match ?x with _ => _ end] => innermost x; destruct x eqn:?
    end ].
Ltac run := repeat run_step.

Lemma analyze_text_frame text model w :
  fs (snd (analyze_text caps g text model w)) = fs w
  ∧ ∀ e, fst (analyze_text caps g text model w) = Raise e →
         ∃ c msg, e = Exn c msg.
Proof.
  unfold analyze_text. run.
  all: split; [done|]; cbn; intros ? [= <-]; eauto.
Qed.

Lemma confined_same d w w' : fs w' = fs w → confined d w w'.
Proof. intros H Hd. rewrite H. done. Qed.

Lemma confined_trans d w1 w2 w3 :
  confined d w1 w2 → confined d w2 w3 → confined d w1 w3.
Proof.
  intros C1 C2 H1. destruct (C1 H1) as [H2 K1]. destruct (C2 H2) as [H3 K2].
  split; [done|]. intros p Hp. by rewrite K2, K1.
Qed.

Lemma dict_get_set_eq d k v : dict_get (dict_set d k v) k = Some v.
Proof.
  induction d as [|[k' v'] r IH]; cbn.
  - by rewrite bool_decide_eq_true_2.
  - case_bool_decide; cbn.
    + by rewrite bool_decide_eq_true_2.
    + by rewrite bool_decide_eq_false_2.
Qed.

Lemma dict_get_set_ne d k k' v :
  k ≠ k' → dict_get (dict_set d k v) k' = dict_get d k'.
Proof.
  intros Hne. induction d as [|[k0 v0] r IH]; cbn.
  - by rewrite bool_decide_eq_false_2.
  - case_bool_decide; cbn.
    + subst. by rewrite !bool_decide_eq_false_2.
    + by rewrite IH.
Qed.

Lemma setitem_cases obj k v w :
  (∃ d, obj = PDict d ∧ setitem obj k v w = (Return (PDict (dict_set d k v)), w))
  ∨ (∃ msg, setitem obj k v w = (Raise (Exn TypeError msg), w)).
Proof. destruct obj; cbn; eauto. Qed.

Lemma audit_steps_spec path d w r w' :
  d ≠ [] →
  audit_steps caps g path d w = (r, w') →
  confined d w w'
  ∧ (∀ e, r = Raise e → decodable e)
  ∧ (∀ v, r = Return v →
          ∃ rec, v = PDict rec
                 ∧ dict_get rec (u "audio_file") = Some (PStr (basename path))).
Proof.
  intros Hd. unfold audit_steps.
  destruct (negb _ || negb _).
  { intros [= <- <-]. split; [by apply confined_same|].
    split; [by intros ? [= <-] | done]. }
  destruct (keeps_transcribe_audio caps g d Hd path w) as ([C _] & E & _).
  unfold bind at 1.
  destruct (transcribe_audio caps g path d w) as [[t|e] w1]; cbn in C, E.
  2:{ intros [= <- <-]. split; [done|]. split; [|done].
      intros e0 [= <-]. by apply E. }
  destruct (negb (nonempty (strip t))).
  { intros [= <- <-]. split; [done|]. split; [done|].
    intros v [= <-]. by eexists. }
  destruct (analyze_text_frame t OLLAMA_MODEL_NAME w1) as [F X].
  unfold bind at 1.
  destruct (analyze_text caps g t OLLAMA_MODEL_NAME w1) as [[v|e] w2];
    cbn in F, X.
  2:{ intros [= <- <-]. split; [by eapply confined_trans, confined_same|].
      split; [|done]. intros ? [= <-].
      by destruct (X e eq_refl) as (c & msg & ->). }
  assert (C2 : confined d w w2) by by eapply confined_trans, confined_same.
  unfold bind.
  destruct (setitem_cases v (u "audio_file") (PStr (basename path)) w2)
    as [(rec & -> & ->) | (msg & ->)].
  2:{ intros [= <- <-]. split; [done|]. split; [|done]. by intros e0 [= <-]. }
  cbn. intros [= <- <-]. split; [done|]. split; [done|].
  intros ? [= <-]. eexists; split; [done|].
  rewrite dict_get_set_ne by done. apply dict_get_set_eq.
Qed.

Lemma plain_literal tag x : tag ≠ [] → head tag ≠ Some slash → plain (tag ++ x).
Proof. destruct tag; [done|]. intros _ H. by split. Qed.

Lemma join_nonempty a b : plain b → join a b ≠ [].
Proof.
  intros [Hb Hh]. destruct b as [|c r]; [done|]. unfold join.
  cbn in Hh. rewrite bool_decide_eq_false_2 by (intros ->; done).
  destruct (_ || _); by destruct a.
Qed.

Lemma temp_dir_nonempty w : temp_dir_of caps w ≠ [].
Proof. by apply join_nonempty, plain_literal. Qed.

Lemma perform_spec path w r w' :
  let d := temp_dir_of caps w in
  audit_steps caps g path d (inside caps w) = (r, w') →
  perform_full_audio_audit caps g path w
  = (Return (match r with
             | Return v => v
             | Raise e => report path e
             end),
     World (filter (λ p, ¬ under d p) (fs w'))
           (log w' ++ [Syscall Rmtree d]) (rand w')).
Proof.
  intros d H.
  destruct (audit_steps_spec path d (inside caps w) r w'
              (temp_dir_nonempty w) H) as (_ & E & _).
  subst d. unfold inside in H.
  cbv beta iota zeta delta
    [perform_full_audio_audit with_TemporaryDirectory bind emit mkdtemp
     finally try_except rmtree].
  cbn [fs log rand]. fold (temp_dir_of caps w). rewrite H.
  destruct r as [v|e]; [done|].
  by destruct (handlers_report path e w' (E e eq_refl)) as (h & -> & ->).
Qed.

Lemma perform_restores_fs path w :
  fresh (temp_dir_of caps w) w →
  fs (snd (perform_full_audio_audit caps g path w)) = fs w.
Proof.
  intros Hfresh.
  destruct (audit_steps caps g path (temp_dir_of caps w) (inside caps w))
    as [r w'] eqn:H.
  rewrite (perform_spec path w r w' H). cbn.
  destruct (audit_steps_spec path _ (inside caps w) r w'
              (temp_dir_nonempty w) H) as (C & _ & _).
  destruct C as [_ C]; [cbn; set_solver|].
  apply set_eq. intros p. rewrite elem_of_filter. split.
  - intros [Hu Hp]. apply C in Hp; [|done]. cbn in Hp.
    apply elem_of_union in Hp as [?|Hp]; [done|].
    apply elem_of_singleton in Hp. destruct Hu. by left.
  - intros Hp.
    assert (¬ under (temp_dir_of caps w) p) by (intros ?; by eapply Hfresh).
    split; [done|]. apply C; [done|]. cbn. set_solver.
Qed.

End Orchestrator.

(** *** Cleanup, analysis and batch lemmas *)

Section Cleanup.
Context {tensor : Type}.
Variable caps : capabilities tensor.
Variable g : globals.

Local Abbreviation anywhere := (λ _ _ : world, True).
Local Abbreviation any := (λ _, True).

Lemma keeps_anything {A} (c : M A) : keeps anywhere any any c.
Proof. by intros w. Qed.

Ltac value_step :=
  lazymatch goal with
  | |- keeps _ _ _ (bind _ _) =>
    eapply keeps_bind with (Q' := any);
    [done | apply keeps_anything | intros ? _]
  | |- keeps _ _ _ (raise _) => by apply keeps_raise
  | |- keeps _ _ _ (if ?b then _ else _) => destruct b
  | |- keeps _ _ _ (match ?x with _ => _ end) => destruct x
  end.

Lemma preprocess_returns_nonempty a d :
  keeps anywhere any (λ p, p ≠ []) (preprocess_audio caps g a d).
Proof.
  unfold preprocess_audio.
  destruct (splitext (basename a)) as [base ext] eqn:Hsplit.
  assert (Henh : ∀ h, join d (base ++ u "_enhanced_" ++ h ++ u ".wav") ≠ []).
  { intros h. apply join_nonempty.
    replace base with (fst (splitext (basename a))) by by rewrite Hsplit.
    by apply plain_stem. }
  clear Hsplit. repeat value_step.
  apply keeps_finally; [done | | apply keeps_anything].
  eapply keeps_try_except with (E' := any); [done | |].
  - repeat value_step. by apply keeps_ret.
  - intros e _. cbn. destruct (isinstance e CalledProcessErrorClass); [|done].
    value_step. by apply keeps_raise.
Qed.

Lemma remove_if_present_absent p w :
  nonempty p = true → p ∉ fs (snd (remove_if_present (Some p) w)).
Proof.
  intros Hp. cbn. rewrite Hp.
  cbv [bind exists_ emit try_except remove]. cbn [fs log rand].
  case_bool_decide as Hin; cbn [fs log rand]; [|done].
  rewrite bool_decide_eq_true_2 by done. cbn. set_solver.
Qed.

Lemma finally_world {A} (c : M A) f w :
  snd (finally c f w) = snd (f (snd (c w))).
Proof.
  unfold finally. destruct (c w) as [r w1]. cbn.
  by destruct (f w1) as [[[]|e] w2].
Qed.

Lemma transcribe_removes_enhanced a d w p :
  can_transcribe g = true →
  fst (preprocess_audio caps g a d (after (Enter TranscribeAudio) w)) = Return p →
  p ∉ fs (snd (transcribe_audio caps g a d w)).
Proof.
  unfold can_transcribe. intros G Hp.
  apply andb_prop in G as [G G3]. apply andb_prop in G as [G1 G2].
  unfold transcribe_audio. rewrite G1, G2, G3.
  cbv [bind emit attempt negb orb]. fold (after (Enter TranscribeAudio) w).
  destruct (preprocess_returns_nonempty a d (after (Enter TranscribeAudio) w))
    as (_ & _ & Hne).
  destruct (preprocess_audio caps g a d (after (Enter TranscribeAudio) w))
    as [r w1]. cbn in Hp, Hne. subst r.
  rewrite finally_world. apply remove_if_present_absent.
  specialize (Hne p eq_refl). by destruct p.
Qed.

Lemma preprocess_removes_conversion a d w :
  can_preprocess g = true → a ∈ fs w → needs_conversion a →
  conversion_path caps a d w ∉ fs (snd (preprocess_audio caps g a d w)).
Proof.
  unfold can_preprocess, needs_conversion, conversion_path.
  intros G Ha Hext.
  repeat (apply andb_prop in G as [G ?]).
  unfold preprocess_audio.
  destruct (splitext (basename a)) as [base ext] eqn:Hsplit. cbn [fst snd] in *.
  assert (Hne : ∀ h, nonempty (join d (base ++ u "_temp_conversion_" ++ h ++ u ".wav")) = true).
  { intros h.
    assert (join d (base ++ u "_temp_conversion_" ++ h ++ u ".wav") ≠ []) as X.
    { apply join_nonempty.
      replace base with (fst (splitext (basename a))) by by rewrite Hsplit.
      by apply plain_stem. }
    by destruct (join d _). }
  repeat match goal with H : _ = true |- _ => rewrite H; clear H end.
  cbv [bind emit exists_ makedirs uuid8 ret negb orb]. cbn [fs log rand].
  rewrite (bool_decide_eq_true_2 (a ∈ fs w)) by done.
  rewrite (bool_decide_eq_true_2 (lower ext ≠ u ".wav")) by done.
  cbv beta iota. cbn [fs log rand].
  destruct (bool_decide (d ∈ fs w)); cbv beta iota; cbn [fs log rand];
    rewrite finally_world; by apply remove_if_present_absent.
Qed.

End Cleanup.

Ltac decide_isinstance :=
  match goal with
  | |- context [isinstance ?e ?k] =>
    let b := eval vm_compute in (isinstance e k) in
    lazymatch b with
    | true => change (isinstance e k) with true
    | false => change (isinstance e k) with false
    end
  end.

Ltac eval_step :=
  first
  [ progress cbv beta iota zeta delta
      [bind attempt call emit try_except resume lift ret raise bound
       select_clause contains_response getitem_response raw_resp slice100
       negb default format fst snd]
  | decide_isinstance
  | rewrite isinstance_Exception
  | match goal with
    | H : ?x = _ |- context [match ?x with _ => _ end] => rewrite H
    | H : ?x = _ |- context [if ?x then _ else _] => rewrite H
    | |- context [bool_decide (is_Some (Some ?v))] =>
      rewrite (bool_decide_eq_true_2 (is_Some (Some v))) by eauto
    | |- context [bool_decide (is_Some (@None ?A))] =>
      rewrite (bool_decide_eq_false_2 (is_Some (@None A)))
        by (intros [? ?]; done)
    end ].
Ltac go := repeat eval_step.

Section Analysis.
Context {tensor : Type}.
Variable caps : capabilities tensor.
Variable g : globals.

Lemma analyze_text_generate_json_error text model w c msg :
  ollama g = true →
  ollama_generate caps model (prompt_head ++ text ++ prompt_tail) = Fails c msg →
  issubclass c JSONDecodeError = true →
  fst (analyze_text caps g text model w) = Raise unbound_response.
Proof.
  intros Ho Hg Hc. unfold analyze_text. go.
  change (isinstance (Exn c msg) JSONDecodeError) with (issubclass c JSONDecodeError).
  by go.
Qed.


Lemma analyze_text_returns text model w v :
  fst (analyze_text caps g text model w) = Return v →
  is_fallback v
  ∨ ∃ resp s,
      ollama_generate caps model (prompt_head ++ text ++ prompt_tail) = Ok resp
      ∧ response_text resp = Some s
      ∧ json_loads caps s = Ok v.
Proof.
  unfold analyze_text, is_fallback.
  destruct (ollama g); go; [|done].
  destruct (ollama_generate caps model _) as [resp|c msg] eqn:Hg; go.
  { destruct resp as [d | [[|]|c msg] [[]|c' msg'] repr]; go.
    all: try (destruct (isinstance _ JSONDecodeError); go).
    all: try done.
    all: try (intros [= <-]; by eauto).
    - destruct (dict_get d (u "response")) as [[]|] eqn:Hd; go.
      all: try (intros [= <-]; by eauto).
      destruct (json_loads caps s) as [v'|c msg] eqn:Hl; go.
      + intros [= <-]. right. exists (RespDict d), s. cbn. by rewrite Hd.
      + destruct (isinstance _ JSONDecodeError); go; intros [= <-]; eauto.
    - destruct (json_loads caps s) as [v'|c msg] eqn:Hl; go.
      + intros [= <-]. right. by eexists (RespObject _ _ _), s.
      + destruct (isinstance _ JSONDecodeError); go; intros [= <-]; eauto. }
  destruct (isinstance (Exn c msg) JSONDecodeError); go; [done|].
  intros [= <-]; eauto.
Qed.

End Analysis.

Section ShortCircuit.
Context {tensor : Type}.
Variable caps : capabilities tensor.
Variable g : globals.

Lemma lstrip_blank t : blank t = true → lstrip t = [].
Proof.
  unfold blank. induction t as [|c r IH]; [done|]. cbn [forallb lstrip].
  intros H. apply andb_prop in H as [-> H]. by apply IH.
Qed.

Lemma strip_blank t : blank t = true → strip t = [].
Proof. intros H. unfold strip. by rewrite (lstrip_blank t H). Qed.

Lemma guard_passes : available g = true →
  (negb (_heavy_libs_successfully_imported g)
   || negb (WHISPER_MODEL_INSTANCE g)) = false.
Proof. unfold available. intros H. apply andb_prop in H as [-> ->]. done. Qed.

Lemma guard_fails : available g = false →
  (negb (_heavy_libs_successfully_imported g)
   || negb (WHISPER_MODEL_INSTANCE g)) = true.
Proof.
  unfold available. by destruct (_heavy_libs_successfully_imported g), (WHISPER_MODEL_INSTANCE g).
Qed.

Lemma blank_transcript path w t :
  available g = true →
  fst (transcribe_audio caps g path (temp_dir_of caps w) (inside caps w)) = Return t →
  blank t = true →
  fst (perform_full_audio_audit caps g path w) = Return (empty_record path)
  ∧ (∃ evs, log (snd (perform_full_audio_audit caps g path w)) = log w ++ evs
            ∧ (Enter AnalyzeText ∉ evs) ∧ (Invoke OllamaGenerate ∉ evs)).
Proof.
  intros G Ht Hb.
  destruct (keeps_transcribe_audio caps g _ (temp_dir_nonempty caps w) path
              (inside caps w)) as ([_ (evs & Hl & Hev)] & _ & _).
  destruct (transcribe_audio caps g path (temp_dir_of caps w) (inside caps w))
    as [r w1] eqn:Htr. cbn in Ht, Hl. subst r.
  assert (Hs : audit_steps caps g path (temp_dir_of caps w) (inside caps w)
               = (Return (empty_record path), w1)).
  { unfold audit_steps. rewrite (guard_passes G). unfold bind. rewrite Htr.
    by rewrite (strip_blank t Hb). }
  rewrite (perform_spec caps g path w _ _ Hs). cbn. split; [done|].
  rewrite Hl.
  exists ([Enter PerformFullAudioAudit; Syscall Mkdtemp (temp_dir_of caps w)]
          ++ evs ++ [Syscall Rmtree (temp_dir_of caps w)]).
  split; [by rewrite <- !app_assoc|].
  assert (Forall (λ ev, ev ≠ Enter AnalyzeText ∧ ev ≠ Invoke OllamaGenerate)
            ([Enter PerformFullAudioAudit; Syscall Mkdtemp (temp_dir_of caps w)]
             ++ evs ++ [Syscall Rmtree (temp_dir_of caps w)])) as F.
  { repeat first [apply Forall_app; split | apply Forall_cons; split | apply Forall_nil]; try done.
    eapply Forall_impl; [exact Hev|]. intros ev (? & ? & _). done. }
  rewrite Forall_forall in F. split; intros Hin; by destruct (F _ Hin).
Qed.

Lemma unavailable_outcome path w :
  available g = false →
  perform_full_audio_audit caps g path w
  = (Return (failed path (u "Import error during processing: Core audio processing components are not available for a full audit.")),
     World (filter (λ p, ¬ under (temp_dir_of caps w) p) (fs w ∪ {[temp_dir_of caps w]}))
           (((log w ++ [Enter PerformFullAudioAudit])
             ++ [Syscall Mkdtemp (temp_dir_of caps w)])
            ++ [Syscall Rmtree (temp_dir_of caps w)])
           (S (rand w))).
Proof.
  intros G.
  assert (Hs : audit_steps caps g path (temp_dir_of caps w) (inside caps w)
               = (Raise (Exn ImportError (u "Core audio processing components are not available for a full audit.")), inside caps w)).
  { unfold audit_steps. by rewrite (guard_fails G). }
  by rewrite (perform_spec caps g path w _ _ Hs).
Qed.

End ShortCircuit.

Section Batch.
Context {tensor : Type}.
Variable caps : capabilities tensor.
Variable g : globals.
Variable srv : web.

Lemma audit_files_skips root files results w :
  Forall unsupported files →
  audit_files caps g srv root files results w = (Return results, w).
Proof.
  induction 1 as [|n r Hn _ IH]; [done|].
  cbn [audit_files]. unfold bind, audit_item.
  by rewrite (bool_decide_eq_false_2 _ Hn).
Qed.

Lemma audit_walk_skips walk results w :
  Forall (λ entry, Forall unsupported (snd entry)) walk →
  audit_walk caps g srv walk results w = (Return results, w).
Proof.
  induction 1 as [|[root files] r Hn _ IH]; [done|].
  cbn [audit_walk]. unfold bind. by rewrite audit_files_skips.
Qed.

Lemma invocations_app f l l' :
  invocations f (l ++ l') = invocations f l + invocations f l'.
Proof. unfold invocations. by rewrite filter_app, length_app. Qed.

Lemma invocations_other f ev : ev ≠ Enter f → invocations f [ev] = 0.
Proof.
  intros H. unfold invocations. rewrite filter_cons_False by done. done.
Qed.

Lemma cleanup_quiet zip dir w :
  fst (cleanup zip dir w) = Return tt
  ∧ ∃ evs, log (snd (cleanup zip dir w)) = log w ++ evs
           ∧ invocations PerformFullAudioAudit evs = 0.
Proof.
  unfold cleanup. cbv [bind exists_ emit try_except remove rmtree ret].
  cbn [fs log rand].
  destruct (bool_decide (zip ∈ fs w)) eqn:Hz; cbn [fs log rand].
  - rewrite Hz. cbn [fs log rand].
    destruct (bool_decide (dir ∈ fs w ∖ {[zip]})); cbn [fs log rand fst snd];
      (split; [done|]); rewrite <- !app_assoc; by eexists.
  - destruct (bool_decide (dir ∈ fs w)); cbn [fs log rand fst snd];
      (split; [done|]); rewrite <- !app_assoc; by eexists.
Qed.

Lemma process_archive_no_audio filename zip dir walk w :
  fst (store_upload srv zip) = Ok tt →
  unzip srv zip dir = Extracted walk →
  Forall (λ entry, Forall unsupported (snd entry)) walk →
  ∃ w', process_archive caps g srv filename zip dir w
        = (Return no_audio_response, w')
        ∧ log w' = log w ++ [Syscall Makedirs dir].
Proof.
  intros Hstore Hunzip Hwalk. unfold process_archive.
  destruct (store_upload srv zip) as [stored written]. cbn in Hstore.
  subst stored.
  cbv [bind leave_file lift ret makedirs emit extractall try_except].
  rewrite Hunzip.
  destruct written; cbn [fs log rand];
    (destruct (bool_decide (dir ∈ _)); cbn [fs log rand];
     rewrite audit_walk_skips by done; by eexists).
Qed.

Lemma upload_zip_no_audio filename walk w :
  filename ≠ [] → endswith filename (u ".zip") = true →
  fst (store_upload srv (zip_path caps filename w)) = Ok tt →
  unzip srv (zip_path caps filename w) (extraction_path caps w) = Extracted walk →
  Forall (λ entry, Forall unsupported (snd entry)) walk →
  fst (upload_zip caps g srv (Some filename) w) = Return no_audio_response
  ∧ invocations PerformFullAudioAudit (log (snd (upload_zip caps g srv (Some filename) w)))
    = invocations PerformFullAudioAudit (log w).
Proof.
  intros Hne Hz Hstore Hunzip Hwalk.
  destruct filename as [|c f]; [done|]. unfold upload_zip. rewrite Hz.
  cbv [negb bind uuid32 emit]. cbn [fs log rand].
  fold (zip_path caps (c :: f) w). fold (extraction_path caps w).
  set (w2 := World _ _ _).
  destruct (process_archive_no_audio (c :: f) _ _ walk w2 Hstore Hunzip Hwalk)
    as (w' & Hp & Hl).
  unfold finally, try_except. rewrite Hp.
  destruct (cleanup_quiet (zip_path caps (c :: f) w) (extraction_path caps w) w')
    as (Hc & evs & Hlog & Hq).
  destruct (cleanup _ _ w') as [[[]|e] w'']; cbn in Hc, Hlog; [|done].
  cbn [fst snd]. split; [done|].
  rewrite Hlog, Hl. subst w2. cbn [log].
  rewrite !invocations_app, Hq, !invocations_other by done. lia.
Qed.

End Batch.


(* ===================================================================== *)
(** ** Properties of the pipeline                                         *)
(* ===================================================================== *)

Import Scenario.

(** *** C1 *)

(** When [torchaudio.save] has written the enhanced file and raises,
    [preprocess_audio] raises, [enhanced_file_path] stays [None] and
    [transcribe_audio] leaves the file where it is. *)
Lemma C1_counterexample :
  (u "/work/call_enhanced_0f1c2e3a.wav" ∉ fs disk)
  ∧ fst (transcribe_audio interrupted_save all_loaded call_mp3 (u "/work") disk)
    = Raise (Exn OSError (u "[Errno 28] No space left on device"))
  ∧ u "/work/call_enhanced_0f1c2e3a.wav"
    ∈ fs (snd (transcribe_audio interrupted_save all_loaded call_mp3
                 (u "/work") disk)).
Proof.
  split; [|split].
  - apply (bool_decide_eq_false_1 _). vm_compute. reflexivity.
  - vm_compute. reflexivity.
  - apply (bool_decide_eq_true_1 _). vm_compute. reflexivity.
Qed.

(** C1, amended.  Every temporary artifact of an audit invocation is
    gone when the invocation ends, on every exit path.
    - [perform_full_audio_audit], started on a disk where [mkdtemp] gets a
      new directory, leaves the set of existing paths exactly as it found
      it, whatever the stages do and whatever it returns: the working
      directory and all that was written below it are removed.
    - [transcribe_audio] removes the enhanced file [preprocess_audio]
      returned to it, whether the recogniser then returns or raises.  (An
      enhanced file that [preprocess_audio] wrote before raising is not
      returned; it goes with the working directory, by the first part.)
    - [preprocess_audio] removes its format-conversion file, whether the
      stages after the conversion return or raise. *)
Theorem C1_temporary_artifacts_removed {tensor} (caps : capabilities tensor)
    (g : globals) :
  (∀ path w,
     fresh (temp_dir_of caps w) w →
     fs (snd (perform_full_audio_audit caps g path w)) = fs w)
  ∧ (∀ audio dir w p,
       can_transcribe g = true →
       fst (preprocess_audio caps g audio dir
              (after (Enter TranscribeAudio) w)) = Return p →
       p ∉ fs (snd (transcribe_audio caps g audio dir w)))
  ∧ (∀ audio dir w,
       can_preprocess g = true → audio ∈ fs w → needs_conversion audio →
       conversion_path caps audio dir w
       ∉ fs (snd (preprocess_audio caps g audio dir w))).
Proof.
  split; [|split].
  - intros path w. apply perform_restores_fs.
  - intros audio dir w p. apply transcribe_removes_enhanced.
  - intros audio dir w. apply preprocess_removes_conversion.
Qed.

Lemma C1_witness :
  let caps := studio greeting (answers (u "{}")) in
  fs (snd (perform_full_audio_audit caps all_loaded call_mp3 disk)) = fs disk
  ∧ (u "/work/call_enhanced_0f1c2e3a.wav"
     ∉ fs (snd (transcribe_audio caps all_loaded call_mp3 (u "/work") disk)))
  ∧ (u "/work/call_temp_conversion_1f1c2e3a.wav"
     ∉ fs (snd (preprocess_audio caps all_loaded call_mp3 (u "/work") disk))).
Proof.
  intros caps.
  destruct (C1_temporary_artifacts_removed caps all_loaded) as (H1 & H2 & H3).
  split; [|split].
  - apply H1. intros p Hu Hin. change (p ∈ ({[call_mp3]} : gset str)) in Hin.
    apply elem_of_singleton in Hin. subst p.
    assert (¬ under (temp_dir_of caps disk) call_mp3) as N
      by (apply (bool_decide_eq_false_1 _); vm_compute; reflexivity).
    exact (N Hu).
  - apply H2; [reflexivity | vm_compute; reflexivity].
  - apply (H3 call_mp3 (u "/work") disk).
    + reflexivity.
    + change (call_mp3 ∈ ({[call_mp3]} : gset str)).
      apply elem_of_singleton. reflexivity.
    + apply (bool_decide_eq_true_1 _). vm_compute. reflexivity.
Defined.

(** *** Failure records *)

Lemma label_injective c c' : label c = label c' → c = c'.
Proof. destruct c, c'; try done; intros H; vm_compute in H; discriminate. Qed.

Lemma label_nonempty c : label c ≠ [].
Proof. by destruct c. Qed.

(** [perform_full_audio_audit] never raises: whatever the stages do, it
    returns a dict.  When the [try] block raises [e], the dict carries the
    base name of the input, the status [FAILED], and the error text of the
    first [except] clause the class of [e] matches, followed by the
    detail; no two clauses share a text.  Which clause that is depends on
    the class of the exception alone, not on what went wrong. *)
Lemma failed_records_by_exception_class {tensor}
    (caps : capabilities tensor) (g : globals) (path : str) (w : world) :
  (∃ rec, fst (perform_full_audio_audit caps g path w) = Return (PDict rec))
  ∧ (∀ e,
       fst (audit_steps caps g path (temp_dir_of caps w) (inside caps w))
       = Raise e →
       fst (perform_full_audio_audit caps g path w)
       = Return (PDict [(u "audio_file", PStr (basename path));
                        (u "error", PStr (label (category_of e) ++ detail e));
                        (u "status", PStr (u "FAILED"))]))
  ∧ (∀ c c', label c = label c' → c = c').
Proof.
  destruct (audit_steps caps g path (temp_dir_of caps w) (inside caps w))
    as [r w'] eqn:H.
  rewrite (perform_spec caps g path w r w' H).
  destruct (audit_steps_spec caps g path _ _ r w' (temp_dir_nonempty caps w) H)
    as (_ & _ & V).
  split; [|split].
  - destruct r as [v|e]; [|by eexists].
    destruct (V v eq_refl) as (rec & -> & _). by eexists.
  - cbn. by intros e ->.
  - apply label_injective.
Qed.

(** *** C3 *)

(** With the heavy libraries absent the invocation still creates its
    working directory, and removes it: the file system is touched. *)
Lemma C3_counterexample :
  available nothing_loaded = false
  ∧ log (snd (perform_full_audio_audit (studio greeting (answers (u "{}")))
                nothing_loaded call_mp3 disk))
    = [Enter PerformFullAudioAudit;
       Syscall Mkdtemp (u "/tmp/audio_audit_k8s0w2ab");
       Syscall Rmtree (u "/tmp/audio_audit_k8s0w2ab")].
Proof. split; vm_compute; reflexivity. Qed.

(** C3, amended.  Whenever the guard reports unavailable at the time of
    the call (the heavy libraries did not import, or the model instance is
    missing), [perform_full_audio_audit] returns the [FAILED] record of the
    capability-unavailable category.  Its only file-system activity is to
    create its working directory and to remove it again: no stage is
    entered and no capability is called, and on a disk where the directory
    is new the set of existing paths is what it was. *)
Theorem C3_unavailable_guard {tensor} (caps : capabilities tensor)
    (g : globals) (path : str) (w : world) :
  available g = false →
  fst (perform_full_audio_audit caps g path w)
  = Return (PDict [(u "audio_file", PStr (basename path));
                   (u "error", PStr (u "Import error during processing: Core audio processing components are not available for a full audit."));
                   (u "status", PStr (u "FAILED"))])
  ∧ log (snd (perform_full_audio_audit caps g path w))
    = log w ++ [Enter PerformFullAudioAudit;
                Syscall Mkdtemp (temp_dir_of caps w);
                Syscall Rmtree (temp_dir_of caps w)]
  ∧ (fresh (temp_dir_of caps w) w →
     fs (snd (perform_full_audio_audit caps g path w)) = fs w).
Proof.
  intros G. split; [|split].
  - by rewrite (unavailable_outcome caps g path w G).
  - rewrite (unavailable_outcome caps g path w G). cbn.
    by rewrite <- !app_assoc.
  - apply perform_restores_fs.
Qed.

Lemma C3_witness :
  fst (perform_full_audio_audit (studio greeting (answers (u "{}")))
         nothing_loaded call_mp3 disk)
  = Return (PDict [(u "audio_file", PStr (u "call.mp3"));
                   (u "error", PStr (u "Import error during processing: Core audio processing components are not available for a full audit."));
                   (u "status", PStr (u "FAILED"))]).
Proof.
  destruct (C3_unavailable_guard (studio greeting (answers (u "{}")))
              nothing_loaded call_mp3 disk) as (H & _ & _).
  - reflexivity.
  - rewrite H. vm_compute. reflexivity.
Defined.

(** *** C4 *)

(** C4.  When the transcript is empty or consists of white space only,
    [perform_full_audio_audit] returns a record without [FAILED] status:
    empty transcription, the unknown sentiment, the single compliance
    issue [Empty transcription] and a summary saying that nothing could be
    analysed.  [analyze_text] is not entered and [ollama.generate] is not
    called during the invocation. *)
Theorem C4_blank_transcript_short_circuits {tensor}
    (caps : capabilities tensor) (g : globals) (path : str) (w : world)
    (t : str) :
  available g = true →
  fst (transcribe_audio caps g path (temp_dir_of caps w) (inside caps w))
  = Return t →
  blank t = true →
  fst (perform_full_audio_audit caps g path w)
  = Return (PDict [(u "audio_file", PStr (basename path));
                   (u "transcription", PStr []);
                   (u "sentiment", PStr (u "未知"));
                   (u "compliance_issues",
                    PList [PStr (u "Empty transcription")]);
                   (u "summary", PStr (u "音频转录结果为空，无法进行分析。"))])
  ∧ (∃ evs,
       log (snd (perform_full_audio_audit caps g path w)) = log w ++ evs
       ∧ (Enter AnalyzeText ∉ evs) ∧ (Invoke OllamaGenerate ∉ evs)).
Proof. apply blank_transcript. Qed.

Lemma C4_witness :
  fst (perform_full_audio_audit (studio [u " "; u "　"] (answers (u "{}")))
         all_loaded call_mp3 disk)
  = Return (empty_record call_mp3).
Proof.
  destruct (C4_blank_transcript_short_circuits
              (studio [u " "; u "　"] (answers (u "{}"))) all_loaded call_mp3
              disk (u " 　")) as (H & _).
  - reflexivity.
  - vm_compute. reflexivity.
  - vm_compute. reflexivity.
  - exact H.
Defined.

(** *** C5 *)

(** C5 fails on the code: when [ollama.generate] itself raises a
    [json.JSONDecodeError] (its client decodes the reply of the service as
    JSON), the handler for that class reads the local [response], which
    was never bound, and [analyze_text] raises [UnboundLocalError] instead
    of returning a fallback. *)
Theorem C5_decode_error_in_generate_escapes {tensor}
    (caps : capabilities tensor) (g : globals) (text model : str)
    (w : world) (c : exn_class) (msg : str) :
  ollama g = true →
  ollama_generate caps model (prompt_head ++ text ++ prompt_tail)
  = Fails c msg →
  issubclass c JSONDecodeError = true →
  fst (analyze_text caps g text model w) = Raise unbound_response.
Proof. apply analyze_text_generate_json_error. Qed.

Lemma C5_witness :
  fst (analyze_text
         (studio greeting
            (Fails JSONDecodeError
               (u "Expecting value: line 1 column 1 (char 0)")))
         all_loaded (u "您好") OLLAMA_MODEL_NAME disk)
  = Raise unbound_response.
Proof.
  apply (C5_decode_error_in_generate_escapes _ _ _ _ _ JSONDecodeError
           (u "Expecting value: line 1 column 1 (char 0)"));
    reflexivity.
Defined.

(** Every other failure of the service is turned into a fallback: with the
    [ollama] module in place, [analyze_text] raises only in the case
    above. *)
Lemma analyze_text_raises_only_unbound {tensor} (caps : capabilities tensor)
    (g : globals) (text model : str) (w : world) (e : exn) :
  ollama g = true →
  fst (analyze_text caps g text model w) = Raise e →
  e = unbound_response
  ∧ ∃ c msg,
      ollama_generate caps model (prompt_head ++ text ++ prompt_tail)
      = Fails c msg
      ∧ isinstance (Exn c msg) JSONDecodeError = true.
Proof.
  intros Ho. unfold analyze_text. rewrite Ho. go.
  destruct (ollama_generate caps model _) as [resp|c msg] eqn:Hg; go.
  { destruct resp as [d | [[|]|c msg] [[]|c' msg'] repr]; go.
    all: try (destruct (isinstance _ JSONDecodeError); go).
    all: try done.
    - destruct (dict_get d (u "response")) as [[]|] eqn:Hd; go; try done.
      destruct (json_loads caps s) as [v'|c msg] eqn:Hl; go; [done|].
      destruct (isinstance _ JSONDecodeError); by go.
    - destruct (json_loads caps s) as [v'|c msg] eqn:Hl; go; [done|].
      destruct (isinstance _ JSONDecodeError); by go. }
  destruct (isinstance (Exn c msg) JSONDecodeError) eqn:Hc; go; [|done].
  intros [= <-]. split; [done|]. by exists c, msg.
Qed.

(** *** C6 *)



(** A response of 150 characters that is not JSON: the summary quotes its
    first 100. *)
Example long_response_is_cut :
  fst (analyze_text (studio greeting (answers (replicate 150 120%N)))
         all_loaded (u "您好") OLLAMA_MODEL_NAME disk)
  = Return (analysis (u "未知") [u "JSON parsing error: Expecting value"]
              (u "无法解析LLM输出。Raw: " ++ replicate 100 120%N ++ u "...")).
Proof. vm_compute. reflexivity. Qed.

(** *** C7 *)




(** *** C8 *)

(** A response whose text is the JSON array [[]] makes [analyze_text]
    return a list. *)
Lemma C8_counterexample :
  ∃ v,
    fst (analyze_text (studio greeting (answers (u "[]"))) all_loaded
           (u "您好") OLLAMA_MODEL_NAME disk)
    = Return v
    ∧ ∀ d, v ≠ PDict d.
Proof. exists (PList []). split; [vm_compute; reflexivity | done]. Qed.

(** C8, amended.  A value returned by [analyze_text] is either one of its
    fallback results, a dict with exactly the keys [sentiment],
    [compliance_issues] and [summary] holding the unknown marker, a list
    with one issue and a summary, or it is the value [json.loads] made of
    the response text, returned as it is, whatever its shape. *)
Theorem C8_returned_values {tensor} (caps : capabilities tensor)
    (g : globals) (text model : str) (w : world) (v : pyval) :
  fst (analyze_text caps g text model w) = Return v →
  (∃ issue summary,
     v = PDict [(u "sentiment", PStr (u "未知"));
                (u "compliance_issues", PList [PStr issue]);
                (u "summary", PStr summary)])
  ∨ (∃ resp s,
       ollama_generate caps model (prompt_head ++ text ++ prompt_tail)
       = Ok resp
       ∧ response_text resp = Some s
       ∧ json_loads caps s = Ok v).
Proof. apply analyze_text_returns. Qed.

Lemma C8_witness :
  ∃ resp s,
    ollama_generate (studio greeting (answers (u "[]"))) OLLAMA_MODEL_NAME
      (prompt_head ++ u "您好" ++ prompt_tail) = Ok resp
    ∧ response_text resp = Some s
    ∧ Json.loads s = Ok (PList []).
Proof.
  destruct (C8_returned_values (studio greeting (answers (u "[]")))
              all_loaded (u "您好") OLLAMA_MODEL_NAME disk (PList []))
    as [(issue & summary & H) | H].
  - vm_compute. reflexivity.
  - discriminate H.
  - exact H.
Defined.

(** *** C9 *)

(** C9.  For an upload named [*.zip] that is stored and extracted, and in
    which no entry has an extension of the allow-list (compared in lower
    case, as the endpoint does), the batch endpoint answers with no
    processed file and the single error [No supported audio files found in
    the ZIP archive.], and [perform_full_audio_audit] is not entered. *)
Theorem C9_archive_without_audio {tensor} (caps : capabilities tensor)
    (g : globals) (srv : web) (filename : str)
    (walk : list (str * list str)) (w : world) :
  filename ≠ [] →
  endswith filename (u ".zip") = true →
  fst (store_upload srv (zip_path caps filename w)) = Ok tt →
  unzip srv (zip_path caps filename w) (extraction_path caps w)
  = Extracted walk →
  Forall (λ entry, Forall unsupported (snd entry)) walk →
  fst (upload_zip caps g srv (Some filename) w)
  = Return {| message := u "ZIP file processed with errors.";
              processed_files := [];
              errors := [u "No supported audio files found in the ZIP archive."] |}
  ∧ invocations PerformFullAudioAudit
      (log (snd (upload_zip caps g srv (Some filename) w)))
    = invocations PerformFullAudioAudit (log w).
Proof. apply upload_zip_no_audio. Qed.

Lemma C9_witness :
  let caps := studio greeting (answers (u "{}")) in
  let srv := archive [u "readme.txt"; u "doc.pdf"] in
  fst (upload_zip caps all_loaded srv (Some (u "calls.zip")) disk)
  = Return no_audio_response
  ∧ invocations PerformFullAudioAudit
      (log (snd (upload_zip caps all_loaded srv (Some (u "calls.zip")) disk)))
    = 0.
Proof.
  intros caps srv.
  apply (C9_archive_without_audio caps all_loaded srv (u "calls.zip")
           [(extraction_path caps disk, [u "readme.txt"; u "doc.pdf"])] disk).
  - vm_compute. discriminate.
  - vm_compute. reflexivity.
  - reflexivity.
  - reflexivity.
  - repeat constructor; apply (bool_decide_eq_true_1 _); vm_compute;
      reflexivity.
Defined.

(** *** C10 *)

(** C10.  The dict [perform_full_audio_audit] returns always holds the
    base name of the input path under [audio_file]: on every failure path,
    and on the success path after whatever the analysis put under that
    key.  When the [try] block raises, the dict pairs a non-empty [error]
    text with the status [FAILED]. *)
Theorem C10_audio_file_is_base_name {tensor} (caps : capabilities tensor)
    (g : globals) (path : str) (w : world) :
  ∃ rec,
    fst (perform_full_audio_audit caps g path w) = Return (PDict rec)
    ∧ dict_get rec (u "audio_file") = Some (PStr (basename path))
    ∧ (∀ e,
         fst (audit_steps caps g path (temp_dir_of caps w) (inside caps w))
         = Raise e →
         ∃ err, err ≠ []
                ∧ dict_get rec (u "error") = Some (PStr err)
                ∧ dict_get rec (u "status") = Some (PStr (u "FAILED"))).
Proof.
  destruct (audit_steps caps g path (temp_dir_of caps w) (inside caps w))
    as [r w'] eqn:H.
  rewrite (perform_spec caps g path w r w' H).
  destruct (audit_steps_spec caps g path _ _ r w' (temp_dir_nonempty caps w) H)
    as (_ & _ & V).
  destruct r as [v|e].
  - destruct (V v eq_refl) as (rec & -> & Hrec). exists rec.
    split; [done|]. split; [done|]. intros e. discriminate.
  - eexists. split; [done|]. split; [done|]. intros e' [= <-].
    exists (label (category_of e) ++ detail e). split; [|done].
    pose proof (label_nonempty (category_of e)).
    by destruct (label (category_of e)).
Qed.

Lemma C10_witness :
  ∃ rec err,
    fst (perform_full_audio_audit (studio greeting (answers (u "[]")))
           all_loaded call_mp3 disk) = Return (PDict rec)
    ∧ dict_get rec (u "audio_file") = Some (PStr (u "call.mp3"))
    ∧ err ≠ []
    ∧ dict_get rec (u "error") = Some (PStr err)
    ∧ dict_get rec (u "status") = Some (PStr (u "FAILED")).
Proof.
  destruct (C10_audio_file_is_base_name (studio greeting (answers (u "[]")))
              all_loaded call_mp3 disk) as (rec & H1 & H2 & H3).
  destruct (H3 (Exn TypeError
                  (u "list indices must be integers or slices, not str")))
    as (err & E1 & E2 & E3).
  - vm_compute. reflexivity.
  - exists rec, err. repeat split; assumption.
Defined.

(** The analysis may carry an [audio_file] entry of its own; the record
    names the file that was audited. *)
Example conflicting_audio_file :
  fst (perform_full_audio_audit
         (studio greeting
            (answers (u "{" ++ dq ++ u "audio_file" ++ dq ++ u ": "
                      ++ dq ++ u "other.mp3" ++ dq ++ u "}")))
         all_loaded call_mp3 disk)
  = Return (PDict [(u "audio_file", PStr (u "call.mp3"));
                   (u "transcription", PStr (u "您好，请问有什么可以帮您？"))]).
Proof. vm_compute. reflexivity. Qed.


(* ===================================================================== *)
(** ** Further properties of the stages                                   *)
(* ===================================================================== *)

Section Outcomes.
Context {tensor : Type}.
Variable caps : capabilities tensor.
Variable g : globals.

Lemma remove_if_present_returns f w : fst (remove_if_present f w) = Return tt.
Proof.
  destruct f as [p|]; [|done]. cbn. destruct (nonempty p); [|done].
  cbv [bind exists_ emit try_except remove]. cbn [fs log rand].
  case_bool_decide as Hin; cbn [fs log rand]; [|done].
  by rewrite bool_decide_eq_true_2.
Qed.

Lemma finally_remove_outcome {A} (c : M A) f w :
  fst (finally c (remove_if_present f) w) = fst (c w).
Proof.
  unfold finally. destruct (c w) as [r w1].
  pose proof (remove_if_present_returns f w1) as H.
  by destruct (remove_if_present f w1) as [[[]|e] w2].
Qed.

End Outcomes.

Section Flow.
Context {tensor : Type}.
Variable caps : capabilities tensor.
Variable g : globals.

Lemma can_transcribe_guards :
  can_transcribe g = true →
  _heavy_libs_successfully_imported g = true ∧ WhisperModel g = true
  ∧ WHISPER_MODEL_INSTANCE g = true.
Proof.
  unfold can_transcribe. intros H.
  apply andb_prop in H as [H ?]. by apply andb_prop in H as [? ?].
Qed.

Lemma can_transcribe_available : can_transcribe g = true → available g = true.
Proof.
  intros H. apply can_transcribe_guards in H as (H1 & _ & H3).
  unfold available. by rewrite H1, H3.
Qed.

(** What [transcribe_audio] adds to its two callees: nothing. *)
Lemma transcribe_outcome a d w :
  can_transcribe g = true →
  fst (transcribe_audio caps g a d w)
  = match fst (preprocess_audio caps g a d (after (Enter TranscribeAudio) w)) with
    | Raise e => Raise e
    | Return p =>
      match whisper_transcribe caps p with
      | Fails c msg => Raise (Exn c msg)
      | Ok out =>
        match language_line out with
        | Fails c msg => Raise (Exn c msg)
        | Ok _ =>
          match segment_texts out with
          | Fails c msg => Raise (Exn c msg)
          | Ok texts => Return (concat texts)
          end
        end
      end
    end.
Proof.
  intros G. apply can_transcribe_guards in G as (G1 & G2 & G3).
  unfold transcribe_audio. rewrite G1, G2, G3.
  cbv [bind emit attempt negb orb]. fold (after (Enter TranscribeAudio) w).
  destruct (preprocess_audio caps g a d (after (Enter TranscribeAudio) w))
    as [r w1].
  rewrite finally_remove_outcome. cbn [fst].
  destruct r as [p|e]; go; [|done].
  destruct (whisper_transcribe caps p) as [out|c msg]; go; [|done].
  destruct (language_line out) as [l|c msg]; go; [|done].
  destruct (segment_texts out) as [texts|c msg]; by go.
Qed.

Lemma perform_outcome path w :
  fst (perform_full_audio_audit caps g path w)
  = Return (match fst (audit_steps caps g path (temp_dir_of caps w)
                         (inside caps w)) with
            | Return v => v
            | Raise e => report path e
            end).
Proof.
  destruct (audit_steps caps g path (temp_dir_of caps w) (inside caps w))
    as [r w'] eqn:H.
  by rewrite (perform_spec caps g path w r w' H).
Qed.

Lemma perform_log path w :
  log (snd (perform_full_audio_audit caps g path w))
  = log (snd (audit_steps caps g path (temp_dir_of caps w) (inside caps w)))
    ++ [Syscall Rmtree (temp_dir_of caps w)].
Proof.
  destruct (audit_steps caps g path (temp_dir_of caps w) (inside caps w))
    as [r w'] eqn:H.
  by rewrite (perform_spec caps g path w r w' H).
Qed.

Lemma audit_steps_transcribe path d w :
  available g = true →
  audit_steps caps g path d w
  = match transcribe_audio caps g path d w with
    | (Raise e, w1) => (Raise e, w1)
    | (Return t, w1) =>
      if negb (nonempty (strip t)) then (Return (empty_record path), w1)
      else
        (analysis <- analyze_text caps g t OLLAMA_MODEL_NAME ;;
         analysis <- setitem analysis (u "audio_file") (PStr (basename path)) ;;
         analysis <- setitem analysis (u "transcription") (PStr t) ;;
         ret analysis) w1
    end.
Proof.
  intros G. unfold audit_steps. rewrite (guard_passes _ G).
  unfold bind at 1.
  destruct (transcribe_audio caps g path d w) as [[t|e] w1]; [|done].
  by destruct (negb (nonempty (strip t))).
Qed.

Lemma transcribe_preprocess_raises a d w e w1 :
  can_transcribe g = true →
  preprocess_audio caps g a d (after (Enter TranscribeAudio) w) = (Raise e, w1) →
  transcribe_audio caps g a d w = (Raise e, w1).
Proof.
  intros G H. apply can_transcribe_guards in G as (G1 & G2 & G3).
  unfold transcribe_audio. rewrite G1, G2, G3.
  cbv [bind emit attempt negb orb]. fold (after (Enter TranscribeAudio) w).
  rewrite H.
  cbv [finally try_except resume raise bound remove_if_present select_clause ret].
  by rewrite isinstance_Exception.
Qed.

Lemma preprocess_missing a d w :
  can_preprocess g = true → a ∉ fs w →
  preprocess_audio caps g a d w
  = (Raise (Exn FileNotFoundError
              (u "Input file " ++ a ++ u " does not exist.")),
     World (fs w) ((log w ++ [Enter PreprocessAudio]) ++ [Syscall Exists a])
           (rand w)).
Proof.
  unfold can_preprocess. intros G Ha.
  repeat (apply andb_prop in G as [G ?]).
  unfold preprocess_audio.
  repeat match goal with H : _ = true |- _ => rewrite H; clear H end.
  cbv [bind emit exists_ negb orb raise]. cbn [fs log rand].
  by rewrite bool_decide_eq_false_2.
Qed.

End Flow.

(** X1.  An input path that does not exist is detected before anything is
    done for it.  With the libraries and the model in place,
    [perform_full_audio_audit] on a missing path returns the [FAILED]
    record with the error [Input audio file not found.]; between creating
    and removing its working directory it enters the two stages and asks
    once whether the path exists: no name is drawn, no directory is made
    and no tool or model is called. *)
Theorem X1_missing_input_is_reported_before_any_work {tensor}
    (caps : capabilities tensor) (g : globals) (path : str) (w : world) :
  can_transcribe g = true → can_preprocess g = true →
  path ∉ fs w → path ≠ temp_dir_of caps w →
  fst (perform_full_audio_audit caps g path w)
  = Return (PDict [(u "audio_file", PStr (basename path));
                   (u "error", PStr (u "Input audio file not found."));
                   (u "status", PStr (u "FAILED"))])
  ∧ log (snd (perform_full_audio_audit caps g path w))
    = log w ++ [Enter PerformFullAudioAudit;
                Syscall Mkdtemp (temp_dir_of caps w);
                Enter TranscribeAudio;
                Enter PreprocessAudio;
                Syscall Exists path;
                Syscall Rmtree (temp_dir_of caps w)].
Proof.
  intros GT GP Hp Hd.
  assert (Hs : audit_steps caps g path (temp_dir_of caps w) (inside caps w)
               = (Raise (Exn FileNotFoundError
                           (u "Input file " ++ path ++ u " does not exist.")),
                  World (fs (inside caps w))
                        (((log (inside caps w) ++ [Enter TranscribeAudio])
                          ++ [Enter PreprocessAudio]) ++ [Syscall Exists path])
                        (rand (inside caps w)))).
  { rewrite audit_steps_transcribe by by apply can_transcribe_available.
    erewrite transcribe_preprocess_raises; [done | done |].
    rewrite preprocess_missing; [done | done |].
    cbn. set_solver. }
  rewrite (perform_spec caps g path w _ _ Hs). cbn. split; [done|].
  by rewrite <- !app_assoc.
Qed.

Lemma X1_witness :
  fst (perform_full_audio_audit (studio greeting (answers (u "{}")))
         all_loaded (u "/data/missing.mp3") disk)
  = Return (PDict [(u "audio_file", PStr (u "missing.mp3"));
                   (u "error", PStr (u "Input audio file not found."));
                   (u "status", PStr (u "FAILED"))]).
Proof.
  destruct (X1_missing_input_is_reported_before_any_work
              (studio greeting (answers (u "{}"))) all_loaded
              (u "/data/missing.mp3") disk) as [H _].
  - reflexivity.
  - reflexivity.
  - intros Hin. change (u "/data/missing.mp3" ∈ ({[call_mp3]} : gset str)) in Hin.
    apply elem_of_singleton in Hin. vm_compute in Hin. discriminate Hin.
  - vm_compute. discriminate.
  - rewrite H. vm_compute. reflexivity.
Defined.


Section Conversion.
Context {tensor : Type}.
Variable caps : capabilities tensor.
Variable g : globals.

(** What [preprocess_audio] raises when the conversion exits with a
    non-zero status: the handler formats the captured output before it
    re-raises. *)
Lemma preprocess_conversion_fails a d w stderr msg written :
  can_preprocess g = true → a ∈ fs w → needs_conversion a →
  ffmpeg caps a (conversion_path caps a d w) = (NonZeroExit stderr msg, written) →
  fst (preprocess_audio caps g a d w)
  = fst (bind (stderr_text (CalledProcessError (Some stderr) msg))
           (λ _, raise (A := str) (CalledProcessError (Some stderr) msg)) w).
Proof.
  unfold can_preprocess, needs_conversion, conversion_path.
  intros G Ha Hext Hf.
  repeat (apply andb_prop in G as [G ?]).
  unfold preprocess_audio.
  destruct (splitext (basename a)) as [base ext] eqn:Hsplit. cbn [fst snd] in *.
  repeat match goal with H : _ = true |- _ => rewrite H; clear H end.
  cbv [bind emit exists_ makedirs uuid8 ret negb orb]. cbn [fs log rand].
  rewrite (bool_decide_eq_true_2 (a ∈ fs w)) by done.
  rewrite (bool_decide_eq_true_2 (lower ext ≠ u ".wav")) by done.
  cbv beta iota. cbn [fs log rand].
  destruct (bool_decide (d ∈ fs w)); cbv beta iota; cbn [fs log rand];
    rewrite finally_remove_outcome;
    cbv [try_except run_ffmpeg bind emit]; cbn [fs log rand]; rewrite Hf;
    cbv [leave_file raise select_clause]; cbn [fs log rand].
  all: decide_isinstance; cbv beta iota.
  all: unfold stderr_text, stderr_of; destruct stderr as [|b bs]; [done|].
  all: unfold decode; by destruct (utf8_decode (b :: bs)).
Qed.

Lemma preprocess_spawn_fails a d w c msg written :
  can_preprocess g = true → a ∈ fs w → needs_conversion a →
  ffmpeg caps a (conversion_path caps a d w) = (SpawnFailure c msg, written) →
  fst (preprocess_audio caps g a d w) = Raise (Exn c msg).
Proof.
  unfold can_preprocess, needs_conversion, conversion_path.
  intros G Ha Hext Hf.
  repeat (apply andb_prop in G as [G ?]).
  unfold preprocess_audio.
  destruct (splitext (basename a)) as [base ext] eqn:Hsplit. cbn [fst snd] in *.
  repeat match goal with H : _ = true |- _ => rewrite H; clear H end.
  cbv [bind emit exists_ makedirs uuid8 ret negb orb]. cbn [fs log rand].
  rewrite (bool_decide_eq_true_2 (a ∈ fs w)) by done.
  rewrite (bool_decide_eq_true_2 (lower ext ≠ u ".wav")) by done.
  cbv beta iota. cbn [fs log rand].
  destruct (bool_decide (d ∈ fs w)); cbv beta iota; cbn [fs log rand];
    rewrite finally_remove_outcome;
    cbv [try_except run_ffmpeg bind emit]; cbn [fs log rand]; rewrite Hf;
    cbv [leave_file raise select_clause]; cbn [fs log rand].
  all: by destruct (isinstance (Exn c msg) CalledProcessErrorClass).
Qed.

Lemma perform_preprocess_raises path w e :
  can_transcribe g = true →
  fst (preprocess_audio caps g path (temp_dir_of caps w)
         (after (Enter TranscribeAudio) (inside caps w))) = Raise e →
  fst (perform_full_audio_audit caps g path w) = Return (report path e).
Proof.
  intros G H. rewrite perform_outcome.
  rewrite audit_steps_transcribe by by apply can_transcribe_available.
  pose proof (transcribe_outcome caps g path (temp_dir_of caps w)
                (inside caps w) G) as T.
  rewrite H in T.
  by destruct (transcribe_audio caps g path (temp_dir_of caps w) (inside caps w))
    as [[t|e'] w1]; cbn in T; simplify_eq.
Qed.

End Conversion.

(** *** C2 *)

(** C2 fails on the code: a failure of the conversion tool does not
    always get the error string of its category.  For an existing input
    that needs conversion,
    - when [ffmpeg] exits with a non-zero status and what it wrote to its
      error stream is not valid UTF-8, the record carries the string of an
      invalid value, [Processing error: ], not [Audio conversion failed: ]:
      the handler of [preprocess_audio] decodes the stream for its log
      line, and the [UnicodeDecodeError] of that replaces the failure;
    - when [ffmpeg] cannot be started because the executable is missing,
      the record says [Input audio file not found.].
    In both cases [perform_full_audio_audit] returns a [FAILED] record
    and raises nothing. *)
Theorem C2_tool_failure_under_another_label {tensor}
    (caps : capabilities tensor) (g : globals) (path : str) (w : world) :
  can_transcribe g = true → can_preprocess g = true →
  path ∈ fs w → needs_conversion path →
  (∀ stderr msg written,
     ffmpeg caps path
       (conversion_path caps path (temp_dir_of caps w) (inside caps w))
     = (NonZeroExit stderr msg, written) →
     utf8_decode stderr = None →
     ∃ m,
       fst (perform_full_audio_audit caps g path w)
       = Return (PDict [(u "audio_file", PStr (basename path));
                        (u "error", PStr (u "Processing error: " ++ m));
                        (u "status", PStr (u "FAILED"))])
       ∧ ¬ (u "Audio conversion failed: "
            `prefix_of` u "Processing error: " ++ m))
  ∧ (∀ c msg written,
       ffmpeg caps path
         (conversion_path caps path (temp_dir_of caps w) (inside caps w))
       = (SpawnFailure c msg, written) →
       issubclass c FileNotFoundError = true →
       fst (perform_full_audio_audit caps g path w)
       = Return (PDict [(u "audio_file", PStr (basename path));
                        (u "error", PStr (u "Input audio file not found."));
                        (u "status", PStr (u "FAILED"))])).
Proof.
  intros GT GP Hp Hext. split.
  - intros stderr msg written Hf Hs. eexists. split.
    + rewrite (perform_preprocess_raises caps g path w
                 (Exn UnicodeDecodeError
                    (u "'utf-8' codec can't decode byte: invalid data")) GT).
      * unfold report, detail, category_of. repeat decide_isinstance. done.
      * erewrite preprocess_conversion_fails;
          [| done | cbn; set_solver | done | exact Hf].
        unfold bind, stderr_text. cbn.
        destruct stderr as [|b bs]; [done|]. unfold decode. by rewrite Hs.
    + intros [k Hk]. apply (f_equal head) in Hk. vm_compute in Hk.
      discriminate Hk.
  - intros c msg written Hf Hc.
    rewrite (perform_preprocess_raises caps g path w (Exn c msg) GT).
    + unfold report, detail, category_of.
      change (isinstance (Exn c msg) FileNotFoundError)
        with (issubclass c FileNotFoundError).
      rewrite Hc. cbn. by rewrite app_nil_r.
    + by erewrite preprocess_spawn_fails;
        [| done | cbn; set_solver | done | exact Hf].
Qed.

Lemma C2_witness :
  (∃ m,
     fst (perform_full_audio_audit
            (converter (NonZeroExit [255%N; 254%N]
                          (u "Command 'ffmpeg' returned non-zero exit status 1.")))
            all_loaded call_mp3 disk)
     = Return (PDict [(u "audio_file", PStr (u "call.mp3"));
                      (u "error", PStr (u "Processing error: " ++ m));
                      (u "status", PStr (u "FAILED"))]))
  ∧ fst (perform_full_audio_audit
           (converter (SpawnFailure FileNotFoundError
                         (u "[Errno 2] No such file or directory: 'ffmpeg'")))
           all_loaded call_mp3 disk)
    = Return (PDict [(u "audio_file", PStr (u "call.mp3"));
                     (u "error", PStr (u "Input audio file not found."));
                     (u "status", PStr (u "FAILED"))]).
Proof.
  assert (call_mp3 ∈ fs disk) as Hin.
  { change (call_mp3 ∈ ({[call_mp3]} : gset str)).
    apply elem_of_singleton. reflexivity. }
  assert (needs_conversion call_mp3) as Hext.
  { apply (bool_decide_eq_true_1 _). vm_compute. reflexivity. }
  split.
  - destruct (C2_tool_failure_under_another_label
                (converter (NonZeroExit [255%N; 254%N]
                              (u "Command 'ffmpeg' returned non-zero exit status 1.")))
                all_loaded call_mp3 disk eq_refl eq_refl Hin Hext) as [H _].
    destruct (H [255%N; 254%N]
                (u "Command 'ffmpeg' returned non-zero exit status 1.") false)
      as (m & Hm & _).
    + reflexivity.
    + vm_compute. reflexivity.
    + exists m. rewrite Hm. vm_compute. reflexivity.
  - destruct (C2_tool_failure_under_another_label
                (converter (SpawnFailure FileNotFoundError
                              (u "[Errno 2] No such file or directory: 'ffmpeg'")))
                all_loaded call_mp3 disk eq_refl eq_refl Hin Hext) as [_ H].
    rewrite (H FileNotFoundError
               (u "[Errno 2] No such file or directory: 'ffmpeg'") false).
    + vm_compute. reflexivity.
    + reflexivity.
    + reflexivity.
Defined.

(** X2.  When the format conversion exits with a non-zero status, the
    audit record quotes what the converter wrote to its error stream:
    [perform_full_audio_audit] returns the [FAILED] record whose error is
    [Audio conversion failed: ] followed by the decoded stderr, or by the
    text of the exception when the converter wrote nothing. *)
Theorem X2_conversion_failure_quotes_stderr {tensor}
    (caps : capabilities tensor) (g : globals) (path : str) (w : world)
    (stderr : bytes) (msg : str) (written : bool) (s : str) :
  can_transcribe g = true → can_preprocess g = true →
  path ∈ fs w → needs_conversion path →
  ffmpeg caps path
    (conversion_path caps path (temp_dir_of caps w) (inside caps w))
  = (NonZeroExit stderr msg, written) →
  utf8_decode stderr = Some s →
  fst (perform_full_audio_audit caps g path w)
  = Return (PDict [(u "audio_file", PStr (basename path));
                   (u "error",
                    PStr (u "Audio conversion failed: "
                          ++ match stderr with [] => msg | _ => s end));
                   (u "status", PStr (u "FAILED"))]).
Proof.
  intros GT GP Hp Hext Hf Hs.
  rewrite (perform_preprocess_raises caps g path w
             (CalledProcessError (Some stderr) msg) GT).
  - unfold report, detail, category_of. repeat decide_isinstance. cbn.
    destruct stderr as [|b bs]; [done|]. by rewrite Hs.
  - erewrite preprocess_conversion_fails; [| done | cbn; set_solver | done | exact Hf].
    unfold bind, stderr_text. cbn.
    destruct stderr as [|b bs]; [done|]. unfold decode. by rewrite Hs.
Qed.

Lemma X2_witness :
  fst (perform_full_audio_audit
         (converter (NonZeroExit (octets "call.mp3: Invalid data found")
                       (u "Command 'ffmpeg' returned non-zero exit status 1.")))
         all_loaded call_mp3 disk)
  = Return (PDict [(u "audio_file", PStr (u "call.mp3"));
                   (u "error",
                    PStr (u "Audio conversion failed: call.mp3: Invalid data found"));
                   (u "status", PStr (u "FAILED"))]).
Proof.
  rewrite (X2_conversion_failure_quotes_stderr
             (converter (NonZeroExit (octets "call.mp3: Invalid data found")
                           (u "Command 'ffmpeg' returned non-zero exit status 1.")))
             all_loaded call_mp3 disk
             (octets "call.mp3: Invalid data found")
             (u "Command 'ffmpeg' returned non-zero exit status 1.") false
             (u "call.mp3: Invalid data found")).
  - vm_compute. reflexivity.
  - reflexivity.
  - reflexivity.
  - change (call_mp3 ∈ ({[call_mp3]} : gset str)).
    apply elem_of_singleton. reflexivity.
  - apply (bool_decide_eq_true_1 _). vm_compute. reflexivity.
  - reflexivity.
  - vm_compute. reflexivity.
Defined.

(** X3.  When the converter's error stream is not valid UTF-8, formatting
    it for the log raises inside the handler of [preprocess_audio], and
    that exception replaces the conversion failure: the audit record
    carries the label of an invalid value, [Processing error: ], not the
    label of a failed conversion. *)
Theorem X3_undecodable_stderr_masks_conversion_failure {tensor}
    (caps : capabilities tensor) (g : globals) (path : str) (w : world)
    (stderr : bytes) (msg : str) (written : bool) :
  can_transcribe g = true → can_preprocess g = true →
  path ∈ fs w → needs_conversion path →
  ffmpeg caps path
    (conversion_path caps path (temp_dir_of caps w) (inside caps w))
  = (NonZeroExit stderr msg, written) →
  utf8_decode stderr = None →
  ∃ m,
    fst (perform_full_audio_audit caps g path w)
    = Return (PDict [(u "audio_file", PStr (basename path));
                     (u "error", PStr (u "Processing error: " ++ m));
                     (u "status", PStr (u "FAILED"))]).
Proof.
  intros GT GP Hp Hext Hf Hs. eexists.
  rewrite (perform_preprocess_raises caps g path w
             (Exn UnicodeDecodeError
                (u "'utf-8' codec can't decode byte: invalid data")) GT).
  - unfold report, detail, category_of. repeat decide_isinstance. done.
  - erewrite preprocess_conversion_fails; [| done | cbn; set_solver | done | exact Hf].
    unfold bind, stderr_text. cbn.
    destruct stderr as [|b bs]; [done|]. unfold decode. by rewrite Hs.
Qed.

Lemma X3_witness :
  ∃ m,
    fst (perform_full_audio_audit
           (converter (NonZeroExit [255%N; 254%N]
                         (u "Command 'ffmpeg' returned non-zero exit status 1.")))
           all_loaded call_mp3 disk)
    = Return (PDict [(u "audio_file", PStr (basename call_mp3));
                     (u "error", PStr (u "Processing error: " ++ m));
                     (u "status", PStr (u "FAILED"))]).
Proof.
  apply (X3_undecodable_stderr_masks_conversion_failure
           (converter (NonZeroExit [255%N; 254%N]
                         (u "Command 'ffmpeg' returned non-zero exit status 1.")))
           all_loaded call_mp3 disk [255%N; 254%N]
           (u "Command 'ffmpeg' returned non-zero exit status 1.") false).
  - reflexivity.
  - reflexivity.
  - change (call_mp3 ∈ ({[call_mp3]} : gset str)).
    apply elem_of_singleton. reflexivity.
  - apply (bool_decide_eq_true_1 _). vm_compute. reflexivity.
  - reflexivity.
  - vm_compute. reflexivity.
Defined.

(** X4.  When the converter cannot be started because its executable is
    missing, [subprocess.run] raises [FileNotFoundError]; the audit record
    then says [Input audio file not found.] although the input exists. *)
Theorem X4_missing_converter_is_reported_as_missing_input {tensor}
    (caps : capabilities tensor) (g : globals) (path : str) (w : world)
    (c : exn_class) (msg : str) (written : bool) :
  can_transcribe g = true → can_preprocess g = true →
  path ∈ fs w → needs_conversion path →
  ffmpeg caps path
    (conversion_path caps path (temp_dir_of caps w) (inside caps w))
  = (SpawnFailure c msg, written) →
  issubclass c FileNotFoundError = true →
  fst (perform_full_audio_audit caps g path w)
  = Return (PDict [(u "audio_file", PStr (basename path));
                   (u "error", PStr (u "Input audio file not found."));
                   (u "status", PStr (u "FAILED"))]).
Proof.
  intros GT GP Hp Hext Hf Hc.
  rewrite (perform_preprocess_raises caps g path w (Exn c msg) GT).
  - unfold report, detail, category_of.
    change (isinstance (Exn c msg) FileNotFoundError)
      with (issubclass c FileNotFoundError).
    rewrite Hc. cbn. by rewrite app_nil_r.
  - by erewrite preprocess_spawn_fails; [| done | cbn; set_solver | done | exact Hf].
Qed.

Lemma X4_witness :
  fst (perform_full_audio_audit
         (converter (SpawnFailure FileNotFoundError
                       (u "[Errno 2] No such file or directory: 'ffmpeg'")))
         all_loaded call_mp3 disk)
  = Return (PDict [(u "audio_file", PStr (basename call_mp3));
                   (u "error", PStr (u "Input audio file not found."));
                   (u "status", PStr (u "FAILED"))]).
Proof.
  apply (X4_missing_converter_is_reported_as_missing_input
           (converter (SpawnFailure FileNotFoundError
                         (u "[Errno 2] No such file or directory: 'ffmpeg'")))
           all_loaded call_mp3 disk FileNotFoundError
           (u "[Errno 2] No such file or directory: 'ffmpeg'") false).
  - reflexivity.
  - reflexivity.
  - change (call_mp3 ∈ ({[call_mp3]} : gset str)).
    apply elem_of_singleton. reflexivity.
  - apply (bool_decide_eq_true_1 _). vm_compute. reflexivity.
  - reflexivity.
  - reflexivity.
Defined.


(** *** The analysis *)

(** X5.  Every failure other than a [json.JSONDecodeError] is reported as
    a failed request, wherever it comes from: when [ollama.generate]
    raises, and also when [json.loads] raises something else than its
    decode error, [analyze_text] returns the fallback with the unknown
    sentiment, the single issue [Ollama request failed: ] followed by the
    text of the exception, and the fixed summary. *)
Theorem X5_other_failures_are_reported_as_request_failures {tensor}
    (caps : capabilities tensor) (g : globals) (text model : str)
    (w : world) (c : exn_class) (msg : str) :
  ollama g = true →
  issubclass c JSONDecodeError = false →
  ollama_generate caps model (prompt_head ++ text ++ prompt_tail) = Fails c msg
  ∨ (∃ resp s,
       ollama_generate caps model (prompt_head ++ text ++ prompt_tail) = Ok resp
       ∧ response_text resp = Some s
       ∧ json_loads caps s = Fails c msg) →
  fst (analyze_text caps g text model w)
  = Return (PDict [(u "sentiment", PStr (u "未知"));
                   (u "compliance_issues",
                    PList [PStr (u "Ollama request failed: " ++ msg)]);
                   (u "summary", PStr (u "LLM分析请求失败。"))]).
Proof.
  intros Ho Hc [Hg | (resp & s & Hg & Hr & Hl)]; unfold analyze_text; go.
  - change (isinstance (Exn c msg) JSONDecodeError)
      with (issubclass c JSONDecodeError). by go.
  - destruct resp as [d | [[|]|] [[]|] repr]; cbn in Hr; try done.
    + destruct (dict_get d (u "response")) as [[]|] eqn:Hd; try done.
      injection Hr as ->. go.
      change (isinstance (Exn c msg) JSONDecodeError)
        with (issubclass c JSONDecodeError). by go.
    + injection Hr as ->. go.
      change (isinstance (Exn c msg) JSONDecodeError)
        with (issubclass c JSONDecodeError). by go.
Qed.

Lemma X5_witness :
  fst (analyze_text
         (studio greeting (Fails OSError (u "[Errno 111] Connection refused")))
         all_loaded (u "您好") OLLAMA_MODEL_NAME disk)
  = Return (PDict [(u "sentiment", PStr (u "未知"));
                   (u "compliance_issues",
                    PList [PStr (u "Ollama request failed: [Errno 111] Connection refused")]);
                   (u "summary", PStr (u "LLM分析请求失败。"))]).
Proof.
  rewrite (X5_other_failures_are_reported_as_request_failures _ _ _ _ _ OSError
             (u "[Errno 111] Connection refused")).
  - vm_compute. reflexivity.
  - reflexivity.
  - reflexivity.
  - left. reflexivity.
Defined.

(** X6.  A dict response without a [response] entry, or with one that is
    not a string, is not decoded: [analyze_text] returns the fallback
    with the issue [LLM response format error] and a summary that quotes
    the first 100 characters of the transcript (the transcript in full
    when it has at most 100), and [json.loads] is not called. *)
Theorem X6_malformed_response_is_not_decoded {tensor}
    (caps : capabilities tensor) (g : globals) (text model : str)
    (w : world) (d : dict) :
  ollama g = true →
  ollama_generate caps model (prompt_head ++ text ++ prompt_tail)
  = Ok (RespDict d) →
  (∀ s, dict_get d (u "response") ≠ Some (PStr s)) →
  analyze_text caps g text model w
  = (Return (PDict [(u "sentiment", PStr (u "未知"));
                    (u "compliance_issues",
                     PList [PStr (u "LLM response format error")]);
                    (u "summary",
                     PStr (u "Ollama returned an unexpected response structure: "
                           ++ take 100 text ++ u "..."))]),
     World (fs w) (log w ++ [Enter AnalyzeText; Invoke OllamaGenerate])
           (rand w))
  ∧ (length text ≤ 100 → take 100 text = text).
Proof.
  intros Ho Hg Hd. split; [|by apply take_ge].
  unfold analyze_text. go. cbn [fs log rand]. rewrite <- !app_assoc.
  destruct (dict_get d (u "response")) as [v|] eqn:Hv; go; [|done].
  destruct v; try done. by destruct (Hd s).
Qed.

Lemma X6_witness :
  fst (analyze_text
         (studio greeting (Ok (RespDict [(u "error", PStr (u "model not found"))])))
         all_loaded (u "您好") OLLAMA_MODEL_NAME disk)
  = Return (PDict [(u "sentiment", PStr (u "未知"));
                   (u "compliance_issues",
                    PList [PStr (u "LLM response format error")]);
                   (u "summary",
                    PStr (u "Ollama returned an unexpected response structure: 您好..."))]).
Proof.
  destruct (X6_malformed_response_is_not_decoded
              (studio greeting (Ok (RespDict [(u "error", PStr (u "model not found"))])))
              all_loaded (u "您好") OLLAMA_MODEL_NAME disk
              [(u "error", PStr (u "model not found"))]) as [H _].
  - reflexivity.
  - reflexivity.
  - intros s. vm_compute. discriminate.
  - rewrite H. vm_compute. reflexivity.
Defined.

Lemma analyze_text_decodes {tensor} (caps : capabilities tensor)
    (g : globals) (text model : str) (w : world) (resp : response) (s : str)
    (v : pyval) :
  ollama g = true →
  ollama_generate caps model (prompt_head ++ text ++ prompt_tail) = Ok resp →
  response_text resp = Some s →
  json_loads caps s = Ok v →
  fst (analyze_text caps g text model w) = Return v.
Proof.
  intros Ho Hg Hr Hl. unfold analyze_text. go.
  destruct resp as [d | [[|]|] [[]|] repr]; cbn in Hr; try done.
  - destruct (dict_get d (u "response")) as [[]|] eqn:Hd; try done.
    injection Hr as ->. by go.
  - injection Hr as ->. by go.
Qed.

(** X7.  When the text of the response is valid JSON, [analyze_text]
    returns the decoded value as it is: nothing is added, removed or
    checked. *)
Theorem X7_decoded_response_is_returned_unchanged {tensor}
    (caps : capabilities tensor) (g : globals) (text model : str)
    (w : world) (resp : response) (s : str) (v : pyval) :
  ollama g = true →
  ollama_generate caps model (prompt_head ++ text ++ prompt_tail) = Ok resp →
  response_text resp = Some s →
  json_loads caps s = Ok v →
  fst (analyze_text caps g text model w) = Return v.
Proof. apply analyze_text_decodes. Qed.

Lemma X7_witness :
  fst (analyze_text
         (studio greeting
            (answers (u "{" ++ dq ++ u "sentiment" ++ dq ++ u ": "
                      ++ dq ++ u "正面" ++ dq ++ u "}")))
         all_loaded (u "您好") OLLAMA_MODEL_NAME disk)
  = Return (PDict [(u "sentiment", PStr (u "正面"))]).
Proof.
  apply (X7_decoded_response_is_returned_unchanged _ _ _ _ _
           (RespDict [(u "model", PStr OLLAMA_MODEL_NAME);
                      (u "response",
                       PStr (u "{" ++ dq ++ u "sentiment" ++ dq ++ u ": "
                             ++ dq ++ u "正面" ++ dq ++ u "}"));
                      (u "done", PBool true)])
           (u "{" ++ dq ++ u "sentiment" ++ dq ++ u ": "
            ++ dq ++ u "正面" ++ dq ++ u "}")).
  - reflexivity.
  - reflexivity.
  - vm_compute. reflexivity.
  - vm_compute. reflexivity.
Defined.

Lemma analyze_text_world {tensor} (caps : capabilities tensor)
    (g : globals) (text model : str) (w : world) :
  let w' := snd (analyze_text caps g text model w) in
  fs w' = fs w ∧ rand w' = rand w
  ∧ (log w' = log w ++ [Enter AnalyzeText]
     ∨ log w' = log w ++ [Enter AnalyzeText; Invoke OllamaGenerate]
     ∨ log w' = log w ++ [Enter AnalyzeText; Invoke OllamaGenerate;
                          Invoke JsonLoads]).
Proof.
  cbv zeta. unfold analyze_text.
  destruct (ollama g); go; cbn [fs log rand snd];
    [|split; [done|]; split; [done|]; by left].
  destruct (ollama_generate caps model _) as [resp|c msg]; go.
  2:{ destruct (isinstance (Exn c msg) JSONDecodeError); go; cbn [fs log rand snd];
      rewrite <- !app_assoc; (split; [done|]; split; [done|]; right; by left). }
  destruct resp as [d | [[|]|c msg] [[]|c' msg'] repr]; go.
  all: try (destruct (isinstance _ JSONDecodeError); go).
  all: try (destruct (dict_get d (u "response")) as [[]|] eqn:Hd; go).
  all: try (destruct (json_loads caps _) as [v'|c0 msg0]; go).
  all: try (destruct (isinstance _ JSONDecodeError); go).
  all: cbn [fs log rand snd]; rewrite <- ?app_assoc; cbn [app].
  all: split; [done|]; split; [done|]; right; by eauto.
Qed.

(** X8.  [analyze_text] touches no file and draws no random name; it
    calls [ollama.generate] at most once, never again after a failure,
    and [json.loads] at most once, after the request. *)
Theorem X8_analyze_text_footprint {tensor} (caps : capabilities tensor)
    (g : globals) (text model : str) (w : world) :
  let w' := snd (analyze_text caps g text model w) in
  fs w' = fs w ∧ rand w' = rand w
  ∧ (log w' = log w ++ [Enter AnalyzeText]
     ∨ log w' = log w ++ [Enter AnalyzeText; Invoke OllamaGenerate]
     ∨ log w' = log w ++ [Enter AnalyzeText; Invoke OllamaGenerate;
                          Invoke JsonLoads]).
Proof. apply analyze_text_world. Qed.


(** *** The orchestrator after the transcription *)

Section Merge.
Context {tensor : Type}.
Variable caps : capabilities tensor.
Variable g : globals.

(** The record of an audit whose transcript [t] is not blank, by what
    [analyze_text] does with it. *)
Lemma perform_analysis path w t :
  available g = true →
  fst (transcribe_audio caps g path (temp_dir_of caps w) (inside caps w))
  = Return t →
  nonempty (strip t) = true →
  fst (perform_full_audio_audit caps g path w)
  = Return
      (match fst (analyze_text caps g t OLLAMA_MODEL_NAME
                    (snd (transcribe_audio caps g path (temp_dir_of caps w)
                            (inside caps w)))) with
       | Raise e => report path e
       | Return (PDict rec) =>
         PDict (dict_set (dict_set rec (u "audio_file") (PStr (basename path)))
                  (u "transcription") (PStr t))
       | Return (PList _) =>
         report path
           (Exn TypeError (u "list indices must be integers or slices, not str"))
       | Return _ =>
         report path
           (Exn TypeError (u "object does not support item assignment"))
       end).
Proof.
  intros G Ht Hs. rewrite perform_outcome, audit_steps_transcribe by done.
  destruct (transcribe_audio caps g path (temp_dir_of caps w) (inside caps w))
    as [r w1]. cbn in Ht. subst r. rewrite Hs. cbn [negb snd].
  unfold bind at 1.
  destruct (analyze_text caps g t OLLAMA_MODEL_NAME w1) as [[v|e] w2]; [|done].
  by destruct v.
Qed.

End Merge.

(** X9.  On the success path the record is the analysis the model gave,
    with two entries set by the pipeline: [audio_file] is the base name of
    the input and [transcription] is the full transcript, whatever the
    analysis held under these keys; every other entry of the analysis is
    passed on unchanged. *)
Theorem X9_analysis_is_merged_into_the_record {tensor}
    (caps : capabilities tensor) (g : globals) (path : str) (w : world)
    (t : str) (resp : response) (s : str) (rec : dict) :
  available g = true → ollama g = true →
  fst (transcribe_audio caps g path (temp_dir_of caps w) (inside caps w))
  = Return t →
  nonempty (strip t) = true →
  ollama_generate caps OLLAMA_MODEL_NAME (prompt_head ++ t ++ prompt_tail)
  = Ok resp →
  response_text resp = Some s →
  json_loads caps s = Ok (PDict rec) →
  ∃ out,
    fst (perform_full_audio_audit caps g path w) = Return (PDict out)
    ∧ dict_get out (u "audio_file") = Some (PStr (basename path))
    ∧ dict_get out (u "transcription") = Some (PStr t)
    ∧ ∀ k, k ≠ u "audio_file" → k ≠ u "transcription" →
           dict_get out k = dict_get rec k.
Proof.
  intros G Ho Ht Hs Hg Hr Hl.
  rewrite (perform_analysis caps g path w t G Ht Hs).
  rewrite (analyze_text_decodes caps g _ _ _ resp s
             (PDict rec) Ho Hg Hr Hl).
  eexists. split; [done|]. split; [|split].
  - rewrite dict_get_set_ne by done. apply dict_get_set_eq.
  - apply dict_get_set_eq.
  - intros k K1 K2. by rewrite !dict_get_set_ne.
Qed.

Lemma X9_witness :
  ∃ out,
    fst (perform_full_audio_audit
           (studio greeting
              (answers (u "{" ++ dq ++ u "sentiment" ++ dq ++ u ": "
                        ++ dq ++ u "正面" ++ dq ++ u "}")))
           all_loaded call_mp3 disk) = Return (PDict out)
    ∧ dict_get out (u "transcription")
      = Some (PStr (u "您好，请问有什么可以帮您？"))
    ∧ dict_get out (u "sentiment") = Some (PStr (u "正面")).
Proof.
  destruct (X9_analysis_is_merged_into_the_record
              (studio greeting
                 (answers (u "{" ++ dq ++ u "sentiment" ++ dq ++ u ": "
                           ++ dq ++ u "正面" ++ dq ++ u "}")))
              all_loaded call_mp3 disk (u "您好，请问有什么可以帮您？")
              (RespDict [(u "model", PStr OLLAMA_MODEL_NAME);
                         (u "response",
                          PStr (u "{" ++ dq ++ u "sentiment" ++ dq ++ u ": "
                                ++ dq ++ u "正面" ++ dq ++ u "}"));
                         (u "done", PBool true)])
              (u "{" ++ dq ++ u "sentiment" ++ dq ++ u ": "
               ++ dq ++ u "正面" ++ dq ++ u "}")
              [(u "sentiment", PStr (u "正面"))])
    as (out & H & _ & Ht & Hk).
  - reflexivity.
  - reflexivity.
  - vm_compute. reflexivity.
  - vm_compute. reflexivity.
  - vm_compute. reflexivity.
  - vm_compute. reflexivity.
  - vm_compute. reflexivity.
  - exists out. split; [exact H|]. split; [exact Ht|].
    rewrite Hk; [vm_compute; reflexivity | vm_compute; discriminate
                | vm_compute; discriminate].
Defined.

(** X10.  An analysis that is valid JSON but not an object cannot take
    the two entries; the assignment raises, and the audit ends as a
    [FAILED] record of the unexpected category. *)
Theorem X10_analysis_that_is_not_an_object_fails_the_audit {tensor}
    (caps : capabilities tensor) (g : globals) (path : str) (w : world)
    (t : str) (resp : response) (s : str) (v : pyval) :
  available g = true → ollama g = true →
  fst (transcribe_audio caps g path (temp_dir_of caps w) (inside caps w))
  = Return t →
  nonempty (strip t) = true →
  ollama_generate caps OLLAMA_MODEL_NAME (prompt_head ++ t ++ prompt_tail)
  = Ok resp →
  response_text resp = Some s →
  json_loads caps s = Ok v →
  (∀ rec, v ≠ PDict rec) →
  ∃ m,
    fst (perform_full_audio_audit caps g path w)
    = Return (PDict [(u "audio_file", PStr (basename path));
                     (u "error",
                      PStr (u "An unexpected error occurred: " ++ m));
                     (u "status", PStr (u "FAILED"))]).
Proof.
  intros G Ho Ht Hs Hg Hr Hl Hv.
  rewrite (perform_analysis caps g path w t G Ht Hs).
  rewrite (analyze_text_decodes caps g _ _ _ resp s v Ho Hg Hr Hl).
  destruct v; try (by eexists). by destruct (Hv d).
Qed.

Lemma X10_witness :
  ∃ m,
    fst (perform_full_audio_audit (studio greeting (answers (u "null")))
           all_loaded call_mp3 disk)
    = Return (PDict [(u "audio_file", PStr (u "call.mp3"));
                     (u "error",
                      PStr (u "An unexpected error occurred: " ++ m));
                     (u "status", PStr (u "FAILED"))]).
Proof.
  destruct (X10_analysis_that_is_not_an_object_fails_the_audit
              (studio greeting (answers (u "null")))
              all_loaded call_mp3 disk (u "您好，请问有什么可以帮您？")
              (RespDict [(u "model", PStr OLLAMA_MODEL_NAME);
                         (u "response", PStr (u "null"));
                         (u "done", PBool true)])
              (u "null") PNone) as (m & H).
  - reflexivity.
  - reflexivity.
  - vm_compute. reflexivity.
  - vm_compute. reflexivity.
  - vm_compute. reflexivity.
  - vm_compute. reflexivity.
  - vm_compute. reflexivity.
  - intros rec. discriminate.
  - exists m. rewrite H. vm_compute. reflexivity.
Defined.

(** X11.  The one exception [analyze_text] lets out does not leave the
    pipeline: when [ollama.generate] raises a [json.JSONDecodeError], the
    [UnboundLocalError] of the handler is caught by the orchestrator and
    the audit ends as a [FAILED] record of the unexpected category. *)
Theorem X11_unbound_response_is_contained {tensor}
    (caps : capabilities tensor) (g : globals) (path : str) (w : world)
    (t : str) (c : exn_class) (msg : str) :
  available g = true → ollama g = true →
  fst (transcribe_audio caps g path (temp_dir_of caps w) (inside caps w))
  = Return t →
  nonempty (strip t) = true →
  ollama_generate caps OLLAMA_MODEL_NAME (prompt_head ++ t ++ prompt_tail)
  = Fails c msg →
  issubclass c JSONDecodeError = true →
  fst (perform_full_audio_audit caps g path w)
  = Return (PDict [(u "audio_file", PStr (basename path));
                   (u "error",
                    PStr (u "An unexpected error occurred: cannot access local variable 'response' where it is not associated with a value"));
                   (u "status", PStr (u "FAILED"))]).
Proof.
  intros G Ho Ht Hs Hg Hc.
  rewrite (perform_analysis caps g path w t G Ht Hs).
  by rewrite (analyze_text_generate_json_error caps g _ _ _ c msg Ho Hg Hc).
Qed.

Lemma X11_witness :
  fst (perform_full_audio_audit
         (studio greeting (Fails JSONDecodeError (u "Expecting value")))
         all_loaded call_mp3 disk)
  = Return (PDict [(u "audio_file", PStr (u "call.mp3"));
                   (u "error",
                    PStr (u "An unexpected error occurred: cannot access local variable 'response' where it is not associated with a value"));
                   (u "status", PStr (u "FAILED"))]).
Proof.
  rewrite (X11_unbound_response_is_contained
             (studio greeting (Fails JSONDecodeError (u "Expecting value")))
             all_loaded call_mp3 disk (u "您好，请问有什么可以帮您？")
             JSONDecodeError (u "Expecting value")).
  - vm_compute. reflexivity.
  - reflexivity.
  - reflexivity.
  - vm_compute. reflexivity.
  - vm_compute. reflexivity.
  - reflexivity.
  - reflexivity.
Defined.


(** *** What a computation adds to the log *)

Section Footprint.
Context {tensor : Type}.
Variable caps : capabilities tensor.
Variable g : globals.
Variable P : event → Prop.
Hypothesis P_syscall : ∀ op p, P (Syscall op p).

Local Abbreviation any := (λ _, True).
Local Abbreviation adds := (keeps (logs P) any any).

Lemma logs_refl w : logs P w w.
Proof. exists []. by rewrite app_nil_r. Qed.

Lemma logs_trans w1 w2 w3 : logs P w1 w2 → logs P w2 w3 → logs P w1 w3.
Proof.
  intros (e1 & L1 & F1) (e2 & L2 & F2). exists (e1 ++ e2).
  rewrite L2, L1, app_assoc. split; [done | by apply Forall_app].
Qed.

Lemma adds_silent {A} (c : M A) :
  (∀ w, log (snd (c w)) = log w) → adds c.
Proof.
  intros H w. split; [|done]. exists []. by rewrite H, app_nil_r.
Qed.

Lemma adds_emit ev : P ev → adds (emit ev).
Proof.
  intros H w. split; [|done]. exists [ev]. split; [done | by constructor].
Qed.

Lemma adds_bind {A B} (c : M A) (k : A → M B) :
  adds c → (∀ a, adds (k a)) → adds (bind c k).
Proof.
  intros Hc Hk. eapply keeps_bind with (Q' := any); [apply logs_trans | done |].
  intros a _. apply Hk.
Qed.

Lemma adds_finally {A} (c : M A) f : adds c → adds f → adds (finally c f).
Proof. intros. by apply keeps_finally; [apply logs_trans | |]. Qed.

Lemma adds_try_except {A} (c : M A) clauses :
  adds c → Forall (λ cl, ∀ e, adds (snd cl e)) clauses →
  adds (try_except c clauses).
Proof.
  intros Hc Hh.
  eapply keeps_try_except with (E' := any); [apply logs_trans | done |].
  intros e _. induction Hh as [|[k h] r Hk _ IH]; [done|]. cbn.
  destruct (isinstance e k); [apply Hk | apply IH].
Qed.

Lemma adds_attempt {A B} (c : M A) (k : outcome A → M B) :
  adds c → (∀ r, adds (k r)) → adds (bind (attempt c) k).
Proof.
  intros Hc Hk.
  eapply keeps_attempt with (E' := any) (Q' := any); [apply logs_trans | done |].
  intros r _ _. apply Hk.
Qed.

Lemma adds_ret {A} (a : A) : adds (ret a).
Proof. by apply adds_silent. Qed.

Lemma adds_raise {A} e : adds (raise (A := A) e).
Proof. by apply adds_silent. Qed.

Lemma adds_lift {A} (r : cap_result A) : adds (lift r).
Proof. destruct r; [apply adds_ret | apply adds_raise]. Qed.

Lemma adds_resume {A} (r : outcome A) : adds (resume r).
Proof. destruct r; [apply adds_ret | apply adds_raise]. Qed.

Lemma adds_call {A} c (r : cap_result A) : P (Invoke c) → adds (call c r).
Proof. intros H. apply adds_bind; [by apply adds_emit | intros _; apply adds_lift]. Qed.

Lemma adds_exists p : adds (exists_ p).
Proof.
  apply adds_bind; [by apply adds_emit | intros _; by apply adds_silent].
Qed.

Lemma adds_makedirs p : adds (makedirs p).
Proof.
  apply adds_bind; [by apply adds_emit | intros _; apply adds_silent].
  intros w. by case_bool_decide.
Qed.

Lemma adds_remove p : adds (remove p).
Proof.
  apply adds_bind; [by apply adds_emit | intros _; apply adds_silent].
  intros w. by case_bool_decide.
Qed.

Lemma adds_rmtree p : adds (rmtree p).
Proof.
  apply adds_bind; [by apply adds_emit | intros _; by apply adds_silent].
Qed.

Lemma adds_leave_file written p : adds (leave_file written p).
Proof. apply adds_silent. intros w. by destruct written. Qed.

Lemma adds_uuid8 : P (Invoke Uuid4) → adds (uuid8 caps).
Proof.
  intros H. apply adds_bind; [by apply adds_emit | intros _; by apply adds_silent].
Qed.

Lemma adds_remove_if_present f : adds (remove_if_present f).
Proof.
  destruct f as [p|]; cbn; [|apply adds_ret].
  destruct (nonempty p); [|apply adds_ret].
  apply adds_bind; [apply adds_exists|]. intros [|]; [|apply adds_ret].
  apply adds_try_except; [apply adds_remove|].
  apply Forall_cons_2; [|apply Forall_nil_2]. intros e. cbn [snd].
  apply adds_ret.
Qed.

Lemma adds_stderr_text e : adds (stderr_text e).
Proof.
  unfold stderr_text. destruct (stderr_of e) as [[|b bs]|]; try apply adds_ret.
  unfold decode. destruct (utf8_decode (b :: bs)); [apply adds_ret | apply adds_raise].
Qed.

Ltac adds_step :=
  lazymatch goal with
  | |- keeps _ _ _ (bind (attempt _) _) => apply adds_attempt; [|intros ?]
  | |- keeps _ _ _ (bind (ret ?x) ?k) =>
    change (bind (ret x) k) with (k x); cbv beta
  | |- keeps _ _ _ (bind _ _) => apply adds_bind; [|intros ?]
  | |- keeps _ _ _ (finally _ _) => apply adds_finally
  | |- keeps _ _ _ (try_except _ _) =>
    apply adds_try_except;
    [|repeat (apply Forall_cons_2; [intros ?; cbn [snd]|]);
      try apply Forall_nil_2]
  | |- keeps _ _ _ (ret _) => apply adds_ret
  | |- keeps _ _ _ (raise _) => apply adds_raise
  | |- keeps _ _ _ (lift _) => apply adds_lift
  | |- keeps _ _ _ (resume _) => apply adds_resume
  | |- keeps _ _ _ (emit _) => apply adds_emit
  | |- keeps _ _ _ (call _ _) => apply adds_call
  | |- keeps _ _ _ (exists_ _) => apply adds_exists
  | |- keeps _ _ _ (makedirs _) => apply adds_makedirs
  | |- keeps _ _ _ (leave_file _ _) => apply adds_leave_file
  | |- keeps _ _ _ (uuid8 _) => apply adds_uuid8
  | |- keeps _ _ _ (remove_if_present _) => apply adds_remove_if_present
  | |- keeps _ _ _ (stderr_text _) => apply adds_stderr_text
  | |- keeps _ _ _ (if ?b then _ else _) => destruct b
  | |- keeps _ _ _ (match ?x with _ => _ end) => destruct x
  | |- keeps _ _ _ (let '(_, _) := ?x in _) => destruct x
  end.

Hypothesis P_enter : ∀ f, P (Enter f).
Hypothesis P_invoke : ∀ c, c ≠ Ffmpeg → P (Invoke c).

Lemma adds_save path t sr : adds (save caps path t sr).
Proof. unfold save. repeat adds_step; auto. Qed.

(** An input whose extension is [.wav], in any letter case, goes to the
    loader as it is. *)
Lemma adds_preprocess_audio a d :
  lower (snd (splitext (basename a))) = u ".wav" →
  adds (preprocess_audio caps g a d).
Proof.
  intros Hext. unfold preprocess_audio.
  destruct (splitext (basename a)) as [base ext]. cbn [snd] in Hext.
  rewrite (bool_decide_eq_false_2 (lower ext ≠ u ".wav"))
    by (intros H; by apply H).
  cbv beta iota. repeat adds_step; auto.
  all: try (apply P_invoke; done).
  all: try apply adds_save.
Qed.

Lemma adds_transcribe_audio a d :
  lower (snd (splitext (basename a))) = u ".wav" →
  adds (transcribe_audio caps g a d).
Proof.
  intros Hext. unfold transcribe_audio.
  repeat adds_step; auto.
  all: try (apply P_invoke; done).
  by apply adds_preprocess_audio.
Qed.

Lemma adds_analyze_text text model : adds (analyze_text caps g text model).
Proof.
  unfold analyze_text. repeat adds_step; auto.
  all: try (apply P_invoke; done).
  all: unfold contains_response, getitem_response, raw_resp, slice100;
    repeat adds_step; auto.
Qed.

Lemma adds_setitem obj k v : adds (setitem obj k v).
Proof. destruct obj; cbn; first [apply adds_ret | apply adds_raise]. Qed.

Lemma adds_perform path :
  lower (snd (splitext (basename path))) = u ".wav" →
  adds (perform_full_audio_audit caps g path).
Proof.
  intros Hext. unfold perform_full_audio_audit, with_TemporaryDirectory.
  apply adds_bind; [by apply adds_emit|]. intros _.
  apply adds_bind.
  { intros w. split; [|done]. eexists [_]. split; [done|]. by repeat constructor. }
  intros d. apply adds_finally; [|apply adds_rmtree].
  apply adds_try_except.
  - unfold audit_steps. repeat adds_step; auto.
    all: first [by apply adds_transcribe_audio | apply adds_analyze_text
               | apply adds_setitem].
  - unfold audit_handlers.
    repeat (apply Forall_cons_2; [intros ?; cbn [snd]|]);
      try apply Forall_nil_2; repeat adds_step.
Qed.

End Footprint.

(** X12.  A recording whose extension is [.wav], in any letter case, is
    never handed to the converter: neither [preprocess_audio] nor a whole
    audit of it runs [ffmpeg]. *)
Theorem X12_wav_input_is_never_converted {tensor} (caps : capabilities tensor)
    (g : globals) (path : str) :
  lower (snd (splitext (basename path))) = u ".wav" →
  (∀ dir w, ∃ evs,
     log (snd (preprocess_audio caps g path dir w)) = log w ++ evs
     ∧ Invoke Ffmpeg ∉ evs)
  ∧ (∀ w, ∃ evs,
       log (snd (perform_full_audio_audit caps g path w)) = log w ++ evs
       ∧ Invoke Ffmpeg ∉ evs).
Proof.
  intros Hext.
  assert (F : ∀ evs, Forall (λ ev, ev ≠ Invoke Ffmpeg) evs → Invoke Ffmpeg ∉ evs).
  { intros evs H Hin. rewrite Forall_forall in H. by apply (H _ Hin). }
  split.
  - intros dir w.
    destruct (adds_preprocess_audio caps g (λ ev, ev ≠ Invoke Ffmpeg)
                ltac:(done) ltac:(done) ltac:(congruence) path dir Hext w)
      as ((evs & Hl & Hev) & _).
    exists evs. split; [done | by apply F].
  - intros w.
    destruct (adds_perform caps g (λ ev, ev ≠ Invoke Ffmpeg)
                ltac:(done) ltac:(done) ltac:(congruence) path Hext w)
      as ((evs & Hl & Hev) & _).
    exists evs. split; [done | by apply F].
Qed.

Lemma X12_witness :
  ∃ evs,
    log (snd (perform_full_audio_audit (studio greeting (answers (u "{}")))
                all_loaded (u "/data/CALL.WAV") disk)) = evs
    ∧ Invoke Ffmpeg ∉ evs.
Proof.
  destruct (X12_wav_input_is_never_converted (studio greeting (answers (u "{}")))
              all_loaded (u "/data/CALL.WAV")) as [_ H].
  - vm_compute. reflexivity.
  - destruct (H disk) as (evs & Hl & Hn). exists evs. split; [exact Hl | exact Hn].
Defined.


(** *** Counting calls *)

Section Counting.
Context {tensor : Type}.
Variable caps : capabilities tensor.
Variable g : globals.

Lemma calls_app c l l' : calls c (l ++ l') = calls c l + calls c l'.
Proof. unfold calls. by rewrite filter_app, length_app. Qed.

Lemma count_none {A} (P : A → Prop) `{∀ x, Decision (P x)} l :
  Forall (λ x, ¬ P x) l → length (filter P l) = 0.
Proof.
  induction 1 as [|x l Hx _ IH]; [done|]. by rewrite filter_cons_False.
Qed.

Lemma preparatory_counts evs :
  Forall preparatory evs →
  calls OllamaGenerate evs = 0 ∧ calls JsonLoads evs = 0
  ∧ invocations AnalyzeText evs = 0
  ∧ invocations PerformFullAudioAudit evs = 0.
Proof.
  intros H. unfold calls, invocations.
  repeat split; apply count_none; eapply Forall_impl; try exact H;
    intros ev (? & ? & ? & ?); done.
Qed.

(** The events of the [try] block: those of the transcription, then
    those of the analysis. *)
Lemma audit_steps_log path d w :
  d ≠ [] →
  ∃ evs tail,
    log (snd (audit_steps caps g path d w)) = log w ++ evs ++ tail
    ∧ Forall preparatory evs
    ∧ (tail = [] ∨ tail = [Enter AnalyzeText]
       ∨ tail = [Enter AnalyzeText; Invoke OllamaGenerate]
       ∨ tail = [Enter AnalyzeText; Invoke OllamaGenerate; Invoke JsonLoads]).
Proof.
  intros Hd. unfold audit_steps.
  destruct (negb _ || negb _).
  { exists [], []. cbn. rewrite app_nil_r. by eauto. }
  destruct (keeps_transcribe_audio caps g d Hd path w) as ([_ (evs & Hl & Hev)] & _).
  unfold bind at 1.
  destruct (transcribe_audio caps g path d w) as [[t|e] w1]; cbn in Hl.
  2:{ exists evs, []. cbn. rewrite app_nil_r. by eauto. }
  destruct (negb (nonempty (strip t))).
  { exists evs, []. cbn. rewrite app_nil_r. by eauto. }
  pose proof (analyze_text_world caps g t OLLAMA_MODEL_NAME w1) as (_ & _ & Ha).
  unfold bind at 1.
  destruct (analyze_text caps g t OLLAMA_MODEL_NAME w1) as [[v|e] w2];
    cbn in Ha.
  2:{ cbn. rewrite Hl in Ha.
      destruct Ha as [Ha | [Ha | Ha]]; rewrite Ha, <- app_assoc;
        eexists evs, _; split; try done; split; try done; eauto. }
  assert (Hw : log (snd ((analysis <- setitem v (u "audio_file")
                                        (PStr (basename path)) ;;
                          analysis <- setitem analysis (u "transcription")
                                        (PStr t) ;;
                          ret analysis) w2)) = log w2).
  { by destruct v. }
  rewrite Hw, Hl in *.
  destruct Ha as [Ha | [Ha | Ha]]; rewrite Ha, <- app_assoc;
    eexists evs, _; split; try done; split; try done; eauto.
Qed.

Ltac count_closed :=
  repeat match goal with
  | |- context [calls ?c ?l] =>
    lazymatch l with
    | log _ => fail
    | _ => let v := eval vm_compute in (calls c l) in
           change (calls c l) with v
    end
  | |- context [invocations ?f ?l] =>
    lazymatch l with
    | log _ => fail
    | _ => let v := eval vm_compute in (invocations f l) in
           change (invocations f l) with v
    end
  end.

Lemma perform_counts path w :
  let l' := log (snd (perform_full_audio_audit caps g path w)) in
  invocations PerformFullAudioAudit l'
  = invocations PerformFullAudioAudit (log w) + 1
  ∧ calls OllamaGenerate l' ≤ calls OllamaGenerate (log w) + 1
  ∧ calls JsonLoads l' - calls JsonLoads (log w)
    ≤ calls OllamaGenerate l' - calls OllamaGenerate (log w)
  ∧ invocations AnalyzeText l' ≤ invocations AnalyzeText (log w) + 1.
Proof.
  cbv zeta. rewrite perform_log.
  destruct (audit_steps_log path (temp_dir_of caps w) (inside caps w)
              (temp_dir_nonempty caps w)) as (evs & tail & -> & Hev & Ht).
  apply preparatory_counts in Hev as (E1 & E2 & E3 & E4).
  cbn [inside log]. rewrite !invocations_app, !calls_app, E1, E2, E3, E4.
  destruct Ht as [-> | [-> | [-> | ->]]]; count_closed; lia.
Qed.

End Counting.

(** X13.  One audit consults the language model at most once: between
    entering and leaving [perform_full_audio_audit] there is at most one
    entry of [analyze_text] and at most one call of [ollama.generate], and
    [json.loads] is called at most as often as [ollama.generate]. *)
Theorem X13_model_is_consulted_at_most_once {tensor} (caps : capabilities tensor)
    (g : globals) (path : str) (w : world) :
  let l' := log (snd (perform_full_audio_audit caps g path w)) in
  invocations AnalyzeText l' ≤ invocations AnalyzeText (log w) + 1
  ∧ calls OllamaGenerate l' ≤ calls OllamaGenerate (log w) + 1
  ∧ calls JsonLoads l' - calls JsonLoads (log w)
    ≤ calls OllamaGenerate l' - calls OllamaGenerate (log w).
Proof.
  cbv zeta. destruct (perform_counts caps g path w) as (_ & H1 & H2 & H3).
  done.
Qed.


(** X14.  The transcript is the texts of the recognised segments, in
    order and without separator, and the recogniser is given the enhanced
    file [preprocess_audio] returned, not the input. *)
Theorem X14_transcript_is_the_concatenation_of_segments {tensor}
    (caps : capabilities tensor) (g : globals) (audio dir : str) (w : world)
    (p : str) (out : whisper_output) (line : str) (texts : list str) :
  can_transcribe g = true →
  fst (preprocess_audio caps g audio dir (after (Enter TranscribeAudio) w))
  = Return p →
  whisper_transcribe caps p = Ok out →
  language_line out = Ok line →
  segment_texts out = Ok texts →
  fst (transcribe_audio caps g audio dir w) = Return (concat texts).
Proof.
  intros G Hp Hw Hl Hs.
  by rewrite (transcribe_outcome caps g audio dir w G), Hp, Hw, Hl, Hs.
Qed.

Lemma X14_witness :
  fst (transcribe_audio (studio greeting (answers (u "{}"))) all_loaded
         call_mp3 (u "/work") disk)
  = Return (u "您好，请问有什么可以帮您？").
Proof.
  rewrite (X14_transcript_is_the_concatenation_of_segments
             (studio greeting (answers (u "{}"))) all_loaded call_mp3
             (u "/work") disk (u "/work/call_enhanced_0f1c2e3a.wav")
             {| segment_texts := Ok greeting;
                language_line := Ok (u "Detected language: zh, probability: 0.98") |}
             (u "Detected language: zh, probability: 0.98") greeting).
  - vm_compute. reflexivity.
  - reflexivity.
  - vm_compute. reflexivity.
  - reflexivity.
  - reflexivity.
  - reflexivity.
Defined.

(** X15.  [transcribe_audio] adds nothing to a failure: an exception of
    [preprocess_audio], of the recogniser, or of reading its segments
    leaves [transcribe_audio] as the same exception. *)
Theorem X15_transcription_failures_pass_unchanged {tensor}
    (caps : capabilities tensor) (g : globals) (audio dir : str) (w : world) :
  can_transcribe g = true →
  let preprocessed :=
    fst (preprocess_audio caps g audio dir (after (Enter TranscribeAudio) w)) in
  (∀ e, preprocessed = Raise e →
        fst (transcribe_audio caps g audio dir w) = Raise e)
  ∧ (∀ p c msg,
       preprocessed = Return p →
       whisper_transcribe caps p = Fails c msg →
       fst (transcribe_audio caps g audio dir w) = Raise (Exn c msg))
  ∧ (∀ p out line c msg,
       preprocessed = Return p →
       whisper_transcribe caps p = Ok out →
       language_line out = Ok line →
       segment_texts out = Fails c msg →
       fst (transcribe_audio caps g audio dir w) = Raise (Exn c msg)).
Proof.
  intros G preprocessed. subst preprocessed.
  rewrite (transcribe_outcome caps g audio dir w G).
  split; [|split].
  - by intros e ->.
  - by intros p c msg -> ->.
  - by intros p out line c msg -> -> -> ->.
Qed.

Lemma X15_witness :
  fst (transcribe_audio (studio greeting (answers (u "{}"))) all_loaded
         (u "/data/missing.mp3") (u "/work") disk)
  = Raise (Exn FileNotFoundError
             (u "Input file /data/missing.mp3 does not exist.")).
Proof.
  destruct (X15_transcription_failures_pass_unchanged
              (studio greeting (answers (u "{}"))) all_loaded
              (u "/data/missing.mp3") (u "/work") disk) as (H & _).
  - reflexivity.
  - apply H. vm_compute. reflexivity.
Defined.


(* ===================================================================== *)
(** ** Further properties of the endpoints                                *)
(* ===================================================================== *)

Section Archive.
Context {tensor : Type}.
Variable caps : capabilities tensor.
Variable g : globals.
Variable srv : web.

Lemma perform_returns path w :
  ∃ rec,
    fst (perform_full_audio_audit caps g path w) = Return (PDict rec)
    ∧ dict_get rec (u "audio_file") = Some (PStr (basename path)).
Proof.
  destruct (audit_steps caps g path (temp_dir_of caps w) (inside caps w))
    as [r w'] eqn:H.
  rewrite (perform_spec caps g path w r w' H).
  destruct (audit_steps_spec caps g path _ _ r w' (temp_dir_nonempty caps w) H)
    as (_ & _ & V).
  destruct r as [v|e]; [|by eexists].
  destruct (V v eq_refl) as (rec & -> & Hrec). by exists rec.
Qed.

(** The entry the loop appends for a supported file. *)
Lemma audit_item_supported root item_name results w :
  supported item_name = true →
  ∃ rec,
    fst (perform_full_audio_audit caps g (join root item_name) w)
    = Return (PDict rec)
    ∧ audit_item caps g srv root item_name results w
      = (Return (results ++
                   [match validate srv (PDict rec) with
                    | Ok r => r
                    | Fails c msg => failure_entry item_name (Exn c msg)
                    end]),
         snd (perform_full_audio_audit caps g (join root item_name) w)).
Proof.
  unfold supported. intros Hs.
  destruct (perform_returns (join root item_name) w) as (rec & Hp & _).
  exists rec. split; [done|].
  unfold audit_item. rewrite Hs. unfold try_except, bind.
  destruct (perform_full_audio_audit caps g (join root item_name) w)
    as [r w1]. cbn in Hp. subst r. cbn [snd].
  destruct (validate srv (PDict rec)) as [r|c msg]; [done|].
  cbn. by rewrite isinstance_Exception.
Qed.

Lemma audit_item_unsupported root item_name results w :
  supported item_name = false →
  audit_item caps g srv root item_name results w = (Return results, w).
Proof. unfold supported, audit_item. by intros ->. Qed.

Lemma audit_files_counts root files results w :
  ∃ rs w',
    audit_files caps g srv root files results w = (Return (results ++ rs), w')
    ∧ length rs = length (filter (λ n, supported n = true) files)
    ∧ invocations PerformFullAudioAudit (log w')
      = invocations PerformFullAudioAudit (log w) + length rs.
Proof.
  revert results w. induction files as [|n files IH]; intros results w.
  { exists [], w. cbn. rewrite app_nil_r. split; [done|]. split; [done | lia]. }
  cbn [audit_files]. unfold bind.
  destruct (supported n) eqn:Hn.
  - destruct (audit_item_supported root n results w Hn) as (rec & _ & ->).
    destruct (IH (results ++ [match validate srv (PDict rec) with
                              | Ok r => r
                              | Fails c msg => failure_entry n (Exn c msg)
                              end])
                 (snd (perform_full_audio_audit caps g (join root n) w)))
      as (rs & w' & -> & Hlen & Hinv).
    eexists (_ :: rs), w'. rewrite <- app_assoc. split; [done|].
    rewrite filter_cons_True by done. cbn [length]. split; [by rewrite Hlen|].
    rewrite Hinv.
    destruct (perform_counts caps g (join root n) w) as (-> & _). lia.
  - rewrite (audit_item_unsupported root n results w Hn).
    destruct (IH results w) as (rs & w' & -> & Hlen & Hinv).
    exists rs, w'. split; [done|].
    rewrite filter_cons_False by (by rewrite Hn). done.
Qed.

Lemma audit_walk_counts walk results w :
  ∃ rs w',
    audit_walk caps g srv walk results w = (Return (results ++ rs), w')
    ∧ length rs = audited walk
    ∧ invocations PerformFullAudioAudit (log w')
      = invocations PerformFullAudioAudit (log w) + length rs.
Proof.
  revert results w. induction walk as [|[root files] walk IH]; intros results w.
  { exists [], w. cbn. rewrite app_nil_r. split; [done|]. split; [done | lia]. }
  cbn [audit_walk]. unfold bind.
  destruct (audit_files_counts root files results w) as (rs1 & w1 & -> & L1 & I1).
  destruct (IH (results ++ rs1) w1) as (rs2 & w2 & -> & L2 & I2).
  exists (rs1 ++ rs2), w2. rewrite app_assoc. split; [done|].
  unfold audited in *. cbn [flat_map snd].
  rewrite filter_app, !length_app, L1, L2. split; [done|].
  rewrite I2, I1. lia.
Qed.

Lemma process_archive_extracted filename zip dir walk w :
  fst (store_upload srv zip) = Ok tt →
  unzip srv zip dir = Extracted walk →
  ∃ rs w',
    process_archive caps g srv filename zip dir w
    = (Return {| message := if bool_decide (rs = [])
                            then u "ZIP file processed with errors."
                            else u "ZIP file processed.";
                 processed_files := rs;
                 errors := if bool_decide (rs = [])
                           then [u "No supported audio files found in the ZIP archive."]
                           else [] |}, w')
    ∧ length rs = audited walk
    ∧ invocations PerformFullAudioAudit (log w')
      = invocations PerformFullAudioAudit (log w) + audited walk
    ∧ ∃ w1, fst (audit_walk caps g srv walk [] w1) = Return rs.
Proof.
  intros Hstore Hunzip. unfold process_archive.
  destruct (store_upload srv zip) as [stored written]. cbn in Hstore.
  subst stored.
  cbv [bind leave_file lift ret makedirs emit extractall try_except].
  rewrite Hunzip.
  destruct written; cbn [fs log rand];
    (destruct (bool_decide (dir ∈ _)); cbn [fs log rand]).
  all: match goal with
       | |- context [audit_walk _ _ _ ?wk [] ?W] =>
         destruct (audit_walk_counts wk [] W) as (rs & w' & E & L & I);
         rewrite E; exists rs, w'; cbn [app]; split;
         [by destruct (bool_decide (rs = []))
         | split; [done|]; split; [|exists W; by rewrite E]]
       end.
  all: rewrite I, L; cbn [log];
    rewrite invocations_app, invocations_other by done; lia.
Qed.

Lemma cleanup_returns zip dir w : fst (cleanup zip dir w) = Return tt.
Proof. apply cleanup_quiet. Qed.

Lemma finally_cleanup_outcome {A} (c : M A) zip dir w :
  fst (finally c (cleanup zip dir) w) = fst (c w).
Proof.
  unfold finally. destruct (c w) as [r w1].
  pose proof (cleanup_returns zip dir w1) as H.
  by destruct (cleanup zip dir w1) as [[[]|e] w2].
Qed.

Lemma cleanup_removes zip dir w :
  (zip ∉ fs (snd (cleanup zip dir w))) ∧ (dir ∉ fs (snd (cleanup zip dir w))).
Proof.
  unfold cleanup. cbv [bind exists_ emit try_except remove rmtree ret].
  cbn [fs log rand].
  destruct (bool_decide (zip ∈ fs w)) eqn:Hz; cbn [fs log rand].
  - rewrite Hz. cbn [fs log rand].
    destruct (bool_decide (dir ∈ fs w ∖ {[zip]})) eqn:Hd; cbn [fs log rand snd].
    + split; [|rewrite elem_of_filter; intros [N _]; apply N; by left].
      rewrite elem_of_filter. set_solver.
    + apply bool_decide_eq_false in Hd. split; [set_solver | done].
  - apply bool_decide_eq_false in Hz.
    destruct (bool_decide (dir ∈ fs w)) eqn:Hd; cbn [fs log rand snd].
    + split; [|rewrite elem_of_filter; intros [N _]; apply N; by left].
      rewrite elem_of_filter. set_solver.
    + apply bool_decide_eq_false in Hd. done.
Qed.

(** The world in which the [try] block of [upload_zip] starts. *)
Lemma upload_zip_accepted (filename : str) (w : world) :
  filename ≠ [] → endswith filename (u ".zip") = true →
  ∃ w2,
    fs w2 = fs w
    ∧ log w2 = log w ++ [Invoke Uuid4; Invoke Uuid4]
    ∧ (∀ r w3 r',
         process_archive caps g srv filename (zip_path caps filename w)
           (extraction_path caps w) w2 = (r, w3) →
         r' = match r with
              | Return resp => Return resp
              | Raise e =>
                if isinstance e HTTPException then Raise e
                else Return {| message := u "Unexpected server error during ZIP processing.";
                               processed_files := [];
                               errors := [u "An unexpected server error occurred: "
                                          ++ str_of_exn e] |}
              end →
         fst (upload_zip caps g srv (Some filename) w) = r'
         ∧ snd (upload_zip caps g srv (Some filename) w)
           = snd (cleanup (zip_path caps filename w) (extraction_path caps w) w3)).
Proof.
  intros Hne Hz. destruct filename as [|c f]; [done|].
  eexists (World (fs w) ((log w ++ [Invoke Uuid4]) ++ [Invoke Uuid4])
             (S (S (rand w)))).
  split; [done|]. split; [by rewrite <- app_assoc|].
  intros r w3 r' Hp ->.
  unfold upload_zip. rewrite Hz.
  cbv [negb bind uuid32 emit]. cbn [fs log rand].
  fold (zip_path caps (c :: f) w). fold (extraction_path caps w).
  rewrite finally_cleanup_outcome, finally_world.
  unfold try_except. rewrite Hp.
  destruct r as [resp|e]; [done|]. cbn [select_clause].
  destruct (isinstance e HTTPException); [done|].
  by rewrite isinstance_Exception.
Qed.

End Archive.


Section ArchiveErrors.
Context {tensor : Type}.
Variable caps : capabilities tensor.
Variable g : globals.
Variable srv : web.

Lemma process_archive_not_a_zip filename zip dir w :
  fst (store_upload srv zip) = Ok tt →
  unzip srv zip dir = NotAZip →
  ∃ w',
    process_archive caps g srv filename zip dir w
    = (Return {| message := u "Error processing ZIP file.";
                 processed_files := [];
                 errors := [u "Uploaded file '" ++ filename
                            ++ u "' is not a valid ZIP file or is corrupted."] |},
       w')
    ∧ log w' = log w ++ [Syscall Makedirs dir].
Proof.
  intros Hstore Hunzip. unfold process_archive.
  destruct (store_upload srv zip) as [stored written]. cbn in Hstore.
  subst stored.
  cbv [bind leave_file lift ret makedirs emit extractall try_except raise].
  rewrite Hunzip. cbn [select_clause].
  assert (isinstance (Exn BadZipFile (u "File is not a zip file")) BadZipFile
          = true) as -> by (vm_compute; reflexivity).
  destruct written; cbn [fs log rand];
    (destruct (bool_decide (dir ∈ _)); cbn [fs log rand]; by eexists).
Qed.

Lemma process_archive_store_fails filename zip dir w c msg :
  fst (store_upload srv zip) = Fails c msg →
  ∃ w',
    process_archive caps g srv filename zip dir w = (Raise (Exn c msg), w')
    ∧ log w' = log w.
Proof.
  intros Hstore. unfold process_archive.
  destruct (store_upload srv zip) as [stored written]. cbn in Hstore.
  subst stored. cbv [bind leave_file lift raise].
  destruct written; by eexists.
Qed.

End ArchiveErrors.

(** X16.  Every entry of the archive with a supported extension is
    audited exactly once and yields exactly one entry of the answer,
    whether its audit succeeded, failed or could not be validated; the
    other entries are not audited and yield nothing. *)
Theorem X16_every_supported_entry_is_audited_once {tensor}
    (caps : capabilities tensor) (g : globals) (srv : web) (filename : str)
    (walk : list (str * list str)) (w : world) :
  filename ≠ [] →
  endswith filename (u ".zip") = true →
  fst (store_upload srv (zip_path caps filename w)) = Ok tt →
  unzip srv (zip_path caps filename w) (extraction_path caps w)
  = Extracted walk →
  ∃ resp,
    fst (upload_zip caps g srv (Some filename) w) = Return resp
    ∧ length (processed_files resp) = audited walk
    ∧ invocations PerformFullAudioAudit
        (log (snd (upload_zip caps g srv (Some filename) w)))
      = invocations PerformFullAudioAudit (log w) + audited walk.
Proof.
  intros Hne Hz Hstore Hunzip.
  destruct (upload_zip_accepted caps g srv filename w Hne Hz)
    as (w2 & _ & Hl2 & H).
  destruct (process_archive_extracted caps g srv filename _ _ walk w2
              Hstore Hunzip) as (rs & w3 & Hp & Hlen & Hinv & _).
  destruct (H _ _ _ Hp eq_refl) as [-> ->].
  eexists. split; [done|]. split; [done|].
  destruct (cleanup_quiet (zip_path caps filename w) (extraction_path caps w) w3)
    as (_ & evs & -> & Hq).
  rewrite invocations_app, Hq, Hinv, Hl2, invocations_app.
  change (invocations PerformFullAudioAudit [Invoke Uuid4; Invoke Uuid4]) with 0.
  lia.
Qed.

Lemma X16_witness :
  ∃ resp,
    fst (upload_zip (studio greeting (answers (u "{}"))) all_loaded
           (service (λ dest, Extracted [(dest, [u "a.wav"; u "notes.txt"; u "b.MP3"])]))
           (Some (u "calls.zip")) disk) = Return resp
    ∧ length (processed_files resp) = 2.
Proof.
  destruct (X16_every_supported_entry_is_audited_once
              (studio greeting (answers (u "{}"))) all_loaded
              (service (λ dest, Extracted [(dest, [u "a.wav"; u "notes.txt"; u "b.MP3"])]))
              (u "calls.zip")
              [(extraction_path (studio greeting (answers (u "{}"))) disk,
                [u "a.wav"; u "notes.txt"; u "b.MP3"])] disk)
    as (resp & H & Hlen & _).
  - vm_compute. discriminate.
  - vm_compute. reflexivity.
  - reflexivity.
  - reflexivity.
  - exists resp. split; [exact H|]. rewrite Hlen. vm_compute. reflexivity.
Defined.

(** X17.  As soon as the archive holds one supported entry the answer
    says [ZIP file processed.] and lists no error, whatever became of the
    audits: the failure of a file is reported in its own entry only. *)
Theorem X17_file_failures_are_not_archive_errors {tensor}
    (caps : capabilities tensor) (g : globals) (srv : web) (filename : str)
    (walk : list (str * list str)) (w : world) :
  filename ≠ [] →
  endswith filename (u ".zip") = true →
  fst (store_upload srv (zip_path caps filename w)) = Ok tt →
  unzip srv (zip_path caps filename w) (extraction_path caps w)
  = Extracted walk →
  0 < audited walk →
  ∃ resp,
    fst (upload_zip caps g srv (Some filename) w) = Return resp
    ∧ message resp = u "ZIP file processed."
    ∧ errors resp = [].
Proof.
  intros Hne Hz Hstore Hunzip Hpos.
  destruct (upload_zip_accepted caps g srv filename w Hne Hz)
    as (w2 & _ & _ & H).
  destruct (process_archive_extracted caps g srv filename _ _ walk w2
              Hstore Hunzip) as (rs & w3 & Hp & Hlen & _ & _).
  destruct (H _ _ _ Hp eq_refl) as [-> _].
  eexists. split; [done|]. cbn.
  rewrite bool_decide_eq_false_2; [done|]. intros ->. cbn in Hlen. lia.
Qed.

Lemma X17_witness :
  ∃ resp,
    fst (upload_zip (studio greeting (answers (u "null"))) all_loaded
           (service (λ dest, Extracted [(dest, [u "a.wav"])]))
           (Some (u "calls.zip")) disk) = Return resp
    ∧ message resp = u "ZIP file processed."
    ∧ errors resp = [].
Proof.
  apply (X17_file_failures_are_not_archive_errors
           (studio greeting (answers (u "null"))) all_loaded
           (service (λ dest, Extracted [(dest, [u "a.wav"])]))
           (u "calls.zip")
           [(extraction_path (studio greeting (answers (u "null"))) disk,
             [u "a.wav"])] disk).
  - vm_compute. discriminate.
  - vm_compute. reflexivity.
  - reflexivity.
  - reflexivity.
  - vm_compute. lia.
Defined.

(** X18.  An upload named [*.zip] that is not an archive is answered, not
    refused: the endpoint returns [Error processing ZIP file.] with one
    error that names the upload, no processed file, and audits nothing. *)
Theorem X18_upload_that_is_not_an_archive {tensor}
    (caps : capabilities tensor) (g : globals) (srv : web) (filename : str)
    (w : world) :
  filename ≠ [] →
  endswith filename (u ".zip") = true →
  fst (store_upload srv (zip_path caps filename w)) = Ok tt →
  unzip srv (zip_path caps filename w) (extraction_path caps w) = NotAZip →
  fst (upload_zip caps g srv (Some filename) w)
  = Return {| message := u "Error processing ZIP file.";
              processed_files := [];
              errors := [u "Uploaded file '" ++ filename
                         ++ u "' is not a valid ZIP file or is corrupted."] |}
  ∧ invocations PerformFullAudioAudit
      (log (snd (upload_zip caps g srv (Some filename) w)))
    = invocations PerformFullAudioAudit (log w).
Proof.
  intros Hne Hz Hstore Hunzip.
  destruct (upload_zip_accepted caps g srv filename w Hne Hz)
    as (w2 & _ & Hl2 & H).
  destruct (process_archive_not_a_zip caps g srv filename _ _ w2
              Hstore Hunzip) as (w3 & Hp & Hl3).
  destruct (H _ _ _ Hp eq_refl) as [-> ->]. split; [done|].
  destruct (cleanup_quiet (zip_path caps filename w) (extraction_path caps w) w3)
    as (_ & evs & -> & Hq).
  rewrite invocations_app, Hq, Hl3, Hl2, !invocations_app.
  change (invocations PerformFullAudioAudit [Invoke Uuid4; Invoke Uuid4]) with 0.
  rewrite invocations_other by done. lia.
Qed.

Lemma X18_witness :
  fst (upload_zip (studio greeting (answers (u "{}"))) all_loaded
         (service (λ _, NotAZip)) (Some (u "calls.zip")) disk)
  = Return {| message := u "Error processing ZIP file.";
              processed_files := [];
              errors := [u "Uploaded file 'calls.zip' is not a valid ZIP file or is corrupted."] |}.
Proof.
  destruct (X18_upload_that_is_not_an_archive
              (studio greeting (answers (u "{}"))) all_loaded
              (service (λ _, NotAZip)) (u "calls.zip") disk) as [H _].
  - vm_compute. discriminate.
  - vm_compute. reflexivity.
  - reflexivity.
  - reflexivity.
  - rewrite H. vm_compute. reflexivity.
Defined.

(** X19.  When the upload cannot be stored the endpoint still answers:
    the failure becomes the single error of an [Unexpected server error
    during ZIP processing.] answer with no processed file, and nothing is
    audited. *)
Theorem X19_upload_that_cannot_be_stored {tensor}
    (caps : capabilities tensor) (g : globals) (srv : web) (filename : str)
    (w : world) (c : exn_class) (msg : str) :
  filename ≠ [] →
  endswith filename (u ".zip") = true →
  fst (store_upload srv (zip_path caps filename w)) = Fails c msg →
  issubclass c HTTPException = false →
  fst (upload_zip caps g srv (Some filename) w)
  = Return {| message := u "Unexpected server error during ZIP processing.";
              processed_files := [];
              errors := [u "An unexpected server error occurred: " ++ msg] |}
  ∧ invocations PerformFullAudioAudit
      (log (snd (upload_zip caps g srv (Some filename) w)))
    = invocations PerformFullAudioAudit (log w).
Proof.
  intros Hne Hz Hstore Hc.
  destruct (upload_zip_accepted caps g srv filename w Hne Hz)
    as (w2 & _ & Hl2 & H).
  destruct (process_archive_store_fails caps g srv filename _
              (extraction_path caps w) w2 c msg Hstore) as (w3 & Hp & Hl3).
  destruct (H _ _ _ Hp eq_refl) as [-> ->].
  change (isinstance (Exn c msg) HTTPException) with (issubclass c HTTPException).
  rewrite Hc. split; [done|].
  destruct (cleanup_quiet (zip_path caps filename w) (extraction_path caps w) w3)
    as (_ & evs & -> & Hq).
  rewrite invocations_app, Hq, Hl3, Hl2, !invocations_app.
  change (invocations PerformFullAudioAudit [Invoke Uuid4; Invoke Uuid4]) with 0.
  lia.
Qed.

Lemma X19_witness :
  fst (upload_zip (studio greeting (answers (u "{}"))) all_loaded read_only
         (Some (u "calls.zip")) disk)
  = Return {| message := u "Unexpected server error during ZIP processing.";
              processed_files := [];
              errors := [u "An unexpected server error occurred: [Errno 30] Read-only file system"] |}.
Proof.
  destruct (X19_upload_that_cannot_be_stored
              (studio greeting (answers (u "{}"))) all_loaded read_only
              (u "calls.zip") disk OSError
              (u "[Errno 30] Read-only file system")) as [H _].
  - vm_compute. discriminate.
  - vm_compute. reflexivity.
  - reflexivity.
  - reflexivity.
  - rewrite H. vm_compute. reflexivity.
Defined.

(** X20.  Whatever happens to an accepted upload, the saved archive and
    the extraction directory are gone when [upload_zip] ends. *)
Theorem X20_archive_and_extraction_directory_are_removed {tensor}
    (caps : capabilities tensor) (g : globals) (srv : web) (filename : str)
    (w : world) :
  filename ≠ [] →
  endswith filename (u ".zip") = true →
  let w' := snd (upload_zip caps g srv (Some filename) w) in
  (zip_path caps filename w ∉ fs w') ∧ (extraction_path caps w ∉ fs w').
Proof.
  intros Hne Hz.
  destruct (upload_zip_accepted caps g srv filename w Hne Hz)
    as (w2 & _ & _ & H).
  destruct (process_archive caps g srv filename (zip_path caps filename w)
              (extraction_path caps w) w2) as [r w3] eqn:Hp.
  destruct (H _ _ _ eq_refl eq_refl) as [_ Hw]. cbv zeta. rewrite Hw.
  apply cleanup_removes.
Qed.

Lemma X20_witness :
  let caps := studio greeting (answers (u "{}")) in
  let w' := snd (upload_zip caps all_loaded
                   (service (λ dest, Extracted [(dest, [u "a.wav"])]))
                   (Some (u "calls.zip")) disk) in
  (zip_path caps (u "calls.zip") disk ∉ fs w')
  ∧ (extraction_path caps disk ∉ fs w').
Proof.
  intros caps.
  apply (X20_archive_and_extraction_directory_are_removed caps all_loaded
           (service (λ dest, Extracted [(dest, [u "a.wav"])]))
           (u "calls.zip") disk).
  - vm_compute. discriminate.
  - vm_compute. reflexivity.
Defined.

(** X21.  The only exception that leaves [upload_zip] is an
    [HTTPException]: every other failure, of storing, extracting or
    auditing, ends in an answer. *)
Theorem X21_upload_zip_raises_only_http_errors {tensor}
    (caps : capabilities tensor) (g : globals) (srv : web)
    (filename : option str) (w : world) (e : exn) :
  fst (upload_zip caps g srv filename w) = Raise e →
  isinstance e HTTPException = true.
Proof.
  destruct filename as [[|c f]|]; try by intros [= <-].
  destruct (endswith (c :: f) (u ".zip")) eqn:Hz.
  2:{ unfold upload_zip. rewrite Hz. by intros [= <-]. }
  destruct (upload_zip_accepted caps g srv (c :: f) w ltac:(done) Hz)
    as (w2 & _ & _ & H).
  destruct (process_archive caps g srv (c :: f) (zip_path caps (c :: f) w)
              (extraction_path caps w) w2) as [r w3] eqn:Hp.
  destruct (H _ _ _ eq_refl eq_refl) as [-> _].
  destruct r as [resp|e']; [done|].
  destruct (isinstance e' HTTPException) eqn:He; [|done].
  by intros [= <-].
Qed.

Lemma X21_witness :
  isinstance (Exn HTTPException
                (u "400: Invalid file type. Only .zip files are accepted."))
    HTTPException = true.
Proof.
  apply (X21_upload_zip_raises_only_http_errors
           (studio greeting (answers (u "{}"))) all_loaded read_only
           (Some (u "calls.tar")) disk).
  vm_compute. reflexivity.
Defined.

Section ArchiveWalk.
Context {tensor : Type}.
Variable caps : capabilities tensor.
Variable g : globals.
Variable srv : web.

(** The answer for an archive that is stored and extracted, by what the
    walk yields in the world it starts in. *)
Lemma process_archive_walk filename zip dir walk w rs w' :
  fst (store_upload srv zip) = Ok tt →
  unzip srv zip dir = Extracted walk →
  let made := snd (makedirs dir (saved (snd (store_upload srv zip)) zip w)) in
  audit_walk caps g srv walk []
    (World (fs made ∪ list_to_set
                        (flat_map (λ '(root, files),
                                     root :: map (join root) files) walk))
           (log made) (rand made))
  = (Return rs, w') →
  process_archive caps g srv filename zip dir w
  = (Return {| message := if bool_decide (rs = [])
                          then u "ZIP file processed with errors."
                          else u "ZIP file processed.";
               processed_files := rs;
               errors := if bool_decide (rs = [])
                         then [u "No supported audio files found in the ZIP archive."]
                         else [] |}, w').
Proof.
  intros Hstore Hunzip made. subst made. unfold process_archive.
  destruct (store_upload srv zip) as [stored written]. cbn in Hstore.
  subst stored.
  cbv [bind leave_file lift ret makedirs emit extractall try_except saved snd].
  rewrite Hunzip.
  destruct written; cbn [fs log rand];
    (destruct (bool_decide (dir ∈ _)); cbn [fs log rand]; intros ->;
     cbn [app]; by destruct (bool_decide (rs = []))).
Qed.

Lemma upload_zip_answer (filename : str) (w : world) resp w3 :
  filename ≠ [] → endswith filename (u ".zip") = true →
  process_archive caps g srv filename (zip_path caps filename w)
    (extraction_path caps w)
    (World (fs w) ((log w ++ [Invoke Uuid4]) ++ [Invoke Uuid4])
           (S (S (rand w))))
  = (Return resp, w3) →
  fst (upload_zip caps g srv (Some filename) w) = Return resp.
Proof.
  intros Hne Hz Hp. destruct filename as [|c f]; [done|].
  unfold upload_zip. rewrite Hz.
  cbv [negb bind uuid32 emit]. cbn [fs log rand].
  fold (zip_path caps (c :: f) w). fold (extraction_path caps w).
  rewrite finally_cleanup_outcome.
  unfold try_except. by rewrite Hp.
Qed.

End ArchiveWalk.

(** X22.  The entry of a file is the validated record of its audit: the
    record [perform_full_audio_audit] returns for the extracted file, in
    the world where the walk starts, is what is validated.  When it does
    not validate, the entry names the file as the archive does, carries
    the status [FAILED] and the error [Failed to process audio file: ]
    followed by the text of the validation error.  Shown for an archive
    with one supported file. *)
Theorem X22_unvalidated_record_becomes_a_failed_entry {tensor}
    (caps : capabilities tensor) (g : globals) (srv : web) (filename : str)
    (root item_name : str) (w : world) :
  filename ≠ [] →
  endswith filename (u ".zip") = true →
  fst (store_upload srv (zip_path caps filename w)) = Ok tt →
  unzip srv (zip_path caps filename w) (extraction_path caps w)
  = Extracted [(root, [item_name])] →
  lower (snd (splitext item_name)) ∈ SUPPORTED_AUDIO_EXTENSIONS →
  ∃ rec,
    fst (perform_full_audio_audit caps g (join root item_name)
           (unpacked caps srv filename [(root, [item_name])] w))
    = Return (PDict rec)
    ∧ dict_get rec (u "audio_file")
      = Some (PStr (basename (join root item_name)))
    ∧ fst (upload_zip caps g srv (Some filename) w)
      = Return
          {| message := u "ZIP file processed.";
             processed_files :=
               [match validate srv (PDict rec) with
                | Ok r => r
                | Fails c msg =>
                  {| audio_file := item_name;
                     transcription := None; sentiment := None;
                     compliance_issues := None; summary := None;
                     error := Some (u "Failed to process audio file: " ++ msg);
                     status := Some (u "FAILED") |}
                end];
             errors := [] |}.
Proof.
  intros Hne Hz Hstore Hunzip Hsup.
  assert (supported item_name = true) as Hs by by apply bool_decide_eq_true_2.
  set (W := unpacked caps srv filename [(root, [item_name])] w).
  destruct (perform_returns caps g (join root item_name) W) as (rec & Hr & Ha).
  destruct (audit_item_supported caps g srv root item_name [] W Hs)
    as (rec' & Hr' & Hi).
  rewrite Hr in Hr'. injection Hr' as <-.
  exists rec. split; [done|]. split; [done|].
  apply (upload_zip_answer caps g srv filename w _
           (snd (perform_full_audio_audit caps g (join root item_name) W))
           Hne Hz).
  erewrite (process_archive_walk caps g srv filename _ _ _ _
              [match validate srv (PDict rec) with
               | Ok r => r
               | Fails c msg => failure_entry item_name (Exn c msg)
               end] _ Hstore Hunzip).
  - reflexivity.
  - change (audit_walk caps g srv [(root, [item_name])] [] W
            = (Return [match validate srv (PDict rec) with
                       | Ok r => r
                       | Fails c msg => failure_entry item_name (Exn c msg)
                       end],
               snd (perform_full_audio_audit caps g (join root item_name) W))).
    cbn [audit_walk audit_files]. unfold bind. by rewrite Hi.
Qed.

Lemma X22_witness :
  let caps := studio greeting
                (answers (u "{" ++ dq ++ u "summary" ++ dq ++ u ": 3}")) in
  let srv := service (λ dest, Extracted [(dest, [u "a.wav"])]) in
  ∃ rec,
    fst (perform_full_audio_audit caps all_loaded
           (join (extraction_path caps disk) (u "a.wav"))
           (unpacked caps srv (u "calls.zip")
              [(extraction_path caps disk, [u "a.wav"])] disk))
    = Return (PDict rec)
    ∧ fst (upload_zip caps all_loaded srv (Some (u "calls.zip")) disk)
      = Return
          {| message := u "ZIP file processed.";
             processed_files :=
               [match validate srv (PDict rec) with
                | Ok r => r
                | Fails c msg =>
                  {| audio_file := u "a.wav";
                     transcription := None; sentiment := None;
                     compliance_issues := None; summary := None;
                     error := Some (u "Failed to process audio file: " ++ msg);
                     status := Some (u "FAILED") |}
                end];
             errors := [] |}.
Proof.
  intros caps srv.
  destruct (X22_unvalidated_record_becomes_a_failed_entry caps all_loaded srv
              (u "calls.zip") (extraction_path caps disk) (u "a.wav") disk)
    as (rec & H1 & _ & H2).
  - vm_compute. discriminate.
  - vm_compute. reflexivity.
  - reflexivity.
  - reflexivity.
  - apply (bool_decide_eq_true_1 _). vm_compute. reflexivity.
  - exists rec. split; [exact H1 | exact H2].
Defined.

(** A record whose [summary] is a number does not validate. *)
Example unvalidated_entry :
  fst (upload_zip
         (studio greeting
            (answers (u "{" ++ dq ++ u "summary" ++ dq ++ u ": 3}")))
         all_loaded
         (service (λ dest, Extracted [(dest, [u "a.wav"])]))
         (Some (u "calls.zip")) disk)
  = Return
      {| message := u "ZIP file processed.";
         processed_files :=
           [{| audio_file := u "a.wav";
               transcription := None; sentiment := None;
               compliance_issues := None; summary := None;
               error := Some (u "Failed to process audio file: 1 validation error for AudioAuditResponse");
               status := Some (u "FAILED") |}];
         errors := [] |}.
Proof. vm_compute. reflexivity. Qed.


(** *** The single-file endpoint *)

Lemma contains_occurs (needle s : str) :
  contains needle s = true ↔ ∃ pre post, s = pre ++ needle ++ post.
Proof.
  induction s as [|c r IH]; cbn [contains].
  - rewrite orb_false_r, bool_decide_eq_true. split.
    + intros [k Hk]. exists [], k. done.
    + intros (pre & post & H). symmetry in H.
      apply app_eq_nil in H as [_ H]. apply app_eq_nil in H as [-> _].
      by exists [].
  - rewrite orb_true_iff, bool_decide_eq_true, IH. split.
    + intros [[k Hk] | (pre & post & ->)].
      * by exists [], k.
      * by exists (c :: pre), post.
    + intros ([|c' pre] & post & H).
      * left. exists post. done.
      * injection H as -> ->. right. by exists pre, post.
Qed.

Lemma contains_slash (s : str) : contains (u "/") s = false → slash ∉ s.
Proof.
  intros H Hin. apply list_elem_of_split in Hin as (pre & post & ->).
  assert (contains (u "/") (pre ++ slash :: post) = true) as E
    by (apply contains_occurs; by exists pre, post).
  congruence.
Qed.

Lemma upload_path_accepted (filename : str) :
  filename ≠ [] → contains (u "/") filename = false →
  upload_path filename = u "temp_uploads/" ++ filename.
Proof.
  intros Hne Hs. apply contains_slash in Hs.
  destruct filename as [|c f]; [done|]. unfold upload_path, join.
  rewrite bool_decide_eq_false_2 by (intros ->; set_solver).
  done.
Qed.

Section Single.
Context {tensor : Type}.
Variable caps : capabilities tensor.
Variable g : globals.
Variable srv : web.

Lemma remove_saved_returns p w : fst (remove_saved p w) = Return tt.
Proof.
  cbv [remove_saved bind exists_ emit try_except remove]. cbn [fs log rand].
  case_bool_decide as Hin; cbn [fs log rand]; [|done].
  by rewrite bool_decide_eq_true_2.
Qed.

Lemma remove_saved_absent p w : p ∉ fs (snd (remove_saved p w)).
Proof.
  cbv [remove_saved bind exists_ emit try_except remove]. cbn [fs log rand].
  case_bool_decide as Hin; cbn [fs log rand]; [|done].
  rewrite bool_decide_eq_true_2 by done. cbn. set_solver.
Qed.

Lemma remove_saved_quiet p w f :
  ∃ evs, log (snd (remove_saved p w)) = log w ++ evs ∧ invocations f evs = 0.
Proof.
  cbv [remove_saved bind exists_ emit try_except remove]. cbn [fs log rand].
  case_bool_decide as Hin; cbn [fs log rand].
  - rewrite bool_decide_eq_true_2 by done. cbn. rewrite <- app_assoc.
    by eexists.
  - by eexists.
Qed.

Lemma finally_remove_saved_outcome {A} (c : M A) p w :
  fst (finally c (remove_saved p) w) = fst (c w).
Proof.
  unfold finally. destruct (c w) as [r w1].
  pose proof (remove_saved_returns p w1) as H.
  by destruct (remove_saved p w1) as [[[]|e] w2].
Qed.

Lemma select_http (filename : str) (e : exn) (w : world) :
  ∃ h,
    select_clause
      [(FileNotFoundError,
        λ _ : exn,
          raise (A := AudioAuditResponse)
            (Exn HTTPException
               (u "404: File not found during processing: " ++ filename)));
       (ValueError,
        λ e : exn,
          raise (Exn HTTPException
                   (u "400: Invalid data or processing error: " ++ str_of_exn e)));
       (Exception,
        λ e : exn,
          raise (Exn HTTPException
                   (u "500: An unexpected error occurred: " ++ str_of_exn e)))] e
    = Some h
    ∧ h w = (Raise (http_error_of filename e), w).
Proof.
  unfold http_error_of. cbn [select_clause].
  destruct (isinstance e FileNotFoundError); [by eexists|].
  destruct (isinstance e ValueError); [by eexists|].
  rewrite isinstance_Exception. by eexists.
Qed.

(** What [upload_audio] answers for a name it accepts. *)
Lemma upload_audio_accepted (filename : str) (w : world) :
  filename ≠ [] →
  contains (u "..") filename = false → contains (u "/") filename = false →
  let p := upload_path filename in
  let w1 := saved (snd (store_upload srv p)) p w in
  (fst (upload_audio caps g srv (Some filename) w)
   = match fst (store_upload srv p) with
     | Fails c msg => Raise (http_error_of filename (Exn c msg))
     | Ok _ =>
       match fst (perform_full_audio_audit caps g p w1) with
       | Return v =>
         match validate srv v with
         | Ok r => Return r
         | Fails c msg => Raise (http_error_of filename (Exn c msg))
         end
       | Raise e => Raise (http_error_of filename e)
       end
     end)
  ∧ (p ∉ fs (snd (upload_audio caps g srv (Some filename) w)))
  ∧ (∃ evs,
       log (snd (upload_audio caps g srv (Some filename) w))
       = log (match fst (store_upload srv p) with
              | Fails _ _ => w1
              | Ok _ => snd (perform_full_audio_audit caps g p w1)
              end) ++ evs
       ∧ invocations PerformFullAudioAudit evs = 0).
Proof.
  intros Hne Hd Hs p w1. destruct filename as [|c f]; [done|].
  unfold upload_audio. rewrite Hd, Hs. cbn [orb].
  fold (upload_path (c :: f)). fold p.
  rewrite finally_remove_saved_outcome, finally_world.
  set (body := let '(stored, written) := store_upload srv p in _).
  assert (Hbody :
    body w
    = match fst (store_upload srv p) with
      | Fails c msg => (Raise (Exn c msg), w1)
      | Ok _ =>
        match perform_full_audio_audit caps g p w1 with
        | (Return v, w2) =>
          match validate srv v with
          | Ok r => (Return r, w2)
          | Fails c msg => (Raise (Exn c msg), w2)
          end
        | (Raise e, w2) => (Raise e, w2)
        end
      end).
  { subst body w1. destruct (store_upload srv p) as [[[]|c0 msg] written];
      cbv [bind leave_file lift raise ret saved fst snd]; [|done].
    destruct (perform_returns caps g p
                (if written then World (fs w ∪ {[p]}) (log w) (rand w) else w))
      as (rec & Hp & _).
    destruct (perform_full_audio_audit caps g p _) as [r w2]. cbn in Hp.
    subst r. cbv [reports_failure ret]. cbv beta iota.
    destruct (_ || _); by destruct (validate srv (PDict rec)). }
  clearbody body. unfold try_except. rewrite Hbody. clear Hbody.
  split; [|split].
  - destruct (fst (store_upload srv p)) as [[]|c0 msg].
    + destruct (perform_full_audio_audit caps g p w1) as [[v|e] w2]; cbn [fst].
      * destruct (validate srv v) as [r|c0 msg]; [done|].
        by destruct (select_http (c :: f) (Exn c0 msg) w2) as (h & -> & ->).
      * by destruct (select_http (c :: f) e w2) as (h & -> & ->).
    + by destruct (select_http (c :: f) (Exn c0 msg) w1) as (h & -> & ->).
  - apply remove_saved_absent.
  - match goal with
    | |- context [remove_saved p ?W] =>
      destruct (remove_saved_quiet p W PerformFullAudioAudit) as (evs & -> & Hq)
    end.
    exists evs. split; [|done]. f_equal.
    destruct (fst (store_upload srv p)) as [[]|c0 msg].
    + destruct (perform_full_audio_audit caps g p w1) as [[v|e] w2]; cbn [fst snd].
      * destruct (validate srv v) as [r|c0 msg]; [done|].
        by destruct (select_http (c :: f) (Exn c0 msg) w2) as (h & -> & ->).
      * by destruct (select_http (c :: f) e w2) as (h & -> & ->).
    + by destruct (select_http (c :: f) (Exn c0 msg) w1) as (h & -> & ->).
Qed.

End Single.


Lemma basename_after_slash (dir name : str) :
  slash ∉ name → basename (dir ++ slash :: name) = name.
Proof.
  intros Hn. induction dir as [|c r IH]; cbn [app]; unfold basename;
    fold basename.
  - rewrite bool_decide_eq_false_2 by done.
    by rewrite bool_decide_eq_true_2.
  - rewrite bool_decide_eq_true_2 by set_solver. done.
Qed.

Lemma http_error_of_is_http_error filename e :
  http_error (http_error_of filename e).
Proof.
  unfold http_error, http_error_of. split; [done|]. cbn [str_of_exn].
  destruct (isinstance e FileNotFoundError);
    [|destruct (isinstance e ValueError)].
  - right; left. apply prefix_app_r.
    apply (bool_decide_eq_true_1 _). vm_compute. reflexivity.
  - left. apply prefix_app_r.
    apply (bool_decide_eq_true_1 _). vm_compute. reflexivity.
  - right; right. apply prefix_app_r.
    apply (bool_decide_eq_true_1 _). vm_compute. reflexivity.
Qed.

(** X23.  A file name with a slash or with two dots in a row, wherever
    they stand, is refused with status 400 before anything is written,
    logged or audited. *)
Theorem X23_names_with_path_components_are_refused {tensor}
    (caps : capabilities tensor) (g : globals) (srv : web)
    (filename : str) (w : world) :
  slash ∈ filename ∨ (∃ pre post, filename = pre ++ u ".." ++ post) →
  upload_audio caps g srv (Some filename) w
  = (Raise (Exn HTTPException (u "400: Invalid filename characters.")), w).
Proof.
  intros H.
  assert (contains (u "..") filename || contains (u "/") filename = true) as E.
  { apply orb_true_iff. destruct H as [H | H].
    - right. apply contains_occurs.
      apply list_elem_of_split in H as (pre & post & ->). by exists pre, post.
    - left. by apply contains_occurs. }
  unfold upload_audio. rewrite E.
  destruct filename as [|c f]; [|done].
  destruct H as [H | (pre & post & H)]; [set_solver|].
  symmetry in H. apply app_eq_nil in H as [_ H]. by apply app_eq_nil in H as [H _].
Qed.

Lemma X23_witness :
  upload_audio (studio greeting (answers (u "{}"))) all_loaded
    (service (λ _, NotAZip)) (Some (u "../main.py")) disk
  = (Raise (Exn HTTPException (u "400: Invalid filename characters.")), disk).
Proof.
  apply (X23_names_with_path_components_are_refused
           (studio greeting (answers (u "{}"))) all_loaded
           (service (λ _, NotAZip)) (u "../main.py") disk).
  left. apply (bool_decide_eq_true_1 _). vm_compute. reflexivity.
Defined.

(** X24.  An accepted upload is saved as [temp_uploads/<name>] and audited
    from there, and what the client gets is decided by the validation of
    the audit record alone: a record that validates is the answer, also
    when it is a [FAILED] one, and a record that does not validate gives
    status 400 for a [ValueError], 404 for a [FileNotFoundError] and 500
    otherwise.  The record names the upload by the name it was sent
    under. *)
Theorem X24_validated_record_is_the_answer {tensor}
    (caps : capabilities tensor) (g : globals) (srv : web)
    (filename : str) (w : world) :
  filename ≠ [] →
  contains (u "..") filename = false → contains (u "/") filename = false →
  let p := u "temp_uploads/" ++ filename in
  fst (store_upload srv p) = Ok tt →
  ∃ rec,
    fst (perform_full_audio_audit caps g p
           (saved (snd (store_upload srv p)) p w)) = Return (PDict rec)
    ∧ dict_get rec (u "audio_file") = Some (PStr filename)
    ∧ fst (upload_audio caps g srv (Some filename) w)
      = match validate srv (PDict rec) with
        | Ok r => Return r
        | Fails c msg =>
          Raise (Exn HTTPException
                   (if issubclass c FileNotFoundError
                    then u "404: File not found during processing: " ++ filename
                    else if issubclass c ValueError
                    then u "400: Invalid data or processing error: " ++ msg
                    else u "500: An unexpected error occurred: " ++ msg))
        end.
Proof.
  intros Hne Hd Hs p Hstore.
  destruct (upload_audio_accepted caps g srv filename w Hne Hd Hs) as (H & _).
  rewrite (upload_path_accepted filename Hne Hs) in H. fold p in H.
  rewrite H, Hstore. clear H.
  destruct (perform_returns caps g p (saved (snd (store_upload srv p)) p w))
    as (rec & Hp & Ha).
  exists rec. split; [done|]. split.
  - rewrite Ha. do 2 f_equal. subst p.
    change (u "temp_uploads/") with (u "temp_uploads" ++ [slash]).
    rewrite <- app_assoc. apply basename_after_slash.
    by apply contains_slash.
  - rewrite Hp. by destruct (validate srv (PDict rec)).
Qed.

Lemma X24_witness :
  fst (upload_audio (studio greeting (answers (u "{}"))) all_loaded
         (service (λ _, NotAZip)) (Some (u "call.wav")) disk)
  = Return {| audio_file := u "call.wav";
              transcription := Some (u "您好，请问有什么可以帮您？");
              sentiment := None; compliance_issues := None; summary := None;
              error := None; status := None |}.
Proof.
  destruct (X24_validated_record_is_the_answer
              (studio greeting (answers (u "{}"))) all_loaded
              (service (λ _, NotAZip)) (u "call.wav") disk)
    as (rec & Hp & _ & H).
  - vm_compute. discriminate.
  - reflexivity.
  - reflexivity.
  - reflexivity.
  - rewrite H. vm_compute in Hp. injection Hp as <-. vm_compute. reflexivity.
Defined.

(** X25.  [upload_audio] leaves no saved upload behind: when nothing
    exists at [temp_uploads/<name>] as the request starts, nothing exists
    there when [upload_audio] ends, whether it answers or raises.  The
    file the request wrote is the one that is removed. *)
Theorem X25_saved_upload_is_removed {tensor}
    (caps : capabilities tensor) (g : globals) (srv : web)
    (filename : str) (w : world) :
  filename ≠ [] →
  contains (u "..") filename = false → contains (u "/") filename = false →
  u "temp_uploads/" ++ filename ∉ fs w →
  u "temp_uploads/" ++ filename
  ∉ fs (snd (upload_audio caps g srv (Some filename) w)).
Proof.
  intros Hne Hd Hs _.
  destruct (upload_audio_accepted caps g srv filename w Hne Hd Hs) as (_ & H & _).
  by rewrite (upload_path_accepted filename Hne Hs) in H.
Qed.

Lemma X25_witness :
  u "temp_uploads/call.wav"
  ∉ fs (snd (upload_audio (studio greeting (answers (u "{}"))) all_loaded
               (service (λ _, NotAZip)) (Some (u "call.wav")) disk)).
Proof.
  apply (X25_saved_upload_is_removed (studio greeting (answers (u "{}")))
           all_loaded (service (λ _, NotAZip)) (u "call.wav") disk).
  - vm_compute. discriminate.
  - reflexivity.
  - reflexivity.
  - apply (bool_decide_eq_false_1 _). vm_compute. reflexivity.
Defined.

(** X26.  The only exceptions that leave [upload_audio] are
    [HTTPException]s with status 400, 404 or 500. *)
Theorem X26_upload_audio_raises_only_http_errors {tensor}
    (caps : capabilities tensor) (g : globals) (srv : web)
    (filename : option str) (w : world) (e : exn) :
  fst (upload_audio caps g srv filename w) = Raise e →
  class_of e = HTTPException
  ∧ (u "400: " `prefix_of` str_of_exn e
     ∨ u "404: " `prefix_of` str_of_exn e
     ∨ u "500: " `prefix_of` str_of_exn e).
Proof.
  assert (L : ∀ s : str, u "400: " `prefix_of` s →
              http_error (Exn HTTPException s)) by (by split; [|left]).
  fold (http_error e).
  destruct filename as [[|c f]|].
  1,3: intros [= <-]; apply L;
    apply (bool_decide_eq_true_1 _); vm_compute; reflexivity.
  destruct (contains (u "..") (c :: f)) eqn:Hd.
  { unfold upload_audio. rewrite Hd. intros [= <-]. apply L.
    apply (bool_decide_eq_true_1 _). vm_compute. reflexivity. }
  destruct (contains (u "/") (c :: f)) eqn:Hs.
  { unfold upload_audio. rewrite Hd, Hs. intros [= <-]. apply L.
    apply (bool_decide_eq_true_1 _). vm_compute. reflexivity. }
  destruct (upload_audio_accepted caps g srv (c :: f) w ltac:(done) Hd Hs)
    as (-> & _).
  destruct (fst (store_upload srv _)) as [[]|c0 msg].
  - destruct (fst (perform_full_audio_audit caps g _ _)) as [v|e'].
    + destruct (validate srv v) as [r|c0 msg]; [done|].
      intros [= <-]. apply http_error_of_is_http_error.
    + intros [= <-]. apply http_error_of_is_http_error.
  - intros [= <-]. apply http_error_of_is_http_error.
Qed.

Lemma X26_witness :
  class_of (Exn HTTPException (u "400: No filename provided.")) = HTTPException
  ∧ (u "400: " `prefix_of` u "400: No filename provided."
     ∨ u "404: " `prefix_of` u "400: No filename provided."
     ∨ u "500: " `prefix_of` u "400: No filename provided.").
Proof.
  apply (X26_upload_audio_raises_only_http_errors
           (studio greeting (answers (u "{}"))) all_loaded
           (service (λ _, NotAZip)) None disk
           (Exn HTTPException (u "400: No filename provided."))).
  reflexivity.
Defined.

(** X27.  When the upload cannot be saved nothing is audited, and the
    client gets status 404 if the failure is a [FileNotFoundError], 400 if
    it is a [ValueError] and 500 otherwise. *)
Theorem X27_upload_that_cannot_be_saved {tensor}
    (caps : capabilities tensor) (g : globals) (srv : web)
    (filename : str) (w : world) (c : exn_class) (msg : str) :
  filename ≠ [] →
  contains (u "..") filename = false → contains (u "/") filename = false →
  fst (store_upload srv (u "temp_uploads/" ++ filename)) = Fails c msg →
  fst (upload_audio caps g srv (Some filename) w)
  = Raise (Exn HTTPException
             (if issubclass c FileNotFoundError
              then u "404: File not found during processing: " ++ filename
              else if issubclass c ValueError
              then u "400: Invalid data or processing error: " ++ msg
              else u "500: An unexpected error occurred: " ++ msg))
  ∧ invocations PerformFullAudioAudit
      (log (snd (upload_audio caps g srv (Some filename) w)))
    = invocations PerformFullAudioAudit (log w).
Proof.
  intros Hne Hd Hs Hstore.
  destruct (upload_audio_accepted caps g srv filename w Hne Hd Hs)
    as (H & _ & evs & Hl & Hq).
  rewrite (upload_path_accepted filename Hne Hs) in H, Hl.
  rewrite Hstore in H, Hl. split; [done|].
  rewrite Hl, invocations_app, Hq. unfold saved.
  destruct (snd (store_upload srv _)); cbn [log]; lia.
Qed.

Lemma X27_witness :
  fst (upload_audio (studio greeting (answers (u "{}"))) all_loaded read_only
         (Some (u "call.wav")) disk)
  = Raise (Exn HTTPException
             (u "500: An unexpected error occurred: [Errno 30] Read-only file system")).
Proof.
  destruct (X27_upload_that_cannot_be_saved
              (studio greeting (answers (u "{}"))) all_loaded read_only
              (u "call.wav") disk OSError
              (u "[Errno 30] Read-only file system")) as [H _].
  - vm_compute. discriminate.
  - reflexivity.
  - reflexivity.
  - reflexivity.
  - rewrite H. vm_compute. reflexivity.
Defined.


(* ===================================================================== *)
(** ** Properties of the module initialisation                            *)
(* ===================================================================== *)

Ltac load_cases ld :=
  unfold load_module, heavy_imports;
  destruct (import_ollama ld) as [[]|? ?];
  [destruct (import_torch ld) as [[]|? ?];
   [destruct (import_torchaudio ld) as [[]|? ?];
    [destruct (import_faster_whisper ld) as [[]|? ?];
     [destruct (import_resemble_enhance ld) as [[]|? ?];
      [destruct (cuda_is_available ld) as [[|]|? ?]|]|]|]|]|].

(** X28.  In every state the module body can leave, [ollama] is bound,
    the device is [cpu] or [cuda], and the guards are nested: when the
    guard of [perform_full_audio_audit] passes, so do the guards of
    [transcribe_audio] and of [preprocess_audio]. *)
Theorem X28_loaded_guards_are_nested (ld : loader) (st : module_state) :
  load_module ld = Return st →
  ollama (handles st) = true
  ∧ (DEVICE st = u "cpu" ∨ DEVICE st = u "cuda")
  ∧ (available (handles st) = true →
     can_transcribe (handles st) = true ∧ can_preprocess (handles st) = true).
Proof.
  load_cases ld; cbn.
  all: repeat match goal with
       | |- context [WhisperModel_init ?l ?a ?b ?c] =>
         destruct (WhisperModel_init l a b c) as [[]|? ?]; cbn
       | |- context [isinstance ?e ImportError] =>
         destruct (isinstance e ImportError); cbn
       end.
  all: try discriminate.
  all: intros [= <-]; cbn; repeat split; auto; try discriminate.
Qed.

Lemma X28_witness :
  ∃ st,
    load_module complete_install = Return st
    ∧ available (handles st) = true
    ∧ can_transcribe (handles st) = true
    ∧ can_preprocess (handles st) = true.
Proof.
  eexists. split; [vm_compute; reflexivity|].
  destruct (X28_loaded_guards_are_nested complete_install
              (ModuleState all_loaded (u "cpu"))) as (_ & _ & H).
  - vm_compute. reflexivity.
  - split; [reflexivity|]. apply H. reflexivity.
Defined.

(** X29.  After the module has loaded, the pipeline is available exactly
    when the four heavy imports, the CUDA probe and the construction of
    the model all succeeded; the model is built for the probed device,
    with [int8] on [cpu] and [float16] on [cuda]. *)
Theorem X29_pipeline_is_available_iff_everything_loaded (ld : loader)
    (st : module_state) :
  load_module ld = Return st →
  available (handles st) = true
  ↔ import_torch ld = Ok tt ∧ import_torchaudio ld = Ok tt
    ∧ import_faster_whisper ld = Ok tt ∧ import_resemble_enhance ld = Ok tt
    ∧ ∃ cuda,
        cuda_is_available ld = Ok cuda
        ∧ WhisperModel_init ld (u "medium")
            (if cuda then u "cuda" else u "cpu")
            (if cuda then u "float16" else u "int8") = Ok tt.
Proof.
  load_cases ld; cbn.
  all: try change (bool_decide (u "cuda" = u "cpu")) with false.
  all: try change (bool_decide (u "cpu" = u "cpu")) with true.
  all: cbv iota.
  all: repeat match goal with
       | |- context [WhisperModel_init ?l ?a ?b ?c] =>
         destruct (WhisperModel_init l a b c) as [[]|? ?] eqn:?; cbn
       | |- context [isinstance ?e ImportError] =>
         destruct (isinstance e ImportError); cbn
       end.
  all: try discriminate.
  all: intros [= <-]; cbn; split; try discriminate.
  all: try (intros (? & ? & ? & ? & ? & ? & ?); simplify_eq; fail).
  all: try (intros _; repeat split; eauto; fail).
  all: intros (_ & _ & _ & _ & cuda & [= <-] & H); congruence.
Qed.

Lemma X29_witness :
  ∃ st,
    load_module without_enhancer = Return st
    ∧ available (handles st) = false.
Proof.
  exists (ModuleState nothing_loaded (u "cpu")).
  split; [vm_compute; reflexivity|].
  destruct (available (handles (ModuleState nothing_loaded (u "cpu")))) eqn:E;
    [|reflexivity].
  destruct (X29_pipeline_is_available_iff_everything_loaded without_enhancer
              (ModuleState nothing_loaded (u "cpu"))) as [H _].
  - vm_compute. reflexivity.
  - destruct (H E) as (_ & _ & _ & H4 & _). discriminate H4.
Defined.

(** X30.  A heavy library that is missing, and a model that cannot be
    built, never keep the module from loading: importing the module fails
    only when [import ollama] fails, or when a heavy import or the CUDA
    probe raises something that is not an [ImportError]. *)
Theorem X30_missing_libraries_do_not_prevent_loading (ld : loader) (e : exn) :
  load_module ld = Raise e →
  ∃ c msg,
    e = Exn c msg
    ∧ (import_ollama ld = Fails c msg
       ∨ (issubclass c ImportError = false
          ∧ (import_torch ld = Fails c msg
             ∨ import_torchaudio ld = Fails c msg
             ∨ import_faster_whisper ld = Fails c msg
             ∨ import_resemble_enhance ld = Fails c msg
             ∨ cuda_is_available ld = Fails c msg))).
Proof.
  load_cases ld; cbn.
  all: repeat match goal with
       | |- context [WhisperModel_init ?l ?a ?b ?c] =>
         destruct (WhisperModel_init l a b c) as [[]|? ?]; cbn
       end.
  all: try discriminate.
  all: try (intros [= <-]; eexists _, _; split; [done|]; by left).
  all: match goal with
       | |- context [isinstance (Exn ?c ?m) ImportError] =>
         change (isinstance (Exn c m) ImportError)
           with (issubclass c ImportError);
         destruct (issubclass c ImportError) eqn:?; [discriminate|]
       end.
  all: intros [= <-]; eexists _, _; split; [done|]; right; split; [done|];
    eauto 6.
Qed.

Lemma X30_witness :
  ∃ c msg,
    Exn OSError (u "libcudart.so: cannot open shared object file")
    = Exn c msg
    ∧ issubclass c ImportError = false.
Proof.
  destruct (X30_missing_libraries_do_not_prevent_loading
              {| import_ollama := Ok tt;
                 import_torch :=
                   Fails OSError
                     (u "libcudart.so: cannot open shared object file");
                 import_torchaudio := Ok tt;
                 import_faster_whisper := Ok tt;
                 import_resemble_enhance := Ok tt;
                 cuda_is_available := Ok false;
                 WhisperModel_init := λ _ _ _, Ok tt |}
              (Exn OSError (u "libcudart.so: cannot open shared object file")))
    as (c & msg & E & [H | [H _]]).
  - reflexivity.
  - discriminate H.
  - exists c, msg. split; [exact E | exact H].
Defined.
